(** * ObjectLoader: reconstruction of a scene graph from a JSON document

    A shallow embedding of [source/core/loaders/ObjectLoader.js].  The
    loader is imperative JavaScript: it allocates objects, writes to the
    console, throws and catches exceptions, and mutates the objects it
    builds.  Here this becomes a state-and-exception monad over a [World]
    that holds the allocation counter, the trace of observable calls and
    the resource containers of the loader ([this]).

    The classes the loader instantiates (the rendering library, [Scene],
    [Container], [Skeleton], the resource sub-loaders) live outside the
    loader's file.  They are represented by what the loader reads and
    writes on them; a value computed by the library is kept as a symbolic
    term that names the call which produced it. *)

From stdpp Require Import base strings list gmap.
From Stdlib Require Import ZArith.

Local Open Scope string_scope.
Local Open Scope list_scope.
Local Set Warnings "-register-all".

(** JSON numbers are carried from the document to the object unchanged;
    the loader never computes with them. *)
Definition number := Z.

(** ** Input documents *)

(** A resource section of a document is either a JSON array or a JSON
    object; [for (var i in json)] visits the members of both, an index
    loop bounded by [json.length] visits only those of an array.  The
    members of an object are listed in the order in which [for ... in]
    enumerates them: the keys that are array indices first, in ascending
    order, then the other keys in the order of the document. *)
Inductive Collection (A : Type) : Type :=
| Arr (items : list A)
| Dict (members : list (string * A)).
Arguments Arr {A} items.
Arguments Dict {A} members.

Definition for_in {A} (json : Collection A) : list A :=
  match json with
  | Arr items => items
  | Dict members => members.*2
  end.

Definition js_length {A} (json : Collection A) : option nat :=
  match json with
  | Arr items => Some (length items)
  | Dict _ => None
  end.

Definition indexed {A} (json : Collection A) : list A :=
  match json with
  | Arr items => items
  | Dict _ => []
  end.

(** One raw resource record.  [bones] is read on geometries only. *)
Record RawRecord : Type := mkRawRecord {
  raw_uuid : string;
  raw_bones : option (list string);
  raw_body : string
}.

Module Json.
Record t (Node : Type) : Type := mk {
  resources : option (Collection RawRecord);
  shapes : option (Collection RawRecord);
  geometries : option (Collection RawRecord);
  images : option (Collection RawRecord);
  videos : option (Collection RawRecord);
  audio : option (Collection RawRecord);
  fonts : option (Collection RawRecord);
  textures : option (Collection RawRecord);
  materials : option (Collection RawRecord);
  object : option Node
}.
Arguments mk {Node}.
Arguments resources {Node}.
Arguments shapes {Node}.
Arguments geometries {Node}.
Arguments images {Node}.
Arguments videos {Node}.
Arguments audio {Node}.
Arguments fonts {Node}.
Arguments textures {Node}.
Arguments materials {Node}.
Arguments object {Node}.

Definition document {Node} (object : option Node) : t Node :=
  mk None None None None None None None None None object.

Definition with_images {Node} (v : Collection RawRecord) (json : t Node) : t Node :=
  mk (resources json) (shapes json) (geometries json) (Some v) (videos json) (audio json)
     (fonts json) (textures json) (materials json) (object json).
Definition with_geometries {Node} (v : Collection RawRecord) (json : t Node) : t Node :=
  mk (resources json) (shapes json) (Some v) (images json) (videos json) (audio json)
     (fonts json) (textures json) (materials json) (object json).
End Json.

(** The keyframe tracks of an animation record are parsed by the rendering
    library, outside the loader.  A raw track is kept as what
    [KeyframeTrack.parse] makes of it: the track is well formed, or the
    library throws an error with a message. *)
Inductive RawTrack : Type :=
| wellFormedTrack (json : string)
| malformedTrack (message : string).

Module Animation.
Record t : Type := mk {
  name : string;
  uuid : option string;
  tracks : option (list RawTrack)
}.
End Animation.

Module SkeletonParams.
Record t : Type := mk {
  uuid : string;
  bones : list string;
  boneInverses : option (list (list number))
}.
End SkeletonParams.

Module Level.
Record t : Type := mk {
  object : string;
  distance : number
}.
End Level.

(** The [sun] block of a sky record. *)
Module Sun.
Record t : Type := mk {
  shadow : option string;
  castShadow : option bool
}.
End Sun.

(** The [world] block of a scene record. *)
Module PhysicsWorld.
Record t : Type := mk {
  gravity : option string;
  solver : option string
}.
End PhysicsWorld.

(** [data.viewport] of a camera record: an array, beside which the record
    is expected to have an [offset] array, or an object. *)
Inductive Viewport : Type :=
| viewportArray (size : list number)
| viewportJSON (json : string).

(** A node record.  Every key the loader tests against [undefined] is an
    [option].  Of the variant-specific payload only the keys that decide
    control flow, a key or a resource lookup that is dereferenced, or a
    property read later by [parseObject] are kept; values that are copied
    verbatim into variant properties are not tracked. *)
Module Data.
Inductive t : Type := mk {
  type : string;
  uuid : string;
  name : string;
  locked : option bool;
  hidden : option bool;
  folded : option bool;
  frustumCulled : option bool;
  renderOrder : option number;
  animations : option (list Animation.t);
  matrix : option (list number);
  position : option (list number);
  rotation : option (list number);
  quaternion : option (list number);
  scale : option (list number);
  castShadow : option bool;
  receiveShadow : option bool;
  shadow : option string;
  visible : option bool;
  userData : option string;
  layers : option number;
  children : option (list t);
  matrixAutoUpdate : option bool;
  skeletons : option (list SkeletonParams.t);
  textures : option (list string);
  lensFlares : option (list string);
  elements : option (list string);
  defaultCamera : option (Json.t t);
  cameras : option (list string);
  geometry : option string;
  skeleton : option string;
  instanceMatrix : option (list number);
  levels : option (list Level.t);
  sun : option Sun.t;
  center : option (list number);
  vector : option (list number);
  world : option PhysicsWorld.t;
  viewport : option Viewport;
  offset : option (list number);
  sh : option (list number)
}.

Definition record (type uuid name : string) : t :=
  mk type uuid name None None None None None None None None None None None None None None None
     None None None None None None None None None None None None None None None None None None
     None None None.

Definition with_animations (v : list Animation.t) (d : t) : t :=
  mk (type d) (uuid d) (name d) (locked d) (hidden d) (folded d) (frustumCulled d)
     (renderOrder d) (Some v) (matrix d) (position d) (rotation d) (quaternion d) (scale d)
     (castShadow d) (receiveShadow d) (shadow d) (visible d) (userData d) (layers d)
     (children d) (matrixAutoUpdate d) (skeletons d) (textures d) (lensFlares d) (elements d)
     (defaultCamera d) (cameras d) (geometry d) (skeleton d) (instanceMatrix d) (levels d)
     (sun d) (center d) (vector d) (world d) (viewport d) (offset d) (sh d).
Definition with_matrix (v : list number) (d : t) : t :=
  mk (type d) (uuid d) (name d) (locked d) (hidden d) (folded d) (frustumCulled d)
     (renderOrder d) (animations d) (Some v) (position d) (rotation d) (quaternion d)
     (scale d) (castShadow d) (receiveShadow d) (shadow d) (visible d) (userData d) (layers d)
     (children d) (matrixAutoUpdate d) (skeletons d) (textures d) (lensFlares d) (elements d)
     (defaultCamera d) (cameras d) (geometry d) (skeleton d) (instanceMatrix d) (levels d)
     (sun d) (center d) (vector d) (world d) (viewport d) (offset d) (sh d).
Definition with_position (v : list number) (d : t) : t :=
  mk (type d) (uuid d) (name d) (locked d) (hidden d) (folded d) (frustumCulled d)
     (renderOrder d) (animations d) (matrix d) (Some v) (rotation d) (quaternion d) (scale d)
     (castShadow d) (receiveShadow d) (shadow d) (visible d) (userData d) (layers d)
     (children d) (matrixAutoUpdate d) (skeletons d) (textures d) (lensFlares d) (elements d)
     (defaultCamera d) (cameras d) (geometry d) (skeleton d) (instanceMatrix d) (levels d)
     (sun d) (center d) (vector d) (world d) (viewport d) (offset d) (sh d).
Definition with_rotation (v : list number) (d : t) : t :=
  mk (type d) (uuid d) (name d) (locked d) (hidden d) (folded d) (frustumCulled d)
     (renderOrder d) (animations d) (matrix d) (position d) (Some v) (quaternion d) (scale d)
     (castShadow d) (receiveShadow d) (shadow d) (visible d) (userData d) (layers d)
     (children d) (matrixAutoUpdate d) (skeletons d) (textures d) (lensFlares d) (elements d)
     (defaultCamera d) (cameras d) (geometry d) (skeleton d) (instanceMatrix d) (levels d)
     (sun d) (center d) (vector d) (world d) (viewport d) (offset d) (sh d).
Definition with_quaternion (v : list number) (d : t) : t :=
  mk (type d) (uuid d) (name d) (locked d) (hidden d) (folded d) (frustumCulled d)
     (renderOrder d) (animations d) (matrix d) (position d) (rotation d) (Some v) (scale d)
     (castShadow d) (receiveShadow d) (shadow d) (visible d) (userData d) (layers d)
     (children d) (matrixAutoUpdate d) (skeletons d) (textures d) (lensFlares d) (elements d)
     (defaultCamera d) (cameras d) (geometry d) (skeleton d) (instanceMatrix d) (levels d)
     (sun d) (center d) (vector d) (world d) (viewport d) (offset d) (sh d).
Definition with_scale (v : list number) (d : t) : t :=
  mk (type d) (uuid d) (name d) (locked d) (hidden d) (folded d) (frustumCulled d)
     (renderOrder d) (animations d) (matrix d) (position d) (rotation d) (quaternion d)
     (Some v) (castShadow d) (receiveShadow d) (shadow d) (visible d) (userData d) (layers d)
     (children d) (matrixAutoUpdate d) (skeletons d) (textures d) (lensFlares d) (elements d)
     (defaultCamera d) (cameras d) (geometry d) (skeleton d) (instanceMatrix d) (levels d)
     (sun d) (center d) (vector d) (world d) (viewport d) (offset d) (sh d).
Definition with_castShadow (v : bool) (d : t) : t :=
  mk (type d) (uuid d) (name d) (locked d) (hidden d) (folded d) (frustumCulled d)
     (renderOrder d) (animations d) (matrix d) (position d) (rotation d) (quaternion d)
     (scale d) (Some v) (receiveShadow d) (shadow d) (visible d) (userData d) (layers d)
     (children d) (matrixAutoUpdate d) (skeletons d) (textures d) (lensFlares d) (elements d)
     (defaultCamera d) (cameras d) (geometry d) (skeleton d) (instanceMatrix d) (levels d)
     (sun d) (center d) (vector d) (world d) (viewport d) (offset d) (sh d).
Definition with_shadow (v : string) (d : t) : t :=
  mk (type d) (uuid d) (name d) (locked d) (hidden d) (folded d) (frustumCulled d)
     (renderOrder d) (animations d) (matrix d) (position d) (rotation d) (quaternion d)
     (scale d) (castShadow d) (receiveShadow d) (Some v) (visible d) (userData d) (layers d)
     (children d) (matrixAutoUpdate d) (skeletons d) (textures d) (lensFlares d) (elements d)
     (defaultCamera d) (cameras d) (geometry d) (skeleton d) (instanceMatrix d) (levels d)
     (sun d) (center d) (vector d) (world d) (viewport d) (offset d) (sh d).
Definition with_visible (v : bool) (d : t) : t :=
  mk (type d) (uuid d) (name d) (locked d) (hidden d) (folded d) (frustumCulled d)
     (renderOrder d) (animations d) (matrix d) (position d) (rotation d) (quaternion d)
     (scale d) (castShadow d) (receiveShadow d) (shadow d) (Some v) (userData d) (layers d)
     (children d) (matrixAutoUpdate d) (skeletons d) (textures d) (lensFlares d) (elements d)
     (defaultCamera d) (cameras d) (geometry d) (skeleton d) (instanceMatrix d) (levels d)
     (sun d) (center d) (vector d) (world d) (viewport d) (offset d) (sh d).
Definition with_children (v : list t) (d : t) : t :=
  mk (type d) (uuid d) (name d) (locked d) (hidden d) (folded d) (frustumCulled d)
     (renderOrder d) (animations d) (matrix d) (position d) (rotation d) (quaternion d)
     (scale d) (castShadow d) (receiveShadow d) (shadow d) (visible d) (userData d) (layers d)
     (Some v) (matrixAutoUpdate d) (skeletons d) (textures d) (lensFlares d) (elements d)
     (defaultCamera d) (cameras d) (geometry d) (skeleton d) (instanceMatrix d) (levels d)
     (sun d) (center d) (vector d) (world d) (viewport d) (offset d) (sh d).
Definition with_skeletons (v : list SkeletonParams.t) (d : t) : t :=
  mk (type d) (uuid d) (name d) (locked d) (hidden d) (folded d) (frustumCulled d)
     (renderOrder d) (animations d) (matrix d) (position d) (rotation d) (quaternion d)
     (scale d) (castShadow d) (receiveShadow d) (shadow d) (visible d) (userData d) (layers d)
     (children d) (matrixAutoUpdate d) (Some v) (textures d) (lensFlares d) (elements d)
     (defaultCamera d) (cameras d) (geometry d) (skeleton d) (instanceMatrix d) (levels d)
     (sun d) (center d) (vector d) (world d) (viewport d) (offset d) (sh d).
Definition with_defaultCamera (v : Json.t t) (d : t) : t :=
  mk (type d) (uuid d) (name d) (locked d) (hidden d) (folded d) (frustumCulled d)
     (renderOrder d) (animations d) (matrix d) (position d) (rotation d) (quaternion d)
     (scale d) (castShadow d) (receiveShadow d) (shadow d) (visible d) (userData d) (layers d)
     (children d) (matrixAutoUpdate d) (skeletons d) (textures d) (lensFlares d) (elements d)
     (Some v) (cameras d) (geometry d) (skeleton d) (instanceMatrix d) (levels d) (sun d)
     (center d) (vector d) (world d) (viewport d) (offset d) (sh d).
Definition with_cameras (v : list string) (d : t) : t :=
  mk (type d) (uuid d) (name d) (locked d) (hidden d) (folded d) (frustumCulled d)
     (renderOrder d) (animations d) (matrix d) (position d) (rotation d) (quaternion d)
     (scale d) (castShadow d) (receiveShadow d) (shadow d) (visible d) (userData d) (layers d)
     (children d) (matrixAutoUpdate d) (skeletons d) (textures d) (lensFlares d) (elements d)
     (defaultCamera d) (Some v) (geometry d) (skeleton d) (instanceMatrix d) (levels d)
     (sun d) (center d) (vector d) (world d) (viewport d) (offset d) (sh d).
Definition with_geometry (v : string) (d : t) : t :=
  mk (type d) (uuid d) (name d) (locked d) (hidden d) (folded d) (frustumCulled d)
     (renderOrder d) (animations d) (matrix d) (position d) (rotation d) (quaternion d)
     (scale d) (castShadow d) (receiveShadow d) (shadow d) (visible d) (userData d) (layers d)
     (children d) (matrixAutoUpdate d) (skeletons d) (textures d) (lensFlares d) (elements d)
     (defaultCamera d) (cameras d) (Some v) (skeleton d) (instanceMatrix d) (levels d) (sun d)
     (center d) (vector d) (world d) (viewport d) (offset d) (sh d).
Definition with_skeleton (v : string) (d : t) : t :=
  mk (type d) (uuid d) (name d) (locked d) (hidden d) (folded d) (frustumCulled d)
     (renderOrder d) (animations d) (matrix d) (position d) (rotation d) (quaternion d)
     (scale d) (castShadow d) (receiveShadow d) (shadow d) (visible d) (userData d) (layers d)
     (children d) (matrixAutoUpdate d) (skeletons d) (textures d) (lensFlares d) (elements d)
     (defaultCamera d) (cameras d) (geometry d) (Some v) (instanceMatrix d) (levels d) (sun d)
     (center d) (vector d) (world d) (viewport d) (offset d) (sh d).
Definition with_levels (v : list Level.t) (d : t) : t :=
  mk (type d) (uuid d) (name d) (locked d) (hidden d) (folded d) (frustumCulled d)
     (renderOrder d) (animations d) (matrix d) (position d) (rotation d) (quaternion d)
     (scale d) (castShadow d) (receiveShadow d) (shadow d) (visible d) (userData d) (layers d)
     (children d) (matrixAutoUpdate d) (skeletons d) (textures d) (lensFlares d) (elements d)
     (defaultCamera d) (cameras d) (geometry d) (skeleton d) (instanceMatrix d) (Some v)
     (sun d) (center d) (vector d) (world d) (viewport d) (offset d) (sh d).
Definition with_world (v : PhysicsWorld.t) (d : t) : t :=
  mk (type d) (uuid d) (name d) (locked d) (hidden d) (folded d) (frustumCulled d)
     (renderOrder d) (animations d) (matrix d) (position d) (rotation d) (quaternion d)
     (scale d) (castShadow d) (receiveShadow d) (shadow d) (visible d) (userData d) (layers d)
     (children d) (matrixAutoUpdate d) (skeletons d) (textures d) (lensFlares d) (elements d)
     (defaultCamera d) (cameras d) (geometry d) (skeleton d) (instanceMatrix d) (levels d)
     (sun d) (center d) (vector d) (Some v) (viewport d) (offset d) (sh d).
Definition with_center (v : list number) (d : t) : t :=
  mk (type d) (uuid d) (name d) (locked d) (hidden d) (folded d) (frustumCulled d)
     (renderOrder d) (animations d) (matrix d) (position d) (rotation d) (quaternion d)
     (scale d) (castShadow d) (receiveShadow d) (shadow d) (visible d) (userData d) (layers d)
     (children d) (matrixAutoUpdate d) (skeletons d) (textures d) (lensFlares d) (elements d)
     (defaultCamera d) (cameras d) (geometry d) (skeleton d) (instanceMatrix d) (levels d)
     (sun d) (Some v) (vector d) (world d) (viewport d) (offset d) (sh d).
End Data.

(** ** Objects *)

(** The constructor of every scene object draws a fresh UUID; a UUID read
    from the document is a different value from every generated one. *)
Inductive UUID : Type :=
| generated (n : nat)
| declared (s : string).

Global Instance UUID_eq_dec : EqDecision UUID.
Proof. solve_decision. Defined.

(** Value of a [Vector3], [Euler] or [Quaternion] property: the one the
    constructor left, the one [fromArray] read from an array of the
    document, the one [Matrix4.decompose] wrote for that property from a
    matrix array, or, for the rotation and the quaternion of an object,
    the one derived from the other.  The two are views of one
    orientation: the constructor of [Object3D] registers a change callback
    on each, by which a write to the rotation sets the quaternion from it
    ([setFromEuler]) and a write to the quaternion sets the rotation from
    it ([setFromQuaternion]). *)
Inductive Components : Type :=
| initial
| fromArray (array : list number)
| decomposed (matrix : list number)
| setFromEuler (euler : Components)
| setFromQuaternion (quaternion : Components).

Inductive Matrix4 : Type :=
| identity
| matrixFromArray (array : list number)
| compose (position quaternion scale : Components).

Inductive Shadow : Type :=
| defaultShadow
| shadowFromJSON (json : string).

(** [THREE.AnimationClip.parse(json)], with the UUID the loader may write
    on the clip afterwards. *)
Record AnimationClip : Type := mkAnimationClip {
  clip_parsed_from : Animation.t;
  clip_uuid : option string
}.

(** Modelled from the spec: the class [Skeleton] is declared outside the
    loader.  A skeleton owns an ordered sequence of bone references and a
    parallel sequence of inverse bind matrices.  A bone reference is the
    identity ([oid]) of the referenced object. *)
Record Skeleton : Type := mkSkeleton {
  bones : list nat;
  boneInverses : list (list number)
}.

(** An entry of [scene.cameras]: still the UUID string of the document, or
    a reference to the object that replaced it. *)
Inductive CameraEntry : Type :=
| cameraUUID (uuid : string)
| cameraObject (ref : nat).

(** Modelled from the spec: [THREE.LOD.addLevel] is declared outside the
    loader; a registered level pairs a node reference with its distance
    threshold. *)
Record LODLevel : Type := mkLODLevel {
  level_object : nat;
  level_distance : number
}.

(** The class of an object, named after the constructor that built it. *)
Module Kind.
Inductive t : Type :=
| SpineAnimation | AudioEmitter | PositionalAudio | PhysicsObject
| ParticleEmitter | LensFlare | TextMesh | Program | LeapMotion
| KinectDevice | Sky | CubeCamera | FirstPersonControls | OrbitControls
| Scene | PerspectiveCamera | OrthographicCamera | Script | RectAreaLight
| AmbientLight | DirectionalLight | PointLight | SpotLight
| HemisphereLight | SkinnedMesh | InstancedMesh | HTMLView | LightProbe
| Mesh | TextBitmap | TextSprite | LOD | Line | LineLoop | LineSegments
| Points | Sprite | Container | Bone.

Global Instance eq_dec : EqDecision t.
Proof. solve_decision. Defined.
End Kind.

(** A resource instance, as built by the sub-loader of its kind from one
    raw record. *)
Inductive Instance : Type :=
| TextFile (json : RawRecord)
| Shape (json : RawRecord)
| Geometry (json : RawRecord)
| Material (json : RawRecord)
| Image (json : RawRecord)
| Video (json : RawRecord)
| Audio (json : RawRecord)
| Font (json : RawRecord)
| Texture (json : RawRecord).

(** [geometry.bones] *)
Definition geometry_bones (geometry : Instance) : option (list string) :=
  match geometry with
  | Geometry json => raw_bones json
  | _ => None
  end.

Module ResourceContainer.
Record t : Type := mk {
  resources : gmap string Instance;
  shapes : gmap string Instance;
  geometries : gmap string Instance;
  images : gmap string Instance;
  videos : gmap string Instance;
  audio : gmap string Instance;
  fonts : gmap string Instance;
  textures : gmap string Instance;
  materials : gmap string Instance
}.

Definition set_resources (v : gmap string Instance) (c : t) : t :=
  mk v (shapes c) (geometries c) (images c) (videos c) (audio c) (fonts c)
     (textures c) (materials c).
Definition set_shapes (v : gmap string Instance) (c : t) : t :=
  mk (resources c) v (geometries c) (images c) (videos c) (audio c)
     (fonts c) (textures c) (materials c).
Definition set_geometries (v : gmap string Instance) (c : t) : t :=
  mk (resources c) (shapes c) v (images c) (videos c) (audio c) (fonts c)
     (textures c) (materials c).
Definition set_images (v : gmap string Instance) (c : t) : t :=
  mk (resources c) (shapes c) (geometries c) v (videos c) (audio c)
     (fonts c) (textures c) (materials c).
Definition set_videos (v : gmap string Instance) (c : t) : t :=
  mk (resources c) (shapes c) (geometries c) (images c) v (audio c)
     (fonts c) (textures c) (materials c).
Definition set_audio (v : gmap string Instance) (c : t) : t :=
  mk (resources c) (shapes c) (geometries c) (images c) (videos c) v
     (fonts c) (textures c) (materials c).
Definition set_fonts (v : gmap string Instance) (c : t) : t :=
  mk (resources c) (shapes c) (geometries c) (images c) (videos c)
     (audio c) v (textures c) (materials c).
Definition set_textures (v : gmap string Instance) (c : t) : t :=
  mk (resources c) (shapes c) (geometries c) (images c) (videos c)
     (audio c) (fonts c) v (materials c).
Definition set_materials (v : gmap string Instance) (c : t) : t :=
  mk (resources c) (shapes c) (geometries c) (images c) (videos c)
     (audio c) (fonts c) (textures c) v.

Definition empty : t :=
  mk ∅ ∅ ∅ ∅ ∅ ∅ ∅ ∅ ∅.
End ResourceContainer.

Module Object3D.
Inductive t : Type := mk {
  oid : nat;
  kind : Kind.t;
  uuid : UUID;
  name : string;
  locked : bool;
  folded : bool;
  frustumCulled : bool;
  renderOrder : number;
  animations : list AnimationClip;
  matrix : Matrix4;
  position : Components;
  rotation : Components;
  quaternion : Components;
  scale : Components;
  castShadow : bool;
  receiveShadow : bool;
  shadow : option Shadow;
  visible : bool;
  userData : string;
  layers : number;
  children : list t;
  matrixAutoUpdate : bool;
  skeletonUUID : option string;
  skeleton : option Skeleton;
  cameras : option (list CameraEntry);
  levels : list LODLevel;
  resources : option ResourceContainer.t
}.

Definition set_uuid (v : UUID) (o : t) : t :=
  mk (oid o) (kind o) v (name o) (locked o) (folded o) (frustumCulled o) (renderOrder o)
     (animations o) (matrix o) (position o) (rotation o) (quaternion o) (scale o)
     (castShadow o) (receiveShadow o) (shadow o) (visible o) (userData o) (layers o)
     (children o) (matrixAutoUpdate o) (skeletonUUID o) (skeleton o) (cameras o) (levels o)
     (resources o).
Definition set_name (v : string) (o : t) : t :=
  mk (oid o) (kind o) (uuid o) v (locked o) (folded o) (frustumCulled o) (renderOrder o)
     (animations o) (matrix o) (position o) (rotation o) (quaternion o) (scale o)
     (castShadow o) (receiveShadow o) (shadow o) (visible o) (userData o) (layers o)
     (children o) (matrixAutoUpdate o) (skeletonUUID o) (skeleton o) (cameras o) (levels o)
     (resources o).
Definition set_locked (v : bool) (o : t) : t :=
  mk (oid o) (kind o) (uuid o) (name o) v (folded o) (frustumCulled o) (renderOrder o)
     (animations o) (matrix o) (position o) (rotation o) (quaternion o) (scale o)
     (castShadow o) (receiveShadow o) (shadow o) (visible o) (userData o) (layers o)
     (children o) (matrixAutoUpdate o) (skeletonUUID o) (skeleton o) (cameras o) (levels o)
     (resources o).
Definition set_folded (v : bool) (o : t) : t :=
  mk (oid o) (kind o) (uuid o) (name o) (locked o) v (frustumCulled o) (renderOrder o)
     (animations o) (matrix o) (position o) (rotation o) (quaternion o) (scale o)
     (castShadow o) (receiveShadow o) (shadow o) (visible o) (userData o) (layers o)
     (children o) (matrixAutoUpdate o) (skeletonUUID o) (skeleton o) (cameras o) (levels o)
     (resources o).
Definition set_frustumCulled (v : bool) (o : t) : t :=
  mk (oid o) (kind o) (uuid o) (name o) (locked o) (folded o) v (renderOrder o)
     (animations o) (matrix o) (position o) (rotation o) (quaternion o) (scale o)
     (castShadow o) (receiveShadow o) (shadow o) (visible o) (userData o) (layers o)
     (children o) (matrixAutoUpdate o) (skeletonUUID o) (skeleton o) (cameras o) (levels o)
     (resources o).
Definition set_renderOrder (v : number) (o : t) : t :=
  mk (oid o) (kind o) (uuid o) (name o) (locked o) (folded o) (frustumCulled o) v
     (animations o) (matrix o) (position o) (rotation o) (quaternion o) (scale o)
     (castShadow o) (receiveShadow o) (shadow o) (visible o) (userData o) (layers o)
     (children o) (matrixAutoUpdate o) (skeletonUUID o) (skeleton o) (cameras o) (levels o)
     (resources o).
Definition set_animations (v : list AnimationClip) (o : t) : t :=
  mk (oid o) (kind o) (uuid o) (name o) (locked o) (folded o) (frustumCulled o)
     (renderOrder o) v (matrix o) (position o) (rotation o) (quaternion o) (scale o)
     (castShadow o) (receiveShadow o) (shadow o) (visible o) (userData o) (layers o)
     (children o) (matrixAutoUpdate o) (skeletonUUID o) (skeleton o) (cameras o) (levels o)
     (resources o).
Definition set_matrix (v : Matrix4) (o : t) : t :=
  mk (oid o) (kind o) (uuid o) (name o) (locked o) (folded o) (frustumCulled o)
     (renderOrder o) (animations o) v (position o) (rotation o) (quaternion o) (scale o)
     (castShadow o) (receiveShadow o) (shadow o) (visible o) (userData o) (layers o)
     (children o) (matrixAutoUpdate o) (skeletonUUID o) (skeleton o) (cameras o) (levels o)
     (resources o).
Definition set_position (v : Components) (o : t) : t :=
  mk (oid o) (kind o) (uuid o) (name o) (locked o) (folded o) (frustumCulled o)
     (renderOrder o) (animations o) (matrix o) v (rotation o) (quaternion o) (scale o)
     (castShadow o) (receiveShadow o) (shadow o) (visible o) (userData o) (layers o)
     (children o) (matrixAutoUpdate o) (skeletonUUID o) (skeleton o) (cameras o) (levels o)
     (resources o).
Definition set_rotation (v : Components) (o : t) : t :=
  mk (oid o) (kind o) (uuid o) (name o) (locked o) (folded o) (frustumCulled o)
     (renderOrder o) (animations o) (matrix o) (position o) v (quaternion o) (scale o)
     (castShadow o) (receiveShadow o) (shadow o) (visible o) (userData o) (layers o)
     (children o) (matrixAutoUpdate o) (skeletonUUID o) (skeleton o) (cameras o) (levels o)
     (resources o).
Definition set_quaternion (v : Components) (o : t) : t :=
  mk (oid o) (kind o) (uuid o) (name o) (locked o) (folded o) (frustumCulled o)
     (renderOrder o) (animations o) (matrix o) (position o) (rotation o) v (scale o)
     (castShadow o) (receiveShadow o) (shadow o) (visible o) (userData o) (layers o)
     (children o) (matrixAutoUpdate o) (skeletonUUID o) (skeleton o) (cameras o) (levels o)
     (resources o).
Definition set_scale (v : Components) (o : t) : t :=
  mk (oid o) (kind o) (uuid o) (name o) (locked o) (folded o) (frustumCulled o)
     (renderOrder o) (animations o) (matrix o) (position o) (rotation o) (quaternion o) v
     (castShadow o) (receiveShadow o) (shadow o) (visible o) (userData o) (layers o)
     (children o) (matrixAutoUpdate o) (skeletonUUID o) (skeleton o) (cameras o) (levels o)
     (resources o).
Definition set_castShadow (v : bool) (o : t) : t :=
  mk (oid o) (kind o) (uuid o) (name o) (locked o) (folded o) (frustumCulled o)
     (renderOrder o) (animations o) (matrix o) (position o) (rotation o) (quaternion o)
     (scale o) v (receiveShadow o) (shadow o) (visible o) (userData o) (layers o)
     (children o) (matrixAutoUpdate o) (skeletonUUID o) (skeleton o) (cameras o) (levels o)
     (resources o).
Definition set_receiveShadow (v : bool) (o : t) : t :=
  mk (oid o) (kind o) (uuid o) (name o) (locked o) (folded o) (frustumCulled o)
     (renderOrder o) (animations o) (matrix o) (position o) (rotation o) (quaternion o)
     (scale o) (castShadow o) v (shadow o) (visible o) (userData o) (layers o) (children o)
     (matrixAutoUpdate o) (skeletonUUID o) (skeleton o) (cameras o) (levels o)
     (resources o).
Definition set_shadow (v : option Shadow) (o : t) : t :=
  mk (oid o) (kind o) (uuid o) (name o) (locked o) (folded o) (frustumCulled o)
     (renderOrder o) (animations o) (matrix o) (position o) (rotation o) (quaternion o)
     (scale o) (castShadow o) (receiveShadow o) v (visible o) (userData o) (layers o)
     (children o) (matrixAutoUpdate o) (skeletonUUID o) (skeleton o) (cameras o) (levels o)
     (resources o).
Definition set_visible (v : bool) (o : t) : t :=
  mk (oid o) (kind o) (uuid o) (name o) (locked o) (folded o) (frustumCulled o)
     (renderOrder o) (animations o) (matrix o) (position o) (rotation o) (quaternion o)
     (scale o) (castShadow o) (receiveShadow o) (shadow o) v (userData o) (layers o)
     (children o) (matrixAutoUpdate o) (skeletonUUID o) (skeleton o) (cameras o) (levels o)
     (resources o).
Definition set_userData (v : string) (o : t) : t :=
  mk (oid o) (kind o) (uuid o) (name o) (locked o) (folded o) (frustumCulled o)
     (renderOrder o) (animations o) (matrix o) (position o) (rotation o) (quaternion o)
     (scale o) (castShadow o) (receiveShadow o) (shadow o) (visible o) v (layers o)
     (children o) (matrixAutoUpdate o) (skeletonUUID o) (skeleton o) (cameras o) (levels o)
     (resources o).
Definition set_layers (v : number) (o : t) : t :=
  mk (oid o) (kind o) (uuid o) (name o) (locked o) (folded o) (frustumCulled o)
     (renderOrder o) (animations o) (matrix o) (position o) (rotation o) (quaternion o)
     (scale o) (castShadow o) (receiveShadow o) (shadow o) (visible o) (userData o) v
     (children o) (matrixAutoUpdate o) (skeletonUUID o) (skeleton o) (cameras o) (levels o)
     (resources o).
Definition set_children (v : list t) (o : t) : t :=
  mk (oid o) (kind o) (uuid o) (name o) (locked o) (folded o) (frustumCulled o)
     (renderOrder o) (animations o) (matrix o) (position o) (rotation o) (quaternion o)
     (scale o) (castShadow o) (receiveShadow o) (shadow o) (visible o) (userData o)
     (layers o) v (matrixAutoUpdate o) (skeletonUUID o) (skeleton o) (cameras o) (levels o)
     (resources o).
Definition set_matrixAutoUpdate (v : bool) (o : t) : t :=
  mk (oid o) (kind o) (uuid o) (name o) (locked o) (folded o) (frustumCulled o)
     (renderOrder o) (animations o) (matrix o) (position o) (rotation o) (quaternion o)
     (scale o) (castShadow o) (receiveShadow o) (shadow o) (visible o) (userData o)
     (layers o) (children o) v (skeletonUUID o) (skeleton o) (cameras o) (levels o)
     (resources o).
Definition set_skeletonUUID (v : option string) (o : t) : t :=
  mk (oid o) (kind o) (uuid o) (name o) (locked o) (folded o) (frustumCulled o)
     (renderOrder o) (animations o) (matrix o) (position o) (rotation o) (quaternion o)
     (scale o) (castShadow o) (receiveShadow o) (shadow o) (visible o) (userData o)
     (layers o) (children o) (matrixAutoUpdate o) v (skeleton o) (cameras o) (levels o)
     (resources o).
Definition set_skeleton (v : option Skeleton) (o : t) : t :=
  mk (oid o) (kind o) (uuid o) (name o) (locked o) (folded o) (frustumCulled o)
     (renderOrder o) (animations o) (matrix o) (position o) (rotation o) (quaternion o)
     (scale o) (castShadow o) (receiveShadow o) (shadow o) (visible o) (userData o)
     (layers o) (children o) (matrixAutoUpdate o) (skeletonUUID o) v (cameras o) (levels o)
     (resources o).
Definition set_cameras (v : option (list CameraEntry)) (o : t) : t :=
  mk (oid o) (kind o) (uuid o) (name o) (locked o) (folded o) (frustumCulled o)
     (renderOrder o) (animations o) (matrix o) (position o) (rotation o) (quaternion o)
     (scale o) (castShadow o) (receiveShadow o) (shadow o) (visible o) (userData o)
     (layers o) (children o) (matrixAutoUpdate o) (skeletonUUID o) (skeleton o) v (levels o)
     (resources o).
Definition set_levels (v : list LODLevel) (o : t) : t :=
  mk (oid o) (kind o) (uuid o) (name o) (locked o) (folded o) (frustumCulled o)
     (renderOrder o) (animations o) (matrix o) (position o) (rotation o) (quaternion o)
     (scale o) (castShadow o) (receiveShadow o) (shadow o) (visible o) (userData o)
     (layers o) (children o) (matrixAutoUpdate o) (skeletonUUID o) (skeleton o) (cameras o)
     v (resources o).
Definition set_resources (v : option ResourceContainer.t) (o : t) : t :=
  mk (oid o) (kind o) (uuid o) (name o) (locked o) (folded o) (frustumCulled o)
     (renderOrder o) (animations o) (matrix o) (position o) (rotation o) (quaternion o)
     (scale o) (castShadow o) (receiveShadow o) (shadow o) (visible o) (userData o)
     (layers o) (children o) (matrixAutoUpdate o) (skeletonUUID o) (skeleton o) (cameras o)
     (levels o) v.
End Object3D.
Import Object3D.
Abbreviation Object3D := Object3D.t.

(** ** The world: allocation, console, callbacks, the loader's containers *)

Definition Callback := string.

Inductive Event : Type :=
| console_error (message : string)
| console_warn (message : string)
| called (f : Callback) (argument : Object3D).

Record World : Type := mkWorld {
  next_oid : nat;
  trace : list Event;
  this : ResourceContainer.t
}.

Inductive Exn : Type :=
| TypeError (message : string)
| Error (message : string).

(** How a JavaScript evaluation completes. *)
Inductive Completion (A : Type) : Type :=
| Normal (value : A)
| Thrown (e : Exn).
Arguments Normal {A} value.
Arguments Thrown {A} e.

Definition M (A : Type) : Type := World → Completion A * World.

Definition ret {A} (a : A) : M A := λ w, (Normal a, w).

Definition bind {A B} (m : M A) (k : A → M B) : M B :=
  λ w, match m w with
       | (Normal a, w') => k a w'
       | (Thrown e, w') => (Thrown e, w')
       end.

Notation "'let*' x ':=' m 'in' k" := (bind m (λ x, k))
  (at level 10, x name, m at level 100, k at level 200).
Notation "m ';;' k" := (bind m (λ _, k))
  (at level 100, k at level 200, right associativity).

Definition throw {A} (e : Exn) : M A := λ w, (Thrown e, w).

(** [try { m } catch (e) { handler e }]: what [m] did to the world before
    it threw stays done. *)
Definition try_catch {A} (m : M A) (handler : Exn → M A) : M A :=
  λ w, match m w with
       | (Normal a, w') => (Normal a, w')
       | (Thrown e, w') => handler e w'
       end.

Definition emit (e : Event) : M unit :=
  λ w, (Normal (), mkWorld (next_oid w) (trace w ++ [e]) (this w)).

Definition get_this : M ResourceContainer.t := λ w, (Normal (this w), w).

Definition update_this (f : ResourceContainer.t → ResourceContainer.t) : M unit :=
  λ w, (Normal (), mkWorld (next_oid w) (trace w) (f (this w))).

(** Monadic left fold: a [for] loop whose body threads an accumulator. *)
Fixpoint foldM {A B} (body : B → A → M B) (acc : B) (l : list A) : M B :=
  match l with
  | [] => ret acc
  | x :: l' => let* acc' := body acc x in foldM body acc' l'
  end.

Fixpoint mapM {A B} (f : A → M B) (l : list A) : M (list B) :=
  match l with
  | [] => ret []
  | x :: l' => let* y := f x in let* ys := mapM f l' in ret (y :: ys)
  end.

(** The exceptions of the language itself. *)
Definition undefined_read (property : string) : Exn :=
  TypeError ("Cannot read properties of undefined (reading '" +:+ property +:+ "')").

Definition not_a_function (callee : string) : Exn :=
  TypeError (callee +:+ " is not a function").

(** ** The rendering library, as far as the loader uses it *)

Module THREE.

(** Modelled from the spec: the classes of the scene objects are declared
    outside the loader.  Every object has the common properties; a
    [Container] is an empty generic group node and has nothing else; the
    shadow-map configuration is an optional property, owned by the lights
    that cast shadows; the [cameras] list belongs to [Scene].  The initial
    UUID, name and flags do not matter to the loader, which overwrites
    them on every object it builds.  Children that a constructor creates
    for its own use carry generated UUIDs, are no skinned meshes, and are
    left out. *)
Definition has_shadow (k : Kind.t) : bool :=
  match k with
  | Kind.DirectionalLight | Kind.PointLight | Kind.SpotLight => true
  | _ => false
  end.

Definition constructed (k : Kind.t) (n : nat) : Object3D :=
  Object3D.mk n k (generated n) "" false false true 0%Z [] identity
    initial initial initial initial false false
    (if has_shadow k then Some defaultShadow else None) true "{}" 1%Z []
    true None None
    (if decide (k = Kind.Scene) then Some [] else None) [] None.

(** [new K(...)] *)
Definition new (k : Kind.t) : M Object3D :=
  λ w, (Normal (constructed k (next_oid w)),
        mkWorld (S (next_oid w)) (trace w) (this w)).

(** [object.add(child)] *)
Definition add (child : Object3D) (object : Object3D) : Object3D :=
  set_children (children object ++ [child]) object.

(** [object.getObjectByProperty("uuid", value)]: the object itself or the
    first descendant, in depth-first order, whose UUID is [value]. *)
Fixpoint getObjectByProperty_uuid (value : string) (object : Object3D) : option Object3D :=
  if decide (uuid object = declared value) then Some object
  else
    (fix first (children : list Object3D) : option Object3D :=
       match children with
       | [] => None
       | child :: rest =>
           match getObjectByProperty_uuid value child with
           | Some found => Some found
           | None => first rest
           end
       end) (children object).

(** [object.traverse(callback)] for a callback that writes properties of
    the visited object other than [children]: the object first, then each
    child's subtree in order. *)
Fixpoint traverse (callback : Object3D → M Object3D) (object : Object3D) : M Object3D :=
  let* visited := callback object in
  let* children' := mapM (traverse callback) (children object) in
  ret (set_children children' visited).

(** The objects [traverse] visits, in visiting order. *)
Fixpoint nodes (object : Object3D) : list Object3D :=
  object :: flat_map nodes (children object).

(** [mesh.bind(skeleton, mesh.bindMatrix)] *)
Definition bind_skeleton (skeleton : Skeleton) (mesh : Object3D) : Object3D :=
  set_skeleton (Some skeleton) mesh.

(** [object.updateMatrix()] *)
Definition updateMatrix (object : Object3D) : Object3D :=
  set_matrix (compose (position object) (quaternion object) (scale object)) object.

(** [object.updateMatrixWorld(true)]: the object and every object below
    it recompute their matrix when their [matrixAutoUpdate] is set.  The
    world matrices, a cache of the library, are not kept. *)
Fixpoint updateMatrixWorld (object : Object3D) : Object3D :=
  set_children (map updateMatrixWorld (children object))
    (if matrixAutoUpdate object then updateMatrix object else object).

(** A write to [object.rotation]: the change callback sets the quaternion
    from the new rotation. *)
Definition write_rotation (value : Components) (object : Object3D) : Object3D :=
  set_quaternion (setFromEuler value) (set_rotation value object).

(** A write to [object.quaternion]: the change callback sets the rotation
    from the new quaternion. *)
Definition write_quaternion (value : Components) (object : Object3D) : Object3D :=
  set_rotation (setFromQuaternion value) (set_quaternion value object).

(** [THREE.KeyframeTrack.parse(json)] *)
Definition KeyframeTrack_parse (json : RawTrack) : M string :=
  match json with
  | wellFormedTrack json => ret json
  | malformedTrack message => throw (Error message)
  end.

(** [THREE.AnimationClip.parse(json)]: the loop over the tracks reads
    [json.tracks.length], and each track is parsed. *)
Definition AnimationClip_parse (json : Animation.t) : M AnimationClip :=
  match Animation.tracks json with
  | None => throw (undefined_read "length")
  | Some tracks => mapM KeyframeTrack_parse tracks;; ret (mkAnimationClip json None)
  end.

End THREE.

(** Modelled from the spec: [Scene.getCamera] is declared outside the
    loader.  Scene nodes resolve a camera UUID "by tree lookup"; a UUID
    that fails to resolve gives [null].  An entry that already is an
    object is not the UUID of anything. *)
Definition getCamera (entry : CameraEntry) (scene : Object3D) : option Object3D :=
  match entry with
  | cameraUUID uuid => THREE.getObjectByProperty_uuid uuid scene
  | cameraObject _ => None
  end.

(** ** The loader *)

Module ObjectLoader.

(** [container[record.uuid] = instance] for every visited record. *)
Definition store (loaded : RawRecord → Instance) (records : list RawRecord)
    (container : gmap string Instance) : gmap string Instance :=
  foldl (λ container json, <[raw_uuid json := loaded json]> container) container records.

(** The body shared by the resource parsers: run the sub-loader on each
    visited record and file the instance under the record's UUID.  The
    sub-loaders are declared outside the loader; a record is kept as the
    instance that its sub-loader builds from it. *)
Definition populate (container : ResourceContainer.t → gmap string Instance)
    (set_container : gmap string Instance → ResourceContainer.t → ResourceContainer.t)
    (loaded : RawRecord → Instance) (records : list RawRecord) : M unit :=
  update_this (λ c, set_container (store loaded records (container c)) c).

Definition parseResources (json : option (Collection RawRecord)) : M unit :=
  match json with
  | Some json =>
      populate ResourceContainer.resources ResourceContainer.set_resources TextFile (for_in json)
  | None => ret ()
  end.

Definition parseShape (json : option (Collection RawRecord)) : M unit :=
  match json with
  | Some json =>
      populate ResourceContainer.shapes ResourceContainer.set_shapes Shape (indexed json)
  | None => ret ()
  end.

Definition parseGeometries (array : option (Collection RawRecord)) : M unit :=
  match array with
  | Some array =>
      populate ResourceContainer.geometries ResourceContainer.set_geometries Geometry (indexed array)
  | None => ret ()
  end.

Definition parseMaterials (json : option (Collection RawRecord)) : M unit :=
  match json with
  | Some json =>
      populate ResourceContainer.materials ResourceContainer.set_materials Material (for_in json)
  | None => ret ()
  end.

Definition parseImages (json : option (Collection RawRecord)) : M unit :=
  match json with
  | Some json =>
      populate ResourceContainer.images ResourceContainer.set_images Image (for_in json)
  | None => ret ()
  end.

Definition parseVideos (json : option (Collection RawRecord)) : M unit :=
  match json with
  | Some json =>
      populate ResourceContainer.videos ResourceContainer.set_videos Video (for_in json)
  | None => ret ()
  end.

Definition parseAudio (json : option (Collection RawRecord)) : M unit :=
  match json with
  | Some json =>
      populate ResourceContainer.audio ResourceContainer.set_audio Audio (for_in json)
  | None => ret ()
  end.

Definition parseFonts (json : option (Collection RawRecord)) : M unit :=
  match json with
  | Some json =>
      populate ResourceContainer.fonts ResourceContainer.set_fonts Font (for_in json)
  | None => ret ()
  end.

Definition parseTextures (json : option (Collection RawRecord)) : M unit :=
  match json with
  | Some json =>
      populate ResourceContainer.textures ResourceContainer.set_textures Texture (for_in json)
  | None => ret ()
  end.

(** Modelled from the spec: [getGeometry] belongs to [ResourceContainer],
    declared outside the loader: [getX(uuid) -> resource|undefined]. *)
Definition getGeometry (uuid : option string) : M (option Instance) :=
  let* container := get_this in
  ret (uuid' ← uuid; ResourceContainer.geometries container !! uuid').

(** [array.push(...items)] *)
Definition push {A} (array : list A) (items : list A) : list A := array ++ items.

(** [parseAnimations]: each clip is parsed and may get the record's UUID,
    then [animations.push()] is called without an argument. *)
Definition parseAnimations (array : list Animation.t) : M (list AnimationClip) :=
  foldM (λ animations json,
           let* clip := THREE.AnimationClip_parse json in
           let clip :=
             match Animation.uuid json with
             | Some uuid => mkAnimationClip (clip_parsed_from clip) (Some uuid)
             | None => clip
             end in
           ret (push animations []))
        [] array.

Definition bone_not_found (uuid : string) : string :=
  "THREE.ObjectLoader: Not found Bone whose uuid is " +:+ uuid.

Definition skeleton_not_found (uuid : string) : string :=
  "THREE.ObjectLoader: Not found Skeleton whose uuid is " +:+ uuid.

(** The inner loop of [parseSkeletons], from index [j] on. *)
Fixpoint parseBones (object : Object3D) (boneInverseParams : option (list (list number)))
    (boneParams : list string) (j : nat) (bones : list nat)
    (boneInverses : list (list number)) : M (list nat * list (list number)) :=
  match boneParams with
  | [] => ret (bones, boneInverses)
  | boneParam :: rest =>
      let* bone :=
        match THREE.getObjectByProperty_uuid boneParam object with
        | Some bone => ret bone
        | None => emit (console_warn (bone_not_found boneParam));; THREE.new Kind.Bone
        end in
      let bones := push bones [oid bone] in
      let* inverse :=
        match boneInverseParams with
        | None => throw (TypeError "Cannot read properties of undefined")
        | Some boneInverseParams =>
            match boneInverseParams !! j with
            | Some array => ret array
            | None => throw (TypeError "Cannot read properties of undefined")
            end
        end in
      parseBones object boneInverseParams rest (S j) bones (push boneInverses [inverse])
  end.

Definition parseSkeletons (json : option (list SkeletonParams.t)) (object : Object3D)
    : M (gmap string Skeleton) :=
  match json with
  | None => ret ∅
  | Some json =>
      foldM (λ (skeletons : gmap string Skeleton) skeletonParams,
               let uuid := SkeletonParams.uuid skeletonParams in
               let boneParams := SkeletonParams.bones skeletonParams in
               let boneInverseParams := SkeletonParams.boneInverses skeletonParams in
               let* built := parseBones object boneInverseParams boneParams 0 [] [] in
               ret (<[uuid := mkSkeleton built.1 built.2]> skeletons))
            ∅ json
  end.

(** [obj.isSkinnedMesh === true] *)
Definition isSkinnedMesh (obj : Object3D) : bool :=
  bool_decide (kind obj = Kind.SkinnedMesh).

(** The callback [bindSkeletons] passes to [traverse]. *)
Definition bindSkeleton (skeletons : gmap string Skeleton) (obj : Object3D) : M Object3D :=
  if isSkinnedMesh obj then
    match skeletonUUID obj with
    | Some wanted =>
        let* obj :=
          match skeletons !! wanted with
          | None => emit (console_warn (skeleton_not_found wanted));; ret obj
          | Some skeleton => ret (THREE.bind_skeleton skeleton obj)
          end in
        ret (set_skeletonUUID None obj)
    | None => ret obj
    end
  else ret obj.

Definition bindSkeletons (object : Object3D) (skeletons : gmap string Skeleton) : M Object3D :=
  if bool_decide (size skeletons = 0) then ret object
  else THREE.traverse (bindSkeleton skeletons) object.

(** *** The type-tag switch of [parseObject] *)

(** One arm of the switch.  The second argument is the pending call
    [this.parse(data.defaultCamera)], present when the record has a
    [defaultCamera]. *)
Definition Arm : Type := Data.t → option (M Object3D) → M Object3D.

(** An arm whose source text only calls a constructor or a static factory
    and copies values of the record.  The constructors and factories are
    declared outside the loader. *)
Definition constructs (k : Kind.t) : Arm := λ _ _, THREE.new k.

Definition case_SpineAnimation : Arm := λ data _,
  match Data.textures data with
  | None => throw (undefined_read "length")
  | Some _ => THREE.new Kind.SpineAnimation
  end.

Definition case_LensFlare : Arm := λ data _,
  let* object := THREE.new Kind.LensFlare in
  let elements :=
    match Data.lensFlares data with
    | Some lensFlares => Some lensFlares
    | None => Data.elements data
    end in
  match elements with
  | None => throw (undefined_read "length")
  | Some _ => ret object
  end.

(** [object.sun.shadow.fromJSON(data.sun.shadow)] reads the block it is
    given. *)
Definition case_Sky : Arm := λ data _,
  let* object := THREE.new Kind.Sky in
  match Data.sun data with
  | Some sun =>
      match Sun.shadow sun with
      | Some _ => ret object
      | None => throw (TypeError "Cannot read properties of undefined")
      end
  | None => ret object
  end.

(** [object.vector.fromArray(data.vector)] is called whenever the record
    has a [center]. *)
Definition case_OrbitControls : Arm := λ data _,
  let* object := THREE.new Kind.OrbitControls in
  match Data.center data, Data.vector data with
  | Some _, None => throw (undefined_read "0")
  | _, _ => ret object
  end.

Definition case_Scene : Arm := λ data parseDefaultCamera,
  let* object := THREE.new Kind.Scene in
  match parseDefaultCamera with
  | Some parse => let* defaultCamera := parse in ret ()
  | None => ret ()
  end;;
  let object :=
    match Data.cameras data with
    | Some cameras => set_cameras (Some (cameraUUID <$> cameras)) object
    | None => object
    end in
  match Data.world data with
  | Some world =>
      match PhysicsWorld.gravity world, PhysicsWorld.solver world with
      | None, _ => throw (undefined_read "x")
      | Some _, None => throw (undefined_read "tolerance")
      | Some _, Some _ => ret object
      end
  | None => ret object
  end.

(** The [viewport] of a camera record: beside an array,
    [object.viewport.offset.fromArray(data.offset)] is called. *)
Definition readViewport (data : Data.t) (object : Object3D) : M Object3D :=
  match Data.viewport data, Data.offset data with
  | Some (viewportArray _), None => throw (undefined_read "0")
  | _, _ => ret object
  end.

Definition case_PerspectiveCamera : Arm := λ data _,
  let* object := THREE.new Kind.PerspectiveCamera in
  readViewport data object.

Definition case_OrthographicCamera : Arm := λ data _,
  let* object := THREE.new Kind.OrthographicCamera in
  readViewport data object.

Definition case_SkinnedMesh : Arm := λ data _,
  let* geometry := getGeometry (Data.geometry data) in
  match Data.skeleton data, geometry with
  | Some _, None => throw (undefined_read "bones")
  | _, _ => ret ()
  end;;
  let* object := THREE.new Kind.SkinnedMesh in
  let object :=
    match Data.skeleton data with
    | Some skeleton => set_skeletonUUID (Some skeleton) object
    | None => object
    end in
  ret (THREE.updateMatrixWorld object).

Definition case_InstancedMesh : Arm := λ data _,
  let* object := THREE.new Kind.InstancedMesh in
  match Data.instanceMatrix data with
  | None => throw (undefined_read "array")
  | Some _ => ret object
  end.

Definition case_LightProbe : Arm := λ data _,
  let* object := THREE.new Kind.LightProbe in
  match Data.sh data with
  | Some _ => ret object
  | None => throw (undefined_read "0")
  end.

Definition case_Mesh : Arm := λ data _,
  let* geometry := getGeometry (Data.geometry data) in
  match geometry with
  | None => throw (undefined_read "bones")
  | Some geometry =>
      match geometry_bones geometry with
      | Some (_ :: _) => THREE.new Kind.SkinnedMesh
      | _ => THREE.new Kind.Mesh
      end
  end.

(** The case labels in source order, each with its arm. *)
Definition switch : list (string * Arm) :=
  [ ("SpineAnimation", case_SpineAnimation);
    ("Audio", constructs Kind.AudioEmitter);
    ("PositionalAudio", constructs Kind.PositionalAudio);
    ("Physics", constructs Kind.PhysicsObject);
    ("ParticleEmiter", constructs Kind.ParticleEmitter);
    ("LensFlare", case_LensFlare);
    ("TextMesh", constructs Kind.TextMesh);
    ("Text3D", constructs Kind.TextMesh);
    ("Program", constructs Kind.Program);
    ("LeapDevice", constructs Kind.LeapMotion);
    ("Kinect", constructs Kind.KinectDevice);
    ("Sky", case_Sky);
    ("CubeCamera", constructs Kind.CubeCamera);
    ("FirstPersonControls", constructs Kind.FirstPersonControls);
    ("OrbitControls", case_OrbitControls);
    ("Scene", case_Scene);
    ("PerspectiveCamera", case_PerspectiveCamera);
    ("OrthographicCamera", case_OrthographicCamera);
    ("Script", constructs Kind.Script);
    ("RectAreaLight", constructs Kind.RectAreaLight);
    ("AmbientLight", constructs Kind.AmbientLight);
    ("DirectionalLight", constructs Kind.DirectionalLight);
    ("PointLight", constructs Kind.PointLight);
    ("SpotLight", constructs Kind.SpotLight);
    ("HemisphereLight", constructs Kind.HemisphereLight);
    ("SkinnedMesh", case_SkinnedMesh);
    ("InstancedMesh", case_InstancedMesh);
    ("HTMLView", constructs Kind.HTMLView);
    ("LightProbe", case_LightProbe);
    ("Mesh", case_Mesh);
    ("TextBitmap", constructs Kind.TextBitmap);
    ("TextSprite", constructs Kind.TextSprite);
    ("LOD", constructs Kind.LOD);
    ("Line", constructs Kind.Line);
    ("LineLoop", constructs Kind.LineLoop);
    ("LineSegments", constructs Kind.LineSegments);
    ("PointCloud", constructs Kind.Points);
    ("Points", constructs Kind.Points);
    ("Sprite", constructs Kind.Sprite);
    ("Group", constructs Kind.Container);
    ("Bone", constructs Kind.Bone) ].

(** The known dispatch set. *)
Definition case_labels : list string := switch.*1.

Fixpoint select (type : string) (cases : list (string * Arm)) : option Arm :=
  match cases with
  | [] => None
  | (label, arm) :: rest => if decide (type = label) then Some arm else select type rest
  end.

(** [switch (data.type) { ... default: object = new Container(); }] *)
Definition construct (data : Data.t) (parseDefaultCamera : option (M Object3D)) : M Object3D :=
  match select (Data.type data) switch with
  | Some arm => arm data parseDefaultCamera
  | None => THREE.new Kind.Container
  end.

Definition object_skiped (uuid : string) : string :=
  "nunuStudio: Error parsing and creating object " +:+ uuid +:+ ", object skiped.".

(** [try { switch ... } catch (e) { console.error(...); object = new Container(); }] *)
Definition create (data : Data.t) (parseDefaultCamera : option (M Object3D)) : M Object3D :=
  try_catch (construct data parseDefaultCamera)
    (λ e, emit (console_error (object_skiped (Data.uuid data)));; THREE.new Kind.Container).

(** *** The attributes every record may carry (source lines 965 to 1021) *)

(** [data.flag === true] *)
Definition is_true (flag : option bool) : bool :=
  match flag with
  | Some true => true
  | _ => false
  end.

(** [if (data.key !== undefined) { write }] *)
Definition when_defined {A} (value : option A) (write : A → Object3D → Object3D)
    (object : Object3D) : Object3D :=
  match value with
  | Some v => write v object
  | None => object
  end.

(** Lines 965 to 979. *)
Definition applyIdentity (data : Data.t) (object : Object3D) : Object3D :=
  let object := set_uuid (declared (Data.uuid data)) object in
  let object := set_name (Data.name data) object in
  let object := set_locked (is_true (Data.locked data) || is_true (Data.hidden data)) object in
  let object := set_folded (is_true (Data.folded data)) object in
  let object := when_defined (Data.frustumCulled data) set_frustumCulled object in
  when_defined (Data.renderOrder data) set_renderOrder object.

(** The first loop over [data.animations] (lines 982 to 990).  It is not
    inside the [try]. *)
Definition applyAnimations (data : Data.t) (object : Object3D) : M Object3D :=
  match Data.animations data with
  | Some animations =>
      foldM (λ object json,
               let* clip := THREE.AnimationClip_parse json in
               ret (set_animations (push (Object3D.animations object) [clip]) object))
            (set_animations [] object) animations
  | None => ret object
  end.

(** Lines 993 to 1003: the matrix first, then each explicit array. *)
Definition applyTransform (data : Data.t) (object : Object3D) : Object3D :=
  let object :=
    when_defined (Data.matrix data)
      (λ matrix object,
         let object := set_matrix (matrixFromArray matrix) object in
         let object := set_position (decomposed matrix) object in
         let object := THREE.write_quaternion (decomposed matrix) object in
         set_scale (decomposed matrix) object)
      object in
  let object := when_defined (Data.position data) (λ a, set_position (fromArray a)) object in
  let object :=
    when_defined (Data.rotation data) (λ a, THREE.write_rotation (fromArray a)) object in
  let object :=
    when_defined (Data.quaternion data) (λ a, THREE.write_quaternion (fromArray a)) object in
  when_defined (Data.scale data) (λ a, set_scale (fromArray a)) object.

(** Lines 1007 to 1014.  [object.shadow.fromJSON(data.shadow)]
    dereferences a property that only some classes own. *)
Definition applyShadow (data : Data.t) (object : Object3D) : M Object3D :=
  let object := set_castShadow (is_true (Data.castShadow data)) object in
  let object := set_receiveShadow (is_true (Data.receiveShadow data)) object in
  match Data.shadow data with
  | Some json =>
      match shadow object with
      | Some _ => ret (set_shadow (Some (shadowFromJSON json)) object)
      | None => throw (undefined_read "fromJSON")
      end
  | None => ret object
  end.

(** Lines 1017 to 1021. *)
Definition applyVisibility (data : Data.t) (object : Object3D) : Object3D :=
  let object := set_visible (is_true (Data.visible data)) object in
  let object := when_defined (Data.userData data) set_userData object in
  when_defined (Data.layers data) set_layers object.

(** Lines 965 to 1021, none of them inside the [try]. *)
Definition applyAttributes (data : Data.t) (object : Object3D) : M Object3D :=
  let object := applyIdentity data object in
  let* object := applyAnimations data object in
  let object := applyTransform data object in
  let* object := applyShadow data object in
  ret (applyVisibility data object).

(** *** After the children are attached (source lines 1032 to 1091) *)

(** Lines 1033 to 1042. *)
Definition applyMatrixAutoUpdate (data : Data.t) (object : Object3D) : Object3D :=
  when_defined (Data.matrixAutoUpdate data)
    (λ value object,
       let object := set_matrixAutoUpdate value object in
       if negb (matrixAutoUpdate object) then
         THREE.updateMatrixWorld (THREE.updateMatrix object)
       else object)
    object.

(** Lines 1044 to 1048.  [if (data.skeletons) { ... }]: an array, even an
    empty one, is truthy. *)
Definition applySkeletons (data : Data.t) (object : Object3D) : M Object3D :=
  match Data.skeletons data with
  | Some _ =>
      let* skeletons := parseSkeletons (Data.skeletons data) object in
      bindSkeletons object skeletons
  | None => ret object
  end.

(** Lines 1050 to 1053:
    [if (data.animations) { object.animations = this.parseAnimations(data.animations); }] *)
Definition reparseAnimations (data : Data.t) (object : Object3D) : M Object3D :=
  match Data.animations data with
  | Some animations =>
      let* parsed := parseAnimations animations in
      ret (set_animations parsed object)
  | None => ret object
  end.

(** Modelled from the spec: [Program.copyResources] is declared outside
    the loader; a Program absorbs the resource containers of the loader.
    No other class has the method. *)
Definition copyResources (object : Object3D) : M Object3D :=
  if decide (kind object = Kind.Program) then
    let* container := get_this in
    ret (set_resources (Some container) object)
  else throw (not_a_function "object.copyResources").

(** The loop over [object.cameras], entered at index [i].  Each round
    increments [i] and never lengthens the array, so [length cameras - i]
    rounds are all that can run; [fuel] bounds them. *)
Fixpoint resolveCameras (fuel : nat) (object : Object3D) (i : nat)
    (cameras : list CameraEntry) : list CameraEntry :=
  match fuel with
  | O => cameras
  | S fuel =>
      match cameras !! i with
      | None => cameras
      | Some entry =>
          match getCamera entry object with
          | Some camera =>
              resolveCameras fuel object (S i) (<[i := cameraObject (oid camera)]> cameras)
          | None => resolveCameras fuel object (S i) (delete i cameras)
          end
      end
  end.

(** Lines 1065 to 1076. *)
Definition sceneCameras (object : Object3D) : M Object3D :=
  match cameras object with
  | None => throw (undefined_read "length")
  | Some cameras =>
      ret (set_cameras (Some (resolveCameras (length cameras) object 0 cameras)) object)
  end.

(** Modelled from the spec: [LOD.addLevel] is declared outside the loader
    and registers a child with its distance threshold.  No other class
    has the method. *)
Definition addLevel (child : Object3D) (distance : number) (object : Object3D) : M Object3D :=
  if decide (kind object = Kind.LOD) then
    ret (set_levels (levels object ++ [mkLODLevel (oid child) distance]) object)
  else throw (not_a_function "object.addLevel").

(** Lines 1081 to 1090. *)
Definition lodLevels (data : Data.t) (object : Object3D) : M Object3D :=
  match Data.levels data with
  | None => throw (undefined_read "length")
  | Some levels =>
      foldM (λ object level,
               match THREE.getObjectByProperty_uuid (Level.object level) object with
               | Some child => addLevel child (Level.distance level) object
               | None => ret object
               end)
            object levels
  end.

(** Lines 1057 to 1091: the branches test the type tag of the record, not
    the class of the object. *)
Definition postProcess (data : Data.t) (object : Object3D) : M Object3D :=
  if decide (Data.type data = "Program") then copyResources object
  else if decide (Data.type data = "Scene") then sceneCameras object
  else if decide (Data.type data = "LOD") then lodLevels data object
  else ret object.

(** Everything [parseObject] does once the children are attached. *)
Definition finish (data : Data.t) (object : Object3D) : M Object3D :=
  let object := applyMatrixAutoUpdate data object in
  let* object := applySkeletons data object in
  let* object := reparseAnimations data object in
  postProcess data object.

(** *** [parse] and [parseObject] *)

(** [parseObject(undefined)]: reading [data.type] throws inside the [try],
    and the handler throws again when it reads [data.uuid]. *)
Definition parseObject_undefined : M Object3D :=
  try_catch (throw (undefined_read "type")) (λ e, throw (undefined_read "uuid")).

(** [json.images === undefined || json.images.length === 0] *)
Definition no_images (images : option (Collection RawRecord)) : bool :=
  match images with
  | None => true
  | Some images => bool_decide (js_length images = Some 0)
  end.

(** The body of [parse], given the call [this.parseObject(json.object)]. *)
Definition parse_with (parseObject_root : M Object3D) (json : Json.t Data.t)
    (onLoad : option Callback) : M Object3D :=
  parseResources (Json.resources json);;
  parseShape (Json.shapes json);;
  parseGeometries (Json.geometries json);;
  parseImages (Json.images json);;
  parseVideos (Json.videos json);;
  parseAudio (Json.audio json);;
  parseFonts (Json.fonts json);;
  parseTextures (Json.textures json);;
  parseMaterials (Json.materials json);;
  let* object := parseObject_root in
  (if no_images (Json.images json) then
     match onLoad with
     | Some onLoad => emit (called onLoad object)
     | None => ret ()
     end
   else ret ());;
  ret object.

Fixpoint parseObject (data : Data.t) : M Object3D :=
  let parseDefaultCamera :=
    match Data.defaultCamera data with
    | Some json =>
        Some (parse_with
                match Json.object json with
                | Some root => parseObject root
                | None => parseObject_undefined
                end json None)
    | None => None
    end in
  let* object := create data parseDefaultCamera in
  let* object := applyAttributes data object in
  let* object :=
    match Data.children data with
    | Some children =>
        foldM (λ object child, let* built := parseObject child in ret (THREE.add built object))
              object children
    | None => ret object
    end in
  finish data object.

Definition parse (json : Json.t Data.t) (onLoad : option Callback) : M Object3D :=
  parse_with
    match Json.object json with
    | Some root => parseObject root
    | None => parseObject_undefined
    end json onLoad.

End ObjectLoader.

(** ** Loading from a URL *)

(** [s.lastIndexOf(searchString)]: the last index at which [searchString]
    starts in [s], or -1. *)
Fixpoint lastIndexOf (searchString s : string) : Z :=
  match s with
  | EmptyString => if decide (searchString = "") then 0%Z else (-1)%Z
  | String c rest =>
      let i := lastIndexOf searchString rest in
      if (0 <=? i)%Z then (i + 1)%Z
      else if String.prefix searchString s then 0%Z
      else (-1)%Z
  end.

(** [s.substring(indexStart, indexEnd)]: an index below 0 counts as 0, one
    above the length as the length, and the two are swapped when the first
    is the larger. *)
Definition substring (indexStart indexEnd : Z) (s : string) : string :=
  let len := Z.of_nat (String.length s) in
  let clamp i := Z.max 0 (Z.min i len) in
  let first := Z.min (clamp indexStart) (clamp indexEnd) in
  let last := Z.max (clamp indexStart) (clamp indexEnd) in
  String.substring (Z.to_nat first) (Z.to_nat (last - first)) s.

Inductive LoadingManager : Type :=
| DefaultLoadingManager
| givenManager (name : string).

(** The properties of the loader besides its resource containers. *)
Record Settings : Type := mkSettings {
  manager : LoadingManager;
  texturePath : string;
  crossOrigin : option string
}.

(** [new ObjectLoader(manager)].  The containers start out empty, as in
    [fresh]. *)
Definition create_loader (manager : option LoadingManager) : Settings :=
  mkSettings (default DefaultLoadingManager manager) "" None.

Definition setTexturePath (path : string) (self : Settings) : Settings :=
  mkSettings (manager self) path (crossOrigin self).

Definition setCrossOrigin (origin : string) (self : Settings) : Settings :=
  mkSettings (manager self) (texturePath self) (Some origin).

(** What [load] hands to [THREE.FileLoader]: the manager the file loader
    is built with, the URL, and the three callbacks. *)
Record Request : Type := mkRequest {
  request_manager : LoadingManager;
  request_url : string;
  request_onLoad : string → M Object3D;
  request_onProgress : option Callback;
  request_onError : option Callback
}.

Section Load.

(** [JSON.parse], which belongs to the language. *)
Variable JSON_parse : string → M (Json.t Data.t).

Definition load (url : string) (onLoad onProgress onError : option Callback)
    (self : Settings) : Settings * Request :=
  let self :=
    if decide (texturePath self = "") then
      setTexturePath (substring 0 (lastIndexOf "/" url + 1) url) self
    else self in
  (self,
   mkRequest (manager self) url
     (λ text, let* json := JSON_parse text in ObjectLoader.parse json onLoad)
     onProgress onError).

End Load.

(** * Descriptions

    What the statements below are written with: worlds, the effect of each
    pass as a function, and sample inputs.  Nothing here is part of the
    loader. *)

Import ObjectLoader.

(** ** Worlds *)

Definition log (events : list Event) (w : World) : World :=
  mkWorld (next_oid w) (trace w ++ events) (this w).

Definition allocate (n : nat) (w : World) : World :=
  mkWorld (next_oid w + n) (trace w) (this w).

(** The world a computation leaves behind. *)
Definition after {A} (m : M A) (w : World) : World := (m w).2.

(** The world in which [parse] calls [parseObject]: the nine resource
    parsers have run, in the order of the source. *)
Definition resources_parsed (json : Json.t Data.t) (w : World) : World :=
  after (parseMaterials (Json.materials json))
    (after (parseTextures (Json.textures json))
       (after (parseFonts (Json.fonts json))
          (after (parseAudio (Json.audio json))
             (after (parseVideos (Json.videos json))
                (after (parseImages (Json.images json))
                   (after (parseGeometries (Json.geometries json))
                      (after (parseShape (Json.shapes json))
                         (after (parseResources (Json.resources json)) w)))))))).

(** A resource parser: it completes normally and leaves the trace alone. *)
Definition resource_parser (m : M unit) : Prop :=
  ∀ w, m w = (Normal (), after m w) ∧ trace (after m w) = trace w.

(** A loader that has not parsed anything yet. *)
Definition fresh : World := mkWorld 0 [] ResourceContainer.empty.

(** A loader whose geometry container holds the geometry ["g"]. *)
Definition stocked : World :=
  mkWorld 0 []
    (ResourceContainer.set_geometries {[ "g" := Geometry (mkRawRecord "g" None "") ]}
       ResourceContainer.empty).

(** ** One step of [parseObject] *)

(** The two places where [parseObject] calls itself, named. *)
Definition parseDefaultCamera (data : Data.t) : option (M Object3D) :=
  match Data.defaultCamera data with
  | Some json => Some (parse json None)
  | None => None
  end.

Definition attachChildren (data : Data.t) (object : Object3D) : M Object3D :=
  match Data.children data with
  | Some children =>
      foldM (λ object child, let* built := parseObject child in ret (THREE.add built object))
            object children
  | None => ret object
  end.

(** The root record of the sub-document under [defaultCamera], if any. *)
Definition camera_roots (data : Data.t) : list Data.t :=
  match Data.defaultCamera data with
  | Some json =>
      match Json.object json with
      | Some root => [root]
      | None => []
      end
  | None => []
  end.

(** ** Trees of objects *)

(** A callback applied to every object of a tree. *)
Fixpoint visit_all (g : Object3D → Object3D) (object : Object3D) : Object3D :=
  set_children (map (visit_all g) (children object)) (g object).

Fixpoint first_of (value : string) (children : list Object3D) : option Object3D :=
  match children with
  | [] => None
  | child :: rest =>
      match THREE.getObjectByProperty_uuid value child with
      | Some found => Some found
      | None => first_of value rest
      end
  end.

(** ** The attribute pass *)

(** The position or the scale of an object after the attribute pass:
    the explicit array of the record if there is one, else what the
    matrix of the record decomposes to, else what the object had. *)
Definition last_written (explicit matrix : option (list number)) (kept : Components)
    : Components :=
  match explicit with
  | Some array => fromArray array
  | None =>
      match matrix with
      | Some m => decomposed m
      | None => kept
      end
  end.

(** The quaternion of an object after the attribute pass.  The explicit
    quaternion array is written last and wins; failing that, the write of
    the explicit rotation array has set the quaternion from the rotation;
    failing that, the quaternion is what the matrix decomposes to. *)
Definition quaternion_written (data : Data.t) (kept : Components) : Components :=
  match Data.quaternion data, Data.rotation data, Data.matrix data with
  | Some array, _, _ => fromArray array
  | None, Some array, _ => setFromEuler (fromArray array)
  | None, None, Some m => decomposed m
  | None, None, None => kept
  end.

(** The rotation of an object after the attribute pass.  The write of the
    explicit quaternion array sets the rotation from the quaternion;
    failing that, the rotation is the explicit rotation array; failing
    that, it is set from the quaternion that the matrix decomposes to. *)
Definition rotation_written (data : Data.t) (kept : Components) : Components :=
  match Data.quaternion data, Data.rotation data, Data.matrix data with
  | Some array, _, _ => setFromQuaternion (fromArray array)
  | None, Some array, _ => fromArray array
  | None, None, Some m => setFromQuaternion (decomposed m)
  | None, None, None => kept
  end.

(** An animation record that the library parses: it has a [tracks] array
    and every track of it is well formed. *)
Definition parses (json : Animation.t) : Prop :=
  ∃ tracks, Animation.tracks json = Some tracks
            ∧ Forall (λ track, ∃ json, track = wellFormedTrack json) tracks.

(** What the first loop over the animations leaves when it completes: one
    clip per animation record. *)
Definition animated (data : Data.t) (object : Object3D) : Object3D :=
  when_defined (Data.animations data)
    (λ animations, set_animations ((λ json, mkAnimationClip json None) <$> animations))
    object.

(** What the assignment of the result of [parseAnimations] leaves when
    that call completes. *)
Definition discarded (data : Data.t) (object : Object3D) : Object3D :=
  when_defined (Data.animations data) (λ _, set_animations []) object.

(** The callback by which [updateMatrixWorld] visits an object. *)
Definition refreshed (object : Object3D) : Object3D :=
  if matrixAutoUpdate object then THREE.updateMatrix object else object.

(** The attribute pass, when it completes. *)
Record attributes_applied (data : Data.t) (o o' : Object3D) : Prop := {
  applied_oid : oid o' = oid o;
  applied_kind : kind o' = kind o;
  applied_levels : levels o' = levels o;
  applied_uuid : uuid o' = declared (Data.uuid data);
  applied_name : name o' = Data.name data;
  applied_position :
    position o' = last_written (Data.position data) (Data.matrix data) (position o);
  applied_quaternion : quaternion o' = quaternion_written data (quaternion o);
  applied_scale : scale o' = last_written (Data.scale data) (Data.matrix data) (scale o);
  applied_rotation : rotation o' = rotation_written data (rotation o);
  applied_castShadow : castShadow o' = is_true (Data.castShadow data);
  applied_receiveShadow : receiveShadow o' = is_true (Data.receiveShadow data);
  applied_visible : visible o' = is_true (Data.visible data)
}.

(** A freshly constructed object that has been given the identity, the
    transform and the flags of a record. *)
Record carries (data : Data.t) (object : Object3D) : Prop := {
  carries_uuid : uuid object = declared (Data.uuid data);
  carries_name : name object = Data.name data;
  carries_position :
    position object = last_written (Data.position data) (Data.matrix data) initial;
  carries_quaternion : quaternion object = quaternion_written data initial;
  carries_rotation : rotation object = rotation_written data initial;
  carries_scale : scale object = last_written (Data.scale data) (Data.matrix data) initial;
  carries_castShadow : castShadow object = is_true (Data.castShadow data);
  carries_receiveShadow : receiveShadow object = is_true (Data.receiveShadow data);
  carries_visible : visible object = is_true (Data.visible data)
}.

Record same_attributes (o o' : Object3D) : Prop := {
  same_oid : oid o' = oid o;
  same_kind : kind o' = kind o;
  same_uuid : uuid o' = uuid o;
  same_name : name o' = name o;
  same_position : position o' = position o;
  same_rotation : rotation o' = rotation o;
  same_quaternion : quaternion o' = quaternion o;
  same_scale : scale o' = scale o;
  same_castShadow : castShadow o' = castShadow o;
  same_receiveShadow : receiveShadow o' = receiveShadow o;
  same_visible : visible o' = visible o
}.

(** ** Skeletons *)

(** What the callback of [bindSkeletons] leaves of one visited object, and
    what it prints. *)
Definition bound (skeletons : gmap string Skeleton) (obj : Object3D) : Object3D :=
  if isSkinnedMesh obj then
    match skeletonUUID obj with
    | Some wanted =>
        set_skeletonUUID None
          match skeletons !! wanted with
          | Some skeleton => THREE.bind_skeleton skeleton obj
          | None => obj
          end
    | None => obj
    end
  else obj.

Definition unbound_warning (skeletons : gmap string Skeleton) (obj : Object3D) : list Event :=
  if isSkinnedMesh obj then
    match skeletonUUID obj with
    | Some wanted =>
        match skeletons !! wanted with
        | Some _ => []
        | None => [console_warn (skeleton_not_found wanted)]
        end
    | None => []
    end
  else [].

(** The bone UUIDs of a declaration that no object of the tree carries. *)
Definition missing (object : Object3D) (boneParams : list string) : list string :=
  omap (λ u, match THREE.getObjectByProperty_uuid u object with
             | Some _ => None
             | None => Some u
             end) boneParams.

(** The bone references [parseBones] collects when the next fresh object
    identity is [next]. *)
Fixpoint resolved (object : Object3D) (next : nat) (boneParams : list string) : list nat :=
  match boneParams with
  | [] => []
  | u :: rest =>
      match THREE.getObjectByProperty_uuid u object with
      | Some bone => oid bone :: resolved object next rest
      | None => next :: resolved object (S next) rest
      end
  end.

(** A declaration that has an inverse bind matrix for each of its bones. *)
Definition complete (sp : SkeletonParams.t) : Prop :=
  ∃ invs, SkeletonParams.boneInverses sp = Some invs
          ∧ (length (SkeletonParams.bones sp) ≤ length invs)%nat.

Definition all_missing (object : Object3D) (json : list SkeletonParams.t) : list string :=
  flat_map (λ sp, missing object (SkeletonParams.bones sp)) json.

(** The table [parseSkeletons] fills, declaration by declaration. *)
Fixpoint built (object : Object3D) (next : nat) (json : list SkeletonParams.t)
    (skeletons : gmap string Skeleton) : gmap string Skeleton :=
  match json with
  | [] => skeletons
  | sp :: rest =>
      let boneParams := SkeletonParams.bones sp in
      built object (next + length (missing object boneParams)) rest
        (<[SkeletonParams.uuid sp :=
             mkSkeleton (resolved object next boneParams)
               (take (length boneParams) (default [] (SkeletonParams.boneInverses sp)))]>
           skeletons)
  end.

(** How one bone reference of a built skeleton relates to the declared
    bone UUID: the first object of the tree with that UUID, or an object
    allocated while the skeletons were being built. *)
Definition bone_of (object : Object3D) (lo hi : nat) (u : string) (bone : nat) : Prop :=
  match THREE.getObjectByProperty_uuid u object with
  | Some found => bone = oid found
  | None => (lo ≤ bone < hi)%nat
  end.

(** How an object of the tree looks after [bindSkeletons], compared with
    the same object before. *)
Definition binding (skeletons : gmap string Skeleton) (n n' : Object3D) : Prop :=
  oid n' = oid n ∧ kind n' = kind n ∧ uuid n' = uuid n ∧
  if isSkinnedMesh n then
    skeletonUUID n' = None ∧
    skeleton n' = match skeletonUUID n with
                  | Some wanted =>
                      match skeletons !! wanted with
                      | Some sk => Some sk
                      | None => skeleton n
                      end
                  | None => skeleton n
                  end
  else skeletonUUID n' = skeletonUUID n ∧ skeleton n' = skeleton n.

Definition no_skeletonUUID (n : Object3D) : Prop :=
  isSkinnedMesh n = true → skeletonUUID n = None.

(** ** Scene cameras and LOD levels *)

(** What the camera loop leaves of the entries it has not visited yet: a
    resolved entry becomes the camera; an unresolved one is removed, and
    the entry that takes its place is stepped over without being visited. *)
Fixpoint kept (object : Object3D) (unvisited : list CameraEntry) : list CameraEntry :=
  match unvisited with
  | [] => []
  | entry :: rest =>
      match getCamera entry object with
      | Some camera => cameraObject (oid camera) :: kept object rest
      | None =>
          match rest with
          | [] => []
          | stepped_over :: rest' => stepped_over :: kept object rest'
          end
      end
  end.

(** The levels of a record whose UUID some object of the tree carries,
    each with the object found and the distance declared. *)
Definition registered (object : Object3D) (levels0 : list Level.t) : list LODLevel :=
  omap (λ level,
          (λ child, mkLODLevel (oid child) (Level.distance level))
            <$> THREE.getObjectByProperty_uuid (Level.object level) object)
       levels0.

(** ** Console output and callbacks *)

Definition is_console (e : Event) : Prop :=
  match e with
  | called _ _ => False
  | _ => True
  end.

(** A computation that, however it completes, has only appended console
    output to the trace. *)
Definition quiet {A} (m : M A) : Prop :=
  ∀ w r w', m w = (r, w') → ∃ events, trace w' = trace w ++ events ∧ Forall is_console events.

(** ** Sample records and documents *)

Definition moved_group : Data.t :=
  Data.with_scale [2; 2; 2]%Z
    (Data.with_matrix [1; 0; 0; 0; 0; 1; 0; 0; 0; 0; 1; 0; 5; 6; 7; 1]%Z
       (Data.record "Group" "g" "moved")).

Definition walking_group : Data.t :=
  Data.with_animations
    [Animation.mk "walk" None (Some []); Animation.mk "run" (Some "clip-2") (Some [])]
    (Data.record "Group" "g" "walker").

(** A record of unknown type with an animation record that has no
    [tracks]. *)
Definition widget_with_bare_clip : Data.t :=
  Data.with_animations [Animation.mk "walk" None None]
    (Data.record "FutureWidget" "w1" "widget").

(** A group whose matrix, rotation array and quaternion array all speak of
    its orientation, and one that has the matrix and the rotation array
    only. *)
Definition turned_group : Data.t :=
  Data.with_quaternion [0; 0; 0; 1]%Z
    (Data.with_rotation [0; 1; 0]%Z
       (Data.with_matrix [1; 0; 0; 0; 0; 1; 0; 0; 0; 0; 1; 0; 5; 6; 7; 1]%Z
          (Data.record "Group" "g" "turned"))).

Definition tilted_group : Data.t :=
  Data.with_rotation [0; 1; 0]%Z
    (Data.with_matrix [1; 0; 0; 0; 0; 1; 0; 0; 0; 0; 1; 0; 5; 6; 7; 1]%Z
       (Data.record "Group" "g" "tilted")).

(** A light probe without [sh] coefficients, and a scene whose [world]
    block has no [gravity]. *)
Definition probe_without_sh : Data.t := Data.record "LightProbe" "p" "probe".

Definition scene_without_gravity : Data.t :=
  Data.with_world (PhysicsWorld.mk None (Some "{}")) (Data.record "Scene" "s" "scene").

Definition scene_with_camera (camera_uuid : string) : Data.t :=
  Data.with_children [Data.record "PerspectiveCamera" camera_uuid "camera"]
    (Data.with_cameras ["uuid1"; "uuid2"] (Data.record "Scene" "s" "scene")).

Definition two_level_lod : Data.t :=
  Data.with_levels [Level.mk "uuidA" 10%Z; Level.mk "uuidMissing" 50%Z]
    (Data.with_children [Data.record "Mesh" "uuidA" "near"]
       (Data.record "LOD" "lod" "detail")).

(** A rig: one bone, a skinned mesh that asks for the declared skeleton
    ["sk"], and a skinned mesh that asks for a skeleton nobody declares.
    The declared skeleton names the bone and a bone that is not there. *)
Definition rig : Data.t :=
  Data.with_skeletons
    [SkeletonParams.mk "sk" ["b1"; "ghost"] (Some [[1%Z]; [2%Z]])]
    (Data.with_children
       [Data.record "Bone" "b1" "hip";
        Data.with_skeleton "sk" (Data.with_geometry "g" (Data.record "SkinnedMesh" "m1" "body"));
        Data.with_skeleton "lost" (Data.with_geometry "g" (Data.record "SkinnedMesh" "m2" "hat"))]
       (Data.record "Group" "rig" "rig")).

(** The tree of the rig as it stands when the skeletons are built. *)
Definition rig_tree : Object3D :=
  let skinned (n : nat) (uuid0 wanted : string) :=
    set_skeletonUUID (Some wanted)
      (set_uuid (declared uuid0) (THREE.constructed Kind.SkinnedMesh n)) in
  THREE.add (skinned 3 "m2" "lost")
    (THREE.add (skinned 2 "m1" "sk")
       (THREE.add (set_uuid (declared "b1") (THREE.constructed Kind.Bone 1))
          (set_uuid (declared "rig") (THREE.constructed Kind.Container 0)))).

(** A skinned mesh that asks for the skeleton ["sk"], in a record whose
    [skeletons] block is the empty array. *)
Definition mesh_with_empty_block : Json.t Data.t :=
  Json.with_geometries (Arr [mkRawRecord "g" None ""])
    (Json.document
       (Some (Data.with_skeletons []
                (Data.with_skeleton "sk"
                   (Data.with_geometry "g" (Data.record "SkinnedMesh" "m" "body")))))).

Definition future_widget : Data.t :=
  Data.with_position [1; 2; 3]%Z (Data.record "FutureWidget" "w1" "widget").

Definition plain_document : Json.t Data.t :=
  Json.with_images (Arr []) (Json.document (Some (Data.record "Group" "root" "root"))).

(** A mesh whose geometry is in no container. *)
Definition cube_without_geometry : Data.t :=
  Data.with_geometry "nowhere" (Data.record "Mesh" "m" "cube").

Definition shadowed_cube : Data.t := Data.with_shadow "{}" cube_without_geometry.

(** A scene whose [defaultCamera] sub-document has no [object]. *)
Definition corrupt_scene : Data.t :=
  Data.with_defaultCamera (Json.document None) (Data.record "Scene" "s" "scene").

Definition program_with_corrupt_scene : Json.t Data.t :=
  Json.document
    (Some (Data.with_children [corrupt_scene; Data.record "PointLight" "l" "lamp"]
             (Data.record "Program" "p" "program"))).

(** ** The nine resource sections *)

Module Store.
Inductive t : Type :=
| resources | shapes | geometries | images | videos | audio | fonts | textures | materials.

Global Instance eq_dec : EqDecision t.
Proof. solve_decision. Defined.
End Store.

(** The key of a document under which a section is found. *)
Definition section (s : Store.t) (json : Json.t Data.t) : option (Collection RawRecord) :=
  match s with
  | Store.resources => Json.resources json
  | Store.shapes => Json.shapes json
  | Store.geometries => Json.geometries json
  | Store.images => Json.images json
  | Store.videos => Json.videos json
  | Store.audio => Json.audio json
  | Store.fonts => Json.fonts json
  | Store.textures => Json.textures json
  | Store.materials => Json.materials json
  end.

(** The method of the loader that reads a section. *)
Definition parser (s : Store.t) : option (Collection RawRecord) → M unit :=
  match s with
  | Store.resources => parseResources
  | Store.shapes => parseShape
  | Store.geometries => parseGeometries
  | Store.images => parseImages
  | Store.videos => parseVideos
  | Store.audio => parseAudio
  | Store.fonts => parseFonts
  | Store.textures => parseTextures
  | Store.materials => parseMaterials
  end.

(** The container of the loader that the method fills. *)
Definition container (s : Store.t) : ResourceContainer.t → gmap string Instance :=
  match s with
  | Store.resources => ResourceContainer.resources
  | Store.shapes => ResourceContainer.shapes
  | Store.geometries => ResourceContainer.geometries
  | Store.images => ResourceContainer.images
  | Store.videos => ResourceContainer.videos
  | Store.audio => ResourceContainer.audio
  | Store.fonts => ResourceContainer.fonts
  | Store.textures => ResourceContainer.textures
  | Store.materials => ResourceContainer.materials
  end.

(** What the sub-loader of a section makes of one record. *)
Definition instance (s : Store.t) : RawRecord → Instance :=
  match s with
  | Store.resources => TextFile
  | Store.shapes => Shape
  | Store.geometries => Geometry
  | Store.images => Image
  | Store.videos => Video
  | Store.audio => Audio
  | Store.fonts => Font
  | Store.textures => Texture
  | Store.materials => Material
  end.

(** The records of a section that its method visits: [parseShape] and
    [parseGeometries] count up to [length], the others use [for ... in]. *)
Definition visited (s : Store.t) (json : Collection RawRecord) : list RawRecord :=
  match s with
  | Store.shapes | Store.geometries => indexed json
  | _ => for_in json
  end.

(** The last record of a list that carries a given UUID. *)
Definition last_declared (u : string) (records : list RawRecord) : option RawRecord :=
  last (filter (λ r, raw_uuid r = u) records).

(** Every resource of the first loader state is still filed, under the
    same UUID and in the same container, in the second. *)
Definition retains (c c' : ResourceContainer.t) : Prop :=
  ∀ s u, is_Some (container s c !! u) → is_Some (container s c' !! u).

(** A computation that, however it completes, leaves a world related by
    [R] to the one it started in. *)
Definition respects (R : World → World → Prop) {A} (m : M A) : Prop :=
  ∀ w r w', m w = (r, w') → R w w'.

(** ** More sample documents *)

(** A document that declares one geometry and has no root record. *)
Definition rootless_document : Json.t Data.t :=
  Json.with_geometries (Arr [mkRawRecord "g" None ""]) (Json.document None).

(** A program that declares one geometry. *)
Definition program_with_geometry : Json.t Data.t :=
  Json.with_geometries (Arr [mkRawRecord "g" None ""])
    (Json.document (Some (Data.record "Program" "p" "program"))).

(** A mesh whose geometry is declared twice in its document; the second
    declaration has bones. *)
Definition mesh_document : Json.t Data.t :=
  Json.with_geometries
    (Arr [mkRawRecord "g" None "box"; mkRawRecord "g" (Some ["hip"]) "body"])
    (Json.document (Some (Data.with_geometry "g" (Data.record "Mesh" "m" "cube")))).

(** ** The attribute pass as a function *)

(** What the attribute pass writes (source lines 965 to 1021) on an
    object that owns a [shadow] if the record has a [shadow] block. *)
Definition attributed (data : Data.t) (object : Object3D) : Object3D :=
  let object := applyIdentity data object in
  let object := animated data object in
  let object := applyTransform data object in
  let object := set_castShadow (is_true (Data.castShadow data)) object in
  let object := set_receiveShadow (is_true (Data.receiveShadow data)) object in
  let object :=
    when_defined (Data.shadow data) (λ json, set_shadow (Some (shadowFromJSON json)))
      object in
  applyVisibility data object.

(** ** Trees of records *)

(** A record and the records below it, depth first, children in document
    order. *)
Fixpoint records (data : Data.t) : list Data.t :=
  data :: match Data.children data with
          | Some children => flat_map records children
          | None => []
          end.

(** The UUIDs of the objects of a tree, in the order of [traverse]. *)
Definition uuids (object : Object3D) : list UUID := uuid <$> THREE.nodes object.

(** A computation whose object, when it returns one, has no children. *)
Definition childless (m : M Object3D) : Prop :=
  ∀ w o w', m w = (Normal o, w') → children o = [].

(** ** More sample records *)

Definition with_hidden (v : bool) (d : Data.t) : Data.t :=
  Data.mk (Data.type d) (Data.uuid d) (Data.name d) (Data.locked d) (Some v) (Data.folded d)
     (Data.frustumCulled d) (Data.renderOrder d) (Data.animations d) (Data.matrix d)
     (Data.position d) (Data.rotation d) (Data.quaternion d) (Data.scale d)
     (Data.castShadow d) (Data.receiveShadow d) (Data.shadow d) (Data.visible d)
     (Data.userData d) (Data.layers d) (Data.children d) (Data.matrixAutoUpdate d)
     (Data.skeletons d) (Data.textures d) (Data.lensFlares d) (Data.elements d)
     (Data.defaultCamera d) (Data.cameras d) (Data.geometry d) (Data.skeleton d)
     (Data.instanceMatrix d) (Data.levels d) (Data.sun d) (Data.center d) (Data.vector d)
     (Data.world d) (Data.viewport d) (Data.offset d) (Data.sh d).
Definition with_folded (v : bool) (d : Data.t) : Data.t :=
  Data.mk (Data.type d) (Data.uuid d) (Data.name d) (Data.locked d) (Data.hidden d) (Some v)
     (Data.frustumCulled d) (Data.renderOrder d) (Data.animations d) (Data.matrix d)
     (Data.position d) (Data.rotation d) (Data.quaternion d) (Data.scale d)
     (Data.castShadow d) (Data.receiveShadow d) (Data.shadow d) (Data.visible d)
     (Data.userData d) (Data.layers d) (Data.children d) (Data.matrixAutoUpdate d)
     (Data.skeletons d) (Data.textures d) (Data.lensFlares d) (Data.elements d)
     (Data.defaultCamera d) (Data.cameras d) (Data.geometry d) (Data.skeleton d)
     (Data.instanceMatrix d) (Data.levels d) (Data.sun d) (Data.center d) (Data.vector d)
     (Data.world d) (Data.viewport d) (Data.offset d) (Data.sh d).
Definition with_renderOrder (v : number) (d : Data.t) : Data.t :=
  Data.mk (Data.type d) (Data.uuid d) (Data.name d) (Data.locked d) (Data.hidden d)
     (Data.folded d) (Data.frustumCulled d) (Some v) (Data.animations d) (Data.matrix d)
     (Data.position d) (Data.rotation d) (Data.quaternion d) (Data.scale d)
     (Data.castShadow d) (Data.receiveShadow d) (Data.shadow d) (Data.visible d)
     (Data.userData d) (Data.layers d) (Data.children d) (Data.matrixAutoUpdate d)
     (Data.skeletons d) (Data.textures d) (Data.lensFlares d) (Data.elements d)
     (Data.defaultCamera d) (Data.cameras d) (Data.geometry d) (Data.skeleton d)
     (Data.instanceMatrix d) (Data.levels d) (Data.sun d) (Data.center d) (Data.vector d)
     (Data.world d) (Data.viewport d) (Data.offset d) (Data.sh d).
Definition with_matrixAutoUpdate (v : bool) (d : Data.t) : Data.t :=
  Data.mk (Data.type d) (Data.uuid d) (Data.name d) (Data.locked d) (Data.hidden d)
     (Data.folded d) (Data.frustumCulled d) (Data.renderOrder d) (Data.animations d)
     (Data.matrix d) (Data.position d) (Data.rotation d) (Data.quaternion d) (Data.scale d)
     (Data.castShadow d) (Data.receiveShadow d) (Data.shadow d) (Data.visible d)
     (Data.userData d) (Data.layers d) (Data.children d) (Some v) (Data.skeletons d)
     (Data.textures d) (Data.lensFlares d) (Data.elements d) (Data.defaultCamera d)
     (Data.cameras d) (Data.geometry d) (Data.skeleton d) (Data.instanceMatrix d)
     (Data.levels d) (Data.sun d) (Data.center d) (Data.vector d) (Data.world d)
     (Data.viewport d) (Data.offset d) (Data.sh d).

(** A record hidden in the editor, drawn late, that is not to be moved:
    its matrix disagrees with its explicit position. *)
Definition fixed_group : Data.t :=
  with_matrixAutoUpdate false
    (with_renderOrder 5%Z
       (with_hidden true
          (Data.with_position [1; 2; 3]%Z
             (Data.with_matrix [1; 0; 0; 0; 0; 1; 0; 0; 0; 0; 1; 0; 5; 6; 7; 1]%Z
                (Data.record "Group" "g" "fixed"))))).

(** A light with a [shadow] block. *)
Definition lamp : Data.t := Data.with_shadow "{}" (Data.record "SpotLight" "l" "lamp").

(** A group with two children, the first of which has a child of its own. *)
Definition family : Data.t :=
  Data.with_children
    [Data.with_children [Data.record "Bone" "c" "grandchild"] (Data.record "Group" "b" "first");
     Data.record "PointLight" "d" "second"]
    (Data.record "Group" "a" "parent").

(** A LOD record without a [levels] array. *)
Definition bare_lod : Data.t := Data.record "LOD" "lod" "detail".

(** A scene whose two cameras are both among its children. *)
Definition scene_with_two_cameras : Data.t :=
  Data.with_children
    [Data.record "PerspectiveCamera" "uuid1" "main";
     Data.record "OrthographicCamera" "uuid2" "map"]
    (Data.with_cameras ["uuid1"; "uuid2"] (Data.record "Scene" "s" "scene")).

(** ** Skeleton declarations *)

(** A declaration that [parseSkeletons] can read: it has no bones, or an
    inverse bind matrix for each of them. *)
Definition sufficient (sp : SkeletonParams.t) : Prop :=
  SkeletonParams.bones sp = [] ∨ complete sp.

(** The skeleton ["sk"] declared twice, the second time with the bone
    ["b1"]. *)
Definition declared_twice : list SkeletonParams.t :=
  [SkeletonParams.mk "sk" ["ghost"] (Some [[1%Z]]);
   SkeletonParams.mk "sk" ["b1"] (Some [[2%Z]])].

(** ** The console *)

(** Whatever was on the trace is still on it. *)
Definition trace_grows (w w' : World) : Prop :=
  ∀ event, event ∈ trace w → event ∈ trace w'.

(** ** Identities *)

(** The identities of the objects of a tree, in the order of [traverse]. *)
Definition oids (object : Object3D) : list nat := oid <$> THREE.nodes object.

(** The allocation counter never goes back. *)
Definition counter_grows (w w' : World) : Prop := (next_oid w ≤ next_oid w')%nat.

(** A computation whose object, when it returns one, was allocated while
    it ran and has no children. *)
Definition newborn (m : M Object3D) : Prop :=
  ∀ w o w', m w = (Normal o, w') →
    children o = [] ∧ (next_oid w ≤ oid o < next_oid w')%nat.

(** A computation that returns the object with identity [n], childless,
    or nothing. *)
Definition hands_on (n : nat) (m : M Object3D) : Prop :=
  ∀ w o w', m w = (Normal o, w') →
    children o = [] ∧ oid o = n ∧ (next_oid w ≤ next_oid w')%nat.

(** A tree whose objects are pairwise distinct and were all allocated
    between two states of the counter. *)
Definition allocated_within (lo hi : nat) (ids : list nat) : Prop :=
  NoDup ids ∧ Forall (λ i, (lo ≤ i < hi)%nat) ids.

(** * Properties *)

(** ** Running a computation *)

Section Completions.
Context {A B : Type}.

Lemma bind_Normal (m : M A) (k : A → M B) w b w' :
  bind m k w = (Normal b, w') ↔
  ∃ a w1, m w = (Normal a, w1) ∧ k a w1 = (Normal b, w').
Proof.
  unfold bind. split.
  - destruct (m w) as [[a|e] w1]; [eauto | discriminate].
  - intros (a & w1 & -> & Hk). exact Hk.
Qed.

Lemma bind_step (m : M A) (k : A → M B) w a w1 :
  m w = (Normal a, w1) → bind m k w = k a w1.
Proof. unfold bind. intros ->. reflexivity. Qed.

Lemma ret_Normal (a b : A) w w' : ret a w = (Normal b, w') ↔ a = b ∧ w = w'.
Proof. unfold ret. split; [intros [= -> ->] | intros [-> ->]]; auto. Qed.

End Completions.

(** Takes a hypothesis [m w = (Normal b, w')] apart along the binds of [m]. *)
Ltac run_inv H :=
  lazymatch type of H with
  | bind _ _ _ = (Normal _, _) =>
      let a := fresh "a" in
      let w := fresh "w" in
      let H1 := fresh H in
      apply bind_Normal in H as (a & w & H1 & H);
      run_inv H1; run_inv H
  | ret _ _ = (Normal _, _) =>
      apply ret_Normal in H as [? ?]; subst
  | throw _ _ = (Normal _, _) => discriminate H
  | get_this _ = (Normal _, _) => unfold get_this in H; simplify_eq
  | _ => idtac
  end.

(** ** Trees of objects *)

Lemma Object3D_tree_ind (P : Object3D → Prop) :
  (∀ object, Forall P (children object) → P object) → ∀ object, P object.
Proof.
  intros step. fix IH 1. intros object. apply step.
  destruct object as [? ? ? ? ? ? ? ? ? ? ? ? ? ? ? ? ? ? ? ? kids ? ? ? ? ? ?]. simpl.
  induction kids as [|kid kids IHkids]; constructor; [apply IH | exact IHkids].
Qed.

(** ** One step of [parseObject] *)

Lemma parseObject_eq data :
  parseObject data =
  (let* object := create data (parseDefaultCamera data) in
   let* object := applyAttributes data object in
   let* object := attachChildren data object in
   finish data object).
Proof. destruct data. reflexivity. Qed.

Lemma set_children_eta o : set_children (children o) o = o.
Proof. destruct o. reflexivity. Qed.

Lemma foldM_add_children (f : Data.t → M Object3D) children0 object w object' w' :
  foldM (λ object child, let* built := f child in ret (THREE.add built object))
        object children0 w = (Normal object', w') →
  ∃ built, object' = set_children (children object ++ built) object
           ∧ length built = length children0.
Proof.
  revert object w. induction children0 as [|child rest IH]; intros object w H; simpl in H.
  - run_inv H. exists []. rewrite app_nil_r, set_children_eta. auto.
  - apply bind_Normal in H as (parent & w1 & Hstep & H).
    apply bind_Normal in Hstep as (child' & w2 & _ & Hstep). run_inv Hstep.
    apply IH in H as (built & -> & Hlen).
    exists (child' :: built). unfold THREE.add. simpl.
    rewrite <- app_assoc. simpl. auto.
Qed.

Lemma attachChildren_form data object w object' w' :
  attachChildren data object w = (Normal object', w') →
  ∃ built, object' = set_children (children object ++ built) object.
Proof.
  unfold attachChildren. destruct (Data.children data) as [children0|]; intros H.
  - apply foldM_add_children in H as (built & -> & _). eauto.
  - run_inv H. exists []. rewrite app_nil_r, set_children_eta. auto.
Qed.

(** ** Worlds that differ by console output and allocations *)

Lemma log_nil w : log [] w = w.
Proof. destruct w. unfold log. simpl. by rewrite app_nil_r. Qed.

Lemma log_log es1 es2 w : log es2 (log es1 w) = log (es1 ++ es2) w.
Proof. unfold log. simpl. by rewrite app_assoc. Qed.

Lemma emit_run e w : emit e w = (Normal (), log [e] w).
Proof. reflexivity. Qed.

Lemma new_run k w :
  THREE.new k w = (Normal (THREE.constructed k (next_oid w)), allocate 1 w).
Proof. unfold THREE.new, allocate. by rewrite Nat.add_1_r. Qed.

Lemma mapM_run {A B} (f : A → M B) (g : A → B) (events : A → list Event) l :
  Forall (λ x, ∀ w, f x w = (Normal (g x), log (events x) w)) l →
  ∀ w, mapM f l w = (Normal (map g l), log (flat_map events l) w).
Proof.
  induction 1 as [|x l Hx _ IH]; intros w; simpl.
  - unfold ret. by rewrite log_nil.
  - rewrite (bind_step _ _ _ _ _ (Hx w)).
    rewrite (bind_step _ _ _ _ _ (IH _)).
    unfold ret. by rewrite log_log.
Qed.

(** ** Binding skeletons *)

Lemma bindSkeleton_run skeletons obj w :
  bindSkeleton skeletons obj w
  = (Normal (bound skeletons obj), log (unbound_warning skeletons obj) w).
Proof.
  unfold bindSkeleton, bound, unbound_warning.
  destruct (isSkinnedMesh obj); [|by rewrite log_nil].
  destruct (skeletonUUID obj) as [wanted|]; [|by rewrite log_nil].
  destruct (skeletons !! wanted); [by rewrite log_nil | reflexivity].
Qed.

Lemma nodes_eq object : THREE.nodes object = object :: flat_map THREE.nodes (children object).
Proof. destruct object. reflexivity. Qed.

Lemma visit_all_eq g object :
  visit_all g object = set_children (map (visit_all g) (children object)) (g object).
Proof. destruct object. reflexivity. Qed.

Lemma traverse_eq callback object :
  THREE.traverse callback object =
  (let* visited := callback object in
   let* children' := mapM (THREE.traverse callback) (children object) in
   ret (set_children children' visited)).
Proof. destruct object. reflexivity. Qed.

Lemma traverse_run callback g events :
  (∀ obj w, callback obj w = (Normal (g obj), log (events obj) w)) →
  ∀ object w,
    THREE.traverse callback object w
    = (Normal (visit_all g object), log (flat_map events (THREE.nodes object)) w).
Proof.
  intros Hcb object. induction object as [object IH] using Object3D_tree_ind. intros w.
  rewrite traverse_eq, visit_all_eq, nodes_eq.
  rewrite (bind_step _ _ _ _ _ (Hcb object w)).
  rewrite (bind_step _ _ _ _ _ (mapM_run _ (visit_all g)
             (λ o, flat_map events (THREE.nodes o)) _ IH _)).
  unfold ret. rewrite log_log. simpl. do 3 f_equal.
  clear. induction (children object) as [|c l IHl]; simpl; [done|].
  by rewrite flat_map_app, IHl.
Qed.

Lemma nodes_visit_all g object :
  Forall2 (λ n n', ∃ kids, n' = set_children kids (g n))
          (THREE.nodes object) (THREE.nodes (visit_all g object)).
Proof.
  induction object as [object IH] using Object3D_tree_ind.
  rewrite visit_all_eq, (nodes_eq object), nodes_eq. simpl.
  constructor; [eauto|].
  induction IH as [|c l Hc _ IHl]; simpl; [constructor|].
  apply Forall2_app; [exact Hc | exact IHl].
Qed.

(** ** Building skeletons *)

Lemma allocate_log n events w : allocate n (log events w) = log events (allocate n w).
Proof. reflexivity. Qed.

Lemma allocate_allocate n m w : allocate m (allocate n w) = allocate (n + m) w.
Proof. unfold allocate. simpl. by rewrite Nat.add_assoc. Qed.

Lemma allocate_0 w : allocate 0 w = w.
Proof. destruct w. unfold allocate. simpl. by rewrite Nat.add_0_r. Qed.

Lemma parseBones_run object invs boneParams :
  ∀ j bones0 inverses0 w,
    (j + length boneParams ≤ length invs)%nat →
    parseBones object (Some invs) boneParams j bones0 inverses0 w
    = (Normal (bones0 ++ resolved object (next_oid w) boneParams,
               inverses0 ++ take (length boneParams) (drop j invs)),
       allocate (length (missing object boneParams))
         (log (console_warn ∘ bone_not_found <$> missing object boneParams) w)).
Proof.
  induction boneParams as [|u rest IH]; intros j bones0 inverses0 w Hlen; simpl in *.
  - unfold ret. by rewrite !app_nil_r, log_nil, allocate_0.
  - destruct (lookup_lt_is_Some_2 invs j) as [array Harray]; [lia|].
    unfold missing. simpl. fold (missing object rest).
    destruct (THREE.getObjectByProperty_uuid u object) as [bone|]; simpl.
    + unfold bind at 1, ret at 1. unfold bind at 1. rewrite Harray. unfold ret at 1.
      rewrite IH by lia. unfold push.
      rewrite <- !app_assoc. simpl. by rewrite (drop_S _ _ _ Harray).
    + unfold bind at 1. unfold bind at 1. rewrite emit_run, new_run.
      unfold bind at 1. rewrite Harray. unfold ret at 1.
      rewrite IH by lia. unfold push. simpl.
      rewrite <- !app_assoc. simpl. rewrite (drop_S _ _ _ Harray).
      rewrite Nat.add_1_r. f_equal.
      rewrite allocate_log, allocate_allocate, <- allocate_log, log_log. reflexivity.
Qed.

Lemma parseSkeletons_fold object json :
  Forall complete json →
  ∀ skeletons w,
    foldM (λ (skeletons : gmap string Skeleton) skeletonParams,
             let uuid := SkeletonParams.uuid skeletonParams in
             let boneParams := SkeletonParams.bones skeletonParams in
             let boneInverseParams := SkeletonParams.boneInverses skeletonParams in
             let* built := parseBones object boneInverseParams boneParams 0 [] [] in
             ret (<[uuid := mkSkeleton built.1 built.2]> skeletons))
          skeletons json w
    = (Normal (built object (next_oid w) json skeletons),
       allocate (length (all_missing object json))
         (log (console_warn ∘ bone_not_found <$> all_missing object json) w)).
Proof.
  induction 1 as [|sp rest (invs & Hinvs & Hlen) _ IH]; intros skeletons w; simpl.
  - unfold ret. by rewrite log_nil, allocate_0.
  - unfold bind at 1. unfold bind at 1. rewrite Hinvs.
    rewrite parseBones_run by (simpl; lia).
    unfold ret at 1. rewrite IH. simpl. rewrite drop_0. f_equal.
    unfold all_missing. simpl. rewrite length_app, fmap_app.
    rewrite allocate_log, allocate_allocate, <- allocate_log, log_log. reflexivity.
Qed.

Lemma parseSkeletons_run object json w :
  Forall complete json →
  parseSkeletons (Some json) object w
  = (Normal (built object (next_oid w) json ∅),
     allocate (length (all_missing object json))
       (log (console_warn ∘ bone_not_found <$> all_missing object json) w)).
Proof. intros Hjson. unfold parseSkeletons. by apply parseSkeletons_fold. Qed.

(** The table is never empty once a declaration has been processed. *)
Lemma built_nonempty object json :
  ∀ next skeletons, json ≠ [] ∨ skeletons ≠ ∅ → built object next json skeletons ≠ ∅.
Proof.
  induction json as [|sp rest IH]; intros next skeletons Hne; simpl.
  - destruct Hne as [Hne|Hne]; [by destruct Hne | exact Hne].
  - apply IH. right. apply insert_non_empty.
Qed.

Lemma built_declared object json :
  ∀ next skeletons sp,
    sp ∈ json ∨ is_Some (skeletons !! SkeletonParams.uuid sp) →
    is_Some (built object next json skeletons !! SkeletonParams.uuid sp).
Proof.
  induction json as [|sp0 rest IH]; intros next skeletons sp Hsp; simpl.
  - destruct Hsp as [Hsp|Hsp]; [by apply elem_of_nil in Hsp | exact Hsp].
  - apply IH.
    destruct Hsp as [[->|Hsp]%elem_of_cons|Hsp]; [right | by left | right].
    + rewrite lookup_insert_eq. eauto.
    + rewrite lookup_insert_is_Some. destruct (decide (SkeletonParams.uuid sp0 = SkeletonParams.uuid sp)); eauto.
Qed.

Lemma missing_cons object u rest :
  missing object (u :: rest) =
  match THREE.getObjectByProperty_uuid u object with
  | Some _ => missing object rest
  | None => u :: missing object rest
  end.
Proof.
  unfold missing. simpl. by destruct (THREE.getObjectByProperty_uuid u object).
Qed.

Lemma resolved_bone_of object boneParams :
  ∀ next lo hi,
    (lo ≤ next)%nat → (next + length (missing object boneParams) ≤ hi)%nat →
    Forall2 (bone_of object lo hi) boneParams (resolved object next boneParams).
Proof.
  induction boneParams as [|u rest IH]; intros next lo hi Hlo Hhi; simpl; [constructor|].
  rewrite missing_cons in Hhi.
  destruct (THREE.getObjectByProperty_uuid u object) as [found|] eqn:Hlookup; simpl in Hhi.
  - constructor; [unfold bone_of; by rewrite Hlookup | apply IH; lia].
  - constructor; [unfold bone_of; rewrite Hlookup; lia | apply IH; lia].
Qed.

Lemma built_bones object json :
  ∀ next skeletons lo hi u sk,
    (lo ≤ next)%nat → (next + length (all_missing object json) ≤ hi)%nat →
    built object next json skeletons !! u = Some sk →
    skeletons !! u = Some sk ∨
    ∃ sp, sp ∈ json ∧ SkeletonParams.uuid sp = u
          ∧ Forall2 (bone_of object lo hi) (SkeletonParams.bones sp) (bones sk).
Proof.
  induction json as [|sp rest IH]; intros next skeletons lo hi u sk Hlo Hhi Hsk; simpl in *.
  - by left.
  - unfold all_missing in Hhi. simpl in Hhi. rewrite length_app in Hhi.
    fold (all_missing object rest) in Hhi.
    apply (IH _ _ lo hi) in Hsk as [Hsk|(sp' & Hin & Huuid & Hbones)]; [| |lia|lia].
    + apply lookup_insert_Some in Hsk as [[<- <-]|[_ Hsk]]; [right | by left].
      exists sp. split; [by left|]. split; [done|]. simpl.
      apply resolved_bone_of; lia.
    + right. exists sp'. split; [by right | done].
Qed.

Lemma bindSkeletons_run object skeletons w :
  skeletons ≠ ∅ →
  bindSkeletons object skeletons w
  = (Normal (visit_all (bound skeletons) object),
     log (flat_map (unbound_warning skeletons) (THREE.nodes object)) w).
Proof.
  intros Hne. unfold bindSkeletons.
  rewrite bool_decide_eq_false_2 by (by rewrite map_size_empty_iff).
  apply traverse_run. intros obj w0. apply bindSkeleton_run.
Qed.

Lemma bound_binding skeletons n kids :
  binding skeletons n (set_children kids (bound skeletons n)).
Proof.
  unfold binding, bound. destruct (isSkinnedMesh n) eqn:Hskinned; simpl; [|done].
  destruct (skeletonUUID n) as [wanted|] eqn:Hwanted; simpl; [|done].
  by destruct (skeletons !! wanted).
Qed.

Lemma nodes_bound skeletons object :
  Forall2 (binding skeletons) (THREE.nodes object)
          (THREE.nodes (visit_all (bound skeletons) object)).
Proof.
  eapply Forall2_impl; [apply nodes_visit_all|].
  intros n n' [kids ->]. apply bound_binding.
Qed.

(** ** What the attribute pass writes *)

Lemma proj_when_defined {A B} (p : Object3D → B) (value : option A) write o :
  (∀ v o, p (write v o) = p o) → p (when_defined value write o) = p o.
Proof. intros Hp. destruct value; simpl; auto. Qed.

(** Reads a property through the conditional writes that leave it alone. *)
Ltac frame p :=
  repeat (rewrite (proj_when_defined p) by (intros; reflexivity)); simpl.

Lemma animated_frame {B} (p : Object3D → B) data o :
  (∀ v o, p (set_animations v o) = p o) → p (animated data o) = p o.
Proof. intros Hp. unfold animated. by apply proj_when_defined. Qed.

(** Parsing animation clips leaves the world alone, however it ends. *)
Lemma mapM_world {A B} (f : A → M B) l :
  (∀ x w r w', f x w = (r, w') → w' = w) → ∀ w r w', mapM f l w = (r, w') → w' = w.
Proof.
  intros Hf. induction l as [|x l IH]; intros w r w'; simpl; [by intros [= <- <-]|].
  unfold bind. destruct (f x w) as [[y|e] w1] eqn:Hx; apply Hf in Hx as ->.
  - destruct (mapM f l w) as [[ys|e] w2] eqn:Hl; apply IH in Hl as ->; by intros [= <- <-].
  - by intros [= <- <-].
Qed.

Lemma foldM_world {A B} (body : B → A → M B) l :
  (∀ acc x w r w', body acc x w = (r, w') → w' = w) →
  ∀ acc w r w', foldM body acc l w = (r, w') → w' = w.
Proof.
  intros Hbody. induction l as [|x l IH]; intros acc w r w'; simpl; [by intros [= <- <-]|].
  unfold bind. destruct (body acc x w) as [[acc'|e] w1] eqn:Hx; apply Hbody in Hx as ->.
  - apply IH.
  - by intros [= <- <-].
Qed.

Lemma KeyframeTrack_parse_world track w r w' :
  THREE.KeyframeTrack_parse track w = (r, w') → w' = w.
Proof. destruct track; by intros [= <- <-]. Qed.

Lemma AnimationClip_parse_world json w r w' :
  THREE.AnimationClip_parse json w = (r, w') → w' = w.
Proof.
  unfold THREE.AnimationClip_parse.
  destruct (Animation.tracks json) as [tracks|]; [|by intros [= <- <-]].
  unfold bind. destruct (mapM _ tracks w) as [[ys|e] w1] eqn:Hl;
    apply (mapM_world _ _ KeyframeTrack_parse_world) in Hl as ->; by intros [= <- <-].
Qed.

Lemma AnimationClip_parse_Normal json w clip w' :
  THREE.AnimationClip_parse json w = (Normal clip, w') →
  clip = mkAnimationClip json None ∧ w' = w.
Proof.
  intros H. pose proof (AnimationClip_parse_world _ _ _ _ H) as ->. split; [|done].
  unfold THREE.AnimationClip_parse in H. destruct (Animation.tracks json); [|done].
  apply bind_Normal in H as (ys & w1 & _ & H). by injection H as <-.
Qed.

Lemma AnimationClip_parse_run json w :
  parses json → THREE.AnimationClip_parse json w = (Normal (mkAnimationClip json None), w).
Proof.
  intros (tracks & Htracks & Hall). unfold THREE.AnimationClip_parse. rewrite Htracks.
  assert (∃ ys, mapM THREE.KeyframeTrack_parse tracks w = (Normal ys, w)) as [ys Hys].
  { clear Htracks. induction Hall as [|track rest [json0 ->] _ [ys IH]]; simpl;
      [by eexists|].
    unfold bind at 1. simpl. unfold bind. rewrite IH. by eexists. }
  by rewrite (bind_step _ _ _ _ _ Hys).
Qed.

(** A clip record parses exactly when it has tracks that are all well
    formed. *)
Lemma AnimationClip_parse_parses json w clip w' :
  THREE.AnimationClip_parse json w = (Normal clip, w') → parses json.
Proof.
  unfold THREE.AnimationClip_parse, parses.
  destruct (Animation.tracks json) as [tracks|]; [|done]. intros H.
  exists tracks. split; [done|].
  apply bind_Normal in H as (ys & w1 & H & _). clear clip w'.
  revert ys w w1 H. induction tracks as [|track rest IH]; intros ys w w1 H; [constructor|].
  simpl in H. apply bind_Normal in H as (y & w2 & Htrack & H).
  apply bind_Normal in H as (ys' & w3 & Hrest & _).
  constructor; [|by eapply IH]. destruct track; [eauto | done].
Qed.

Lemma applyAnimations_world data o w r w' : applyAnimations data o w = (r, w') → w' = w.
Proof.
  unfold applyAnimations. destruct (Data.animations data) as [array|]; [|by intros [= <- <-]].
  apply foldM_world. clear. intros acc json w r w'. unfold bind.
  destruct (THREE.AnimationClip_parse json w) as [[clip|e] w1] eqn:Hclip;
    apply AnimationClip_parse_world in Hclip as ->; by intros [= <- <-].
Qed.

Lemma applyAnimations_fold array :
  ∀ o w o' w',
    foldM (λ object json,
             let* clip := THREE.AnimationClip_parse json in
             ret (set_animations (push (animations object) [clip]) object))
          o array w = (Normal o', w') →
    o' = set_animations (animations o ++ ((λ json, mkAnimationClip json None) <$> array)) o
    ∧ Forall parses array.
Proof.
  induction array as [|json rest IH]; intros o w o' w' H; simpl in H.
  - run_inv H. rewrite app_nil_r. split; [by destruct o' | constructor].
  - apply bind_Normal in H as (o1 & w1 & Hstep & H).
    apply bind_Normal in Hstep as (clip & w2 & Hclip & Hstep). run_inv Hstep.
    pose proof (AnimationClip_parse_parses _ _ _ _ Hclip) as Hjson.
    apply AnimationClip_parse_Normal in Hclip as [-> ->].
    apply IH in H as [-> Hrest]. split; [|by constructor].
    unfold push. simpl. by rewrite <- app_assoc.
Qed.

(** The first loop over the animations, when it completes, has parsed
    every record and left one clip for each. *)
Lemma applyAnimations_Normal data o w o' w' :
  applyAnimations data o w = (Normal o', w') →
  o' = animated data o ∧ w' = w ∧ Forall parses (default [] (Data.animations data)).
Proof.
  intros H. pose proof (applyAnimations_world _ _ _ _ _ H) as ->.
  unfold applyAnimations, animated in *.
  destruct (Data.animations data) as [array|]; simpl.
  - apply applyAnimations_fold in H as [-> Hall]. by repeat split.
  - injection H as <-. repeat split. constructor.
Qed.

Lemma applyAnimations_run data o w :
  Forall parses (default [] (Data.animations data)) →
  applyAnimations data o w = (Normal (animated data o), w).
Proof.
  intros Hall.
  assert (∃ o', applyAnimations data o w = (Normal o', w)) as [o' Hrun].
  { unfold applyAnimations. destruct (Data.animations data) as [array|]; simpl in *;
      [|unfold ret; eauto].
    generalize (set_animations [] o).
    induction Hall as [|json rest Hjson _ IH]; intros o0; simpl; [unfold ret; eauto|].
    unfold bind at 1. unfold bind at 1. rewrite (AnimationClip_parse_run _ _ Hjson).
    unfold ret at 1. apply IH. }
  rewrite Hrun. by apply applyAnimations_Normal in Hrun as (-> & _ & _).
Qed.

Lemma applyIdentity_frame data o :
  oid (applyIdentity data o) = oid o ∧ kind (applyIdentity data o) = kind o ∧
  uuid (applyIdentity data o) = declared (Data.uuid data) ∧
  name (applyIdentity data o) = Data.name data ∧
  position (applyIdentity data o) = position o ∧
  rotation (applyIdentity data o) = rotation o ∧
  quaternion (applyIdentity data o) = quaternion o ∧
  scale (applyIdentity data o) = scale o ∧
  shadow (applyIdentity data o) = shadow o ∧
  levels (applyIdentity data o) = levels o.
Proof. unfold applyIdentity. repeat split; by destruct (Data.frustumCulled data), (Data.renderOrder data). Qed.

Lemma applyTransform_written data o :
  position (applyTransform data o)
  = last_written (Data.position data) (Data.matrix data) (position o) ∧
  quaternion (applyTransform data o) = quaternion_written data (quaternion o) ∧
  scale (applyTransform data o)
  = last_written (Data.scale data) (Data.matrix data) (scale o) ∧
  rotation (applyTransform data o) = rotation_written data (rotation o).
Proof.
  unfold applyTransform, last_written, quaternion_written, rotation_written.
  repeat split;
    by destruct (Data.matrix data), (Data.position data), (Data.rotation data),
                (Data.quaternion data), (Data.scale data).
Qed.

Lemma applyTransform_frame data o :
  oid (applyTransform data o) = oid o ∧ kind (applyTransform data o) = kind o ∧
  uuid (applyTransform data o) = uuid o ∧ name (applyTransform data o) = name o ∧
  shadow (applyTransform data o) = shadow o ∧ levels (applyTransform data o) = levels o.
Proof.
  unfold applyTransform.
  repeat split;
    by destruct (Data.matrix data), (Data.position data), (Data.rotation data),
                (Data.quaternion data), (Data.scale data).
Qed.

Lemma applyAttributes_world data o w r w' : applyAttributes data o w = (r, w') → w' = w.
Proof.
  unfold applyAttributes, bind.
  destruct (applyAnimations data (applyIdentity data o) w) as [[o0|e] w0] eqn:Hanimations;
    apply applyAnimations_world in Hanimations as ->; [|by intros [= <- <-]].
  unfold applyShadow.
  destruct (Data.shadow data); [destruct (shadow _)|]; by intros [= <- <-].
Qed.

Lemma applyAttributes_animated data o w o' w' :
  applyAttributes data o w = (Normal o', w') →
  Forall parses (default [] (Data.animations data)) ∧
  (let* object := applyShadow data (applyTransform data (animated data (applyIdentity data o))) in
   ret (applyVisibility data object)) w = (Normal o', w').
Proof.
  unfold applyAttributes. intros H.
  apply bind_Normal in H as (o0 & w0 & Hanimations & H).
  by apply applyAnimations_Normal in Hanimations as (-> & -> & Hall).
Qed.

Lemma applyAttributes_Normal data o w o' w' :
  applyAttributes data o w = (Normal o', w') → w' = w ∧ attributes_applied data o o'.
Proof.
  intros [_ H]%applyAttributes_animated. unfold applyShadow in H.
  destruct (applyIdentity_frame data o) as (I1 & I2 & I3 & I4 & I5 & I6 & I7 & I8 & I9 & I10).
  pose proof (animated_frame oid data (applyIdentity data o) (λ _ _, eq_refl)) as A1.
  pose proof (animated_frame kind data (applyIdentity data o) (λ _ _, eq_refl)) as A2.
  pose proof (animated_frame uuid data (applyIdentity data o) (λ _ _, eq_refl)) as A3.
  pose proof (animated_frame name data (applyIdentity data o) (λ _ _, eq_refl)) as A4.
  pose proof (animated_frame position data (applyIdentity data o) (λ _ _, eq_refl)) as A5.
  pose proof (animated_frame rotation data (applyIdentity data o) (λ _ _, eq_refl)) as A6.
  pose proof (animated_frame quaternion data (applyIdentity data o) (λ _ _, eq_refl)) as A7.
  pose proof (animated_frame scale data (applyIdentity data o) (λ _ _, eq_refl)) as A8.
  pose proof (animated_frame levels data (applyIdentity data o) (λ _ _, eq_refl)) as A10.
  destruct (applyTransform_written data (animated data (applyIdentity data o)))
    as (T1 & T2 & T3 & T4).
  destruct (applyTransform_frame data (animated data (applyIdentity data o)))
    as (F1 & F2 & F3 & F4 & F5 & F6).
  rewrite A5, I5 in T1. rewrite A7, I7 in T2. rewrite A8, I8 in T3. rewrite A6, I6 in T4.
  set (o1 := applyTransform data (animated data (applyIdentity data o))) in *.
  assert (∃ o2, o' = applyVisibility data o2 ∧ w' = w ∧
            oid o2 = oid o1 ∧ kind o2 = kind o1 ∧ levels o2 = levels o1 ∧
            uuid o2 = uuid o1 ∧ name o2 = name o1 ∧ position o2 = position o1 ∧
            quaternion o2 = quaternion o1 ∧ scale o2 = scale o1 ∧
            rotation o2 = rotation o1 ∧
            castShadow o2 = is_true (Data.castShadow data) ∧
            receiveShadow o2 = is_true (Data.receiveShadow data))
    as (o2 & -> & -> & ?).
  { destruct (Data.shadow data) as [json|].
    - simpl in H. destruct (shadow o1); run_inv H.
      eexists. split; [reflexivity|]. by repeat split.
    - run_inv H. eexists. split; [reflexivity|]. by repeat split. }
  split; [done|]. unfold applyVisibility.
  destruct_and!.
  split; frame oid; frame kind; frame levels; frame uuid; frame name; frame position;
    frame quaternion; frame scale; frame rotation; frame castShadow;
    frame receiveShadow; frame visible; congruence.
Qed.

(** ** What the later passes leave alone *)

Lemma same_attributes_refl o : same_attributes o o.
Proof. by split. Qed.

Lemma same_attributes_trans o1 o2 o3 :
  same_attributes o1 o2 → same_attributes o2 o3 → same_attributes o1 o3.
Proof. intros [] []. split; congruence. Qed.

Lemma attachChildren_same data o w o' w' :
  attachChildren data o w = (Normal o', w') →
  same_attributes o o' ∧ levels o' = levels o.
Proof. intros (built & ->)%attachChildren_form. by repeat split. Qed.

Lemma updateMatrixWorld_eq o :
  THREE.updateMatrixWorld o
  = set_children (map THREE.updateMatrixWorld (children o)) (refreshed o).
Proof. destruct o. reflexivity. Qed.

Lemma updateMatrixWorld_visit_all o : THREE.updateMatrixWorld o = visit_all refreshed o.
Proof.
  induction o as [o IH] using Object3D_tree_ind.
  rewrite updateMatrixWorld_eq, visit_all_eq. f_equal.
  induction IH as [|c l Hc _ IHl]; simpl; [done|]. by rewrite Hc, IHl.
Qed.

(** What the pass leaves of an object: its children, each brought up to
    date, and a matrix. *)
Lemma applyMatrixAutoUpdate_form data o :
  ∃ m,
    applyMatrixAutoUpdate data o
    = set_children (children (applyMatrixAutoUpdate data o))
        (set_matrix m
           (set_matrixAutoUpdate (default (matrixAutoUpdate o) (Data.matrixAutoUpdate data))
              o))
    ∧ (children (applyMatrixAutoUpdate data o) = children o
       ∨ children (applyMatrixAutoUpdate data o) = map (visit_all refreshed) (children o)).
Proof.
  unfold applyMatrixAutoUpdate.
  destruct (Data.matrixAutoUpdate data) as [[]|]; simpl.
  - exists (matrix o). split; [by destruct o | by left].
  - eexists. split; [reflexivity|]. right.
    apply map_ext. intros c. apply updateMatrixWorld_visit_all.
  - exists (matrix o). split; [by destruct o | by left].
Qed.

Lemma applyMatrixAutoUpdate_same data o :
  same_attributes o (applyMatrixAutoUpdate data o)
  ∧ levels (applyMatrixAutoUpdate data o) = levels o
  ∧ skeletonUUID (applyMatrixAutoUpdate data o) = skeletonUUID o.
Proof. destruct (applyMatrixAutoUpdate_form data o) as (m & -> & _). by repeat split. Qed.

Lemma bindSkeletons_Normal object skeletons w object' w' :
  bindSkeletons object skeletons w = (Normal object', w') →
  (skeletons = ∅ ∧ object' = object ∧ w' = w) ∨
  (skeletons ≠ ∅ ∧ object' = visit_all (bound skeletons) object
   ∧ w' = log (flat_map (unbound_warning skeletons) (THREE.nodes object)) w).
Proof.
  destruct (decide (skeletons = ∅)) as [->|Hne].
  - unfold bindSkeletons. rewrite map_size_empty. simpl. intros H. run_inv H. by left.
  - rewrite bindSkeletons_run by done. intros [= <- <-]. by right.
Qed.

Lemma bound_same skeletons o kids :
  same_attributes o (set_children kids (bound skeletons o))
  ∧ levels (set_children kids (bound skeletons o)) = levels o.
Proof.
  unfold bound. destruct (isSkinnedMesh o); [|by repeat split].
  destruct (skeletonUUID o) as [wanted|]; [|by repeat split].
  destruct (skeletons !! wanted); by repeat split.
Qed.

Lemma applySkeletons_same data o w o' w' :
  applySkeletons data o w = (Normal o', w') →
  same_attributes o o' ∧ levels o' = levels o.
Proof.
  unfold applySkeletons. destruct (Data.skeletons data) as [json|]; intros H.
  - run_inv H. apply bindSkeletons_Normal in H as [(_ & -> & _)|(_ & -> & _)].
    + by repeat split.
    + rewrite visit_all_eq. apply bound_same.
  - run_inv H. by repeat split.
Qed.

Lemma discarded_same data o :
  same_attributes o (discarded data o)
  ∧ levels (discarded data o) = levels o
  ∧ children (discarded data o) = children o
  ∧ skeletonUUID (discarded data o) = skeletonUUID o.
Proof. unfold discarded. destruct (Data.animations data); simpl; by repeat split. Qed.

Lemma parseAnimations_world array w r w' : parseAnimations array w = (r, w') → w' = w.
Proof.
  unfold parseAnimations. apply foldM_world. clear. intros acc json w r w'. unfold bind.
  destruct (THREE.AnimationClip_parse json w) as [[clip|e] w1] eqn:Hclip;
    apply AnimationClip_parse_world in Hclip as ->; by intros [= <- <-].
Qed.

(** [parseAnimations], when it returns, returns the empty array whatever
    it is given: the array it returns only ever grows by [push()] without
    an argument. *)
Lemma parseAnimations_empty array w animations w' :
  parseAnimations array w = (Normal animations, w') → animations = [].
Proof.
  unfold parseAnimations.
  cut (∀ (acc : list AnimationClip) w,
         foldM (λ animations json,
                  let* clip := THREE.AnimationClip_parse json in
                  let clip :=
                    match Animation.uuid json with
                    | Some uuid => mkAnimationClip (clip_parsed_from clip) (Some uuid)
                    | None => clip
                    end in
                  ret (push animations []))
               acc array w = (Normal animations, w') → animations = acc);
    [intros Hloop; apply Hloop|].
  induction array as [|json rest IH]; intros acc w0 H; simpl in H.
  - by run_inv H.
  - apply bind_Normal in H as (acc' & w1 & Hstep & H).
    apply bind_Normal in Hstep as (clip & w2 & _ & Hstep). run_inv Hstep.
    apply IH in H as ->. unfold push. by rewrite app_nil_r.
Qed.

Lemma parseAnimations_total array w :
  Forall parses array → ∃ parsed, parseAnimations array w = (Normal parsed, w).
Proof.
  unfold parseAnimations. intros Hall.
  cut (∀ acc : list AnimationClip,
         ∃ parsed,
           foldM (λ animations json,
                    let* clip := THREE.AnimationClip_parse json in
                    let clip :=
                      match Animation.uuid json with
                      | Some uuid => mkAnimationClip (clip_parsed_from clip) (Some uuid)
                      | None => clip
                      end in
                    ret (push animations []))
                 acc array w = (Normal parsed, w));
    [intros Hloop; apply Hloop|].
  induction Hall as [|json rest Hjson _ IH]; intros acc; simpl; [unfold ret; eauto|].
  unfold bind at 1. unfold bind at 1. rewrite (AnimationClip_parse_run _ _ Hjson).
  unfold ret at 1. apply IH.
Qed.

Lemma reparseAnimations_world data o w r w' :
  reparseAnimations data o w = (r, w') → w' = w.
Proof.
  unfold reparseAnimations. destruct (Data.animations data) as [array|];
    [|by intros [= <- <-]].
  unfold bind. destruct (parseAnimations array w) as [[parsed|e] w1] eqn:Hparsed;
    apply parseAnimations_world in Hparsed as ->; by intros [= <- <-].
Qed.

Lemma reparseAnimations_Normal data o w o' w' :
  reparseAnimations data o w = (Normal o', w') → o' = discarded data o ∧ w' = w.
Proof.
  unfold reparseAnimations, discarded.
  destruct (Data.animations data) as [array|]; simpl; intros H.
  - apply bind_Normal in H as (parsed & w1 & Hparsed & H). run_inv H.
    pose proof (parseAnimations_world _ _ _ _ Hparsed) as ->.
    by apply parseAnimations_empty in Hparsed as ->.
  - by run_inv H.
Qed.

Lemma reparseAnimations_run data o w :
  Forall parses (default [] (Data.animations data)) →
  reparseAnimations data o w = (Normal (discarded data o), w).
Proof.
  intros Hall.
  assert (∃ o', reparseAnimations data o w = (Normal o', w)) as [o' Hrun].
  { unfold reparseAnimations. destruct (Data.animations data) as [array|]; simpl in *;
      [|unfold ret; eauto].
    destruct (parseAnimations_total array w Hall) as [parsed Hparsed].
    rewrite (bind_step _ _ _ _ _ Hparsed). unfold ret. eauto. }
  rewrite Hrun. by apply reparseAnimations_Normal in Hrun as [-> _].
Qed.

Lemma lodLevels_form levels0 :
  ∀ o w o' w',
    foldM (λ object level,
             match THREE.getObjectByProperty_uuid (Level.object level) object with
             | Some child => addLevel child (Level.distance level) object
             | None => ret object
             end) o levels0 w = (Normal o', w') →
    ∃ registered, o' = set_levels (levels o ++ registered) o ∧ w' = w.
Proof.
  induction levels0 as [|level rest IH]; intros o w o' w' H; simpl in H.
  - run_inv H. exists []. rewrite app_nil_r. by destruct o'.
  - apply bind_Normal in H as (o1 & w1 & Hstep & H).
    apply IH in H as (registered & -> & ->).
    destruct (THREE.getObjectByProperty_uuid (Level.object level) o) as [child|].
    + unfold addLevel in Hstep. destruct (decide (kind o = Kind.LOD)); [|done].
      run_inv Hstep. eexists. simpl. by rewrite <- app_assoc.
    + run_inv Hstep. eauto.
Qed.

Lemma postProcess_form data o w o' w' :
  postProcess data o w = (Normal o', w') →
  ∃ resources0 cameras0 levels0,
    o' = set_resources resources0 (set_cameras cameras0 (set_levels levels0 o)) ∧ w' = w.
Proof.
  unfold postProcess, copyResources, sceneCameras, lodLevels. intros H.
  destruct (decide (Data.type data = "Program")); [|
    destruct (decide (Data.type data = "Scene")); [|
      destruct (decide (Data.type data = "LOD"))]].
  - destruct (decide (kind o = Kind.Program)); run_inv H.
    eexists _, (cameras o), (levels o). by destruct o.
  - destruct (cameras o) as [entries|] eqn:Hc; run_inv H.
    exists (resources o), (Some (resolveCameras (length entries) o 0 entries)), (levels o).
    clear Hc. by destruct o.
  - destruct (Data.levels data); [|done].
    apply lodLevels_form in H as (registered & -> & ->).
    exists (resources o), (cameras o), (levels o ++ registered). by destruct o.
  - run_inv H.
    match goal with
    | |- ∃ _ _ _, ?x = _ ∧ _ => exists (resources x), (cameras x), (levels x); by destruct x
    end.
Qed.

Lemma postProcess_same data o w o' w' :
  postProcess data o w = (Normal o', w') →
  same_attributes o o' ∧ animations o' = animations o ∧ children o' = children o
  ∧ skeletonUUID o' = skeletonUUID o.
Proof. intros (r & c & l & -> & _)%postProcess_form. by repeat split. Qed.

(** ** The passes of [parseObject], put together *)

Lemma finish_Normal data o w o' w' :
  finish data o w = (Normal o', w') →
  ∃ o1 w1,
    applySkeletons data (applyMatrixAutoUpdate data o) w = (Normal o1, w1)
    ∧ postProcess data (discarded data o1) w1 = (Normal o', w').
Proof.
  unfold finish. intros H. apply bind_Normal in H as (o1 & w1 & Hbind & H).
  apply bind_Normal in H as (o2 & w2 & Hre & H).
  apply reparseAnimations_Normal in Hre as [-> ->]. eauto.
Qed.

Lemma finish_same data o w o' w' :
  finish data o w = (Normal o', w') → same_attributes o o'.
Proof.
  intros H. apply finish_Normal in H as (o1 & w1 & Hskeletons & Hpost).
  apply applySkeletons_same in Hskeletons as [Hskeletons _].
  apply postProcess_same in Hpost as [Hpost _].
  destruct (applyMatrixAutoUpdate_same data o) as [Hstatic _].
  destruct (discarded_same data o1) as [Hanimations _].
  eauto using same_attributes_trans.
Qed.

Lemma parseObject_passes data w object w' :
  parseObject data w = (Normal object, w') →
  ∃ created w0 attributed,
    create data (parseDefaultCamera data) w = (Normal created, w0) ∧
    attributes_applied data created attributed ∧
    same_attributes attributed object.
Proof.
  rewrite parseObject_eq. intros H.
  apply bind_Normal in H as (created & w0 & Hcreate & H).
  apply bind_Normal in H as (attributed & w1 & Happly & H).
  apply bind_Normal in H as (parent & w2 & Hchildren & H).
  apply applyAttributes_Normal in Happly as [-> Happly].
  apply attachChildren_same in Hchildren as [Hchildren _].
  apply finish_same in H.
  exists created, w0, attributed. eauto using same_attributes_trans.
Qed.

(** [create] always hands an object to the attribute pass. *)
Lemma create_total data parseCamera w :
  ∃ object w', create data parseCamera w = (Normal object, w').
Proof.
  unfold create, try_catch.
  destruct (construct data parseCamera w) as [[object|e] w1]; [eauto|].
  rewrite (bind_step _ _ _ _ _ (emit_run _ _)), new_run. eauto.
Qed.

Lemma select_unknown type cases : type ∉ cases.*1 → select type cases = None.
Proof.
  induction cases as [|[label arm] rest IH]; simpl; [done|].
  intros [Hne Hrest]%not_elem_of_cons. rewrite decide_False by done. auto.
Qed.

Lemma create_unknown data parseCamera w :
  Data.type data ∉ case_labels →
  create data parseCamera w
  = (Normal (THREE.constructed Kind.Container (next_oid w)), allocate 1 w).
Proof.
  intros Hunknown. unfold create, try_catch, construct.
  rewrite (select_unknown _ _ Hunknown). by rewrite new_run.
Qed.

(** ** Flags, transform and animations *)



(** C7, amended.  For a record that has a [matrix], the position and the
    scale of the object are those of the explicit array of the record
    where it has one, and the ones decomposed from the matrix where it has
    none.  The rotation and the quaternion are two views of one
    orientation, and the last write to either decides both.  With an
    explicit [quaternion] array the quaternion is that array and the
    rotation is derived from it, whatever the [rotation] array says; with
    an explicit [rotation] array alone the rotation is that array and the
    quaternion is derived from it; with neither, the quaternion is the one
    decomposed from the matrix and the rotation is derived from it. *)
Theorem explicit_components_override_matrix data m w object w' :
  Data.matrix data = Some m →
  parseObject data w = (Normal object, w') →
  position object = match Data.position data with
                    | Some array => fromArray array
                    | None => decomposed m
                    end ∧
  scale object = match Data.scale data with
                 | Some array => fromArray array
                 | None => decomposed m
                 end ∧
  quaternion object = match Data.quaternion data, Data.rotation data with
                      | Some array, _ => fromArray array
                      | None, Some array => setFromEuler (fromArray array)
                      | None, None => decomposed m
                      end ∧
  rotation object = match Data.quaternion data, Data.rotation data with
                    | Some array, _ => setFromQuaternion (fromArray array)
                    | None, Some array => fromArray array
                    | None, None => setFromQuaternion (decomposed m)
                    end.
Proof.
  intros Hmatrix (created & w0 & attributed & _ & Happlied & Hsame)%parseObject_passes.
  destruct Happlied, Hsame.
  unfold last_written, quaternion_written, rotation_written in *. rewrite Hmatrix in *.
  repeat split; [congruence..| |];
    destruct (Data.quaternion data), (Data.rotation data); congruence.
Qed.

Lemma explicit_components_override_matrix_witness :
  ∃ object w',
    parseObject moved_group fresh = (Normal object, w') ∧
    position object = decomposed [1; 0; 0; 0; 0; 1; 0; 0; 0; 0; 1; 0; 5; 6; 7; 1]%Z ∧
    scale object = fromArray [2; 2; 2]%Z ∧
    rotation object
    = setFromQuaternion (decomposed [1; 0; 0; 0; 0; 1; 0; 0; 0; 0; 1; 0; 5; 6; 7; 1]%Z).
Proof.
  eexists _, _. split; [vm_compute; reflexivity|].
  destruct (explicit_components_override_matrix moved_group _ fresh _ _ eq_refl eq_refl)
    as (Hposition & Hscale & _ & Hrotation).
  auto.
Defined.

(** C7, as stated, fails on the orientation.  In [turned_group] the
    explicit [rotation] array does not win: the [quaternion] array is
    written after it, and the rotation of the object is the one derived
    from that quaternion.  In [tilted_group] the quaternion has no explicit
    array and still does not keep the value decomposed from the matrix:
    the write of the [rotation] array replaces it. *)
Lemma explicit_rotation_does_not_win :
  (∃ object w',
     parseObject turned_group fresh = (Normal object, w') ∧
     Data.rotation turned_group = Some [0; 1; 0]%Z ∧
     rotation object = setFromQuaternion (fromArray [0; 0; 0; 1]%Z) ∧
     rotation object ≠ fromArray [0; 1; 0]%Z) ∧
  (∃ object w',
     parseObject tilted_group fresh = (Normal object, w') ∧
     Data.quaternion tilted_group = None ∧
     quaternion object = setFromEuler (fromArray [0; 1; 0]%Z) ∧
     quaternion object ≠ decomposed [1; 0; 0; 0; 0; 1; 0; 0; 0; 0; 1; 0; 5; 6; 7; 1]%Z).
Proof.
  split; eexists _, _; (split; [vm_compute; reflexivity|]);
    (split; [reflexivity|]); (split; [reflexivity|]); discriminate.
Qed.

(** The array that [parseAnimations] returns replaces the clips of the
    object: whenever [parseObject] returns on a record with an
    [animations] array, the object has no clip. *)
Lemma animations_discarded data array w object w' :
  Data.animations data = Some array →
  parseObject data w = (Normal object, w') →
  animations object = [].
Proof.
  intros Harray. rewrite parseObject_eq. intros H.
  apply bind_Normal in H as (created & w0 & _ & H).
  apply bind_Normal in H as (attributed & w1 & _ & H).
  apply bind_Normal in H as (parent & w2 & _ & H).
  apply finish_Normal in H as (o1 & w3 & _ & H).
  apply postProcess_same in H as (_ & -> & _).
  unfold discarded. by rewrite Harray.
Qed.

(** An animation record without [tracks] makes [AnimationClip.parse]
    throw in the first loop over the animations, which no [try]
    surrounds: [parseObject] does not return. *)
Example clip_without_tracks_throws :
  ∃ w', parseObject widget_with_bare_clip fresh = (Thrown (undefined_read "length"), w').
Proof. eexists. vm_compute. reflexivity. Qed.

(** C3.  The object built from a record with two animation records, each
    with an empty array of tracks, has no animation clip at all.
    [parseObject] returns; the first loop of the attribute pass had filled
    the list with one clip per record; that list is then replaced by the
    result of [parseAnimations], which is empty. *)
Theorem animations_of_walking_group :
  ∃ object w',
    parseObject walking_group fresh = (Normal object, w') ∧
    (∃ filled,
       applyAnimations walking_group (THREE.constructed Kind.Container 0) fresh
       = (Normal filled, fresh) ∧
       animations filled
       = [mkAnimationClip (Animation.mk "walk" None (Some [])) None;
          mkAnimationClip (Animation.mk "run" (Some "clip-2") (Some [])) None]) ∧
    animations object = [].
Proof.
  eexists _, _. split; [vm_compute; reflexivity|]. split; [|reflexivity].
  eexists. split; [vm_compute; reflexivity|]. reflexivity.
Qed.

(** ** Scene cameras *)

Lemma resolveCameras_kept object fuel :
  ∀ visited unvisited,
    (length unvisited ≤ fuel)%nat →
    resolveCameras fuel object (length visited) (visited ++ unvisited)
    = visited ++ kept object unvisited.
Proof.
  induction fuel as [|fuel IH]; intros visited unvisited Hfuel.
  - destruct unvisited; [done | simpl in Hfuel; lia].
  - simpl. destruct unvisited as [|entry rest].
    + rewrite app_nil_r, lookup_ge_None_2 by lia. simpl. by rewrite app_nil_r.
    + rewrite list_lookup_middle by done. simpl in Hfuel.
      destruct (getCamera entry object) as [camera|] eqn:Hcamera; simpl; rewrite Hcamera.
      * rewrite insert_app_r_alt, Nat.sub_diag by lia. simpl.
        rewrite (cons_middle _ visited rest), app_assoc.
        replace (S (length visited)) with (length (visited ++ [cameraObject (oid camera)]))
          by (rewrite length_app; simpl; lia).
        rewrite IH by lia. by rewrite <- app_assoc.
      * rewrite delete_middle. destruct rest as [|stepped_over rest'].
        -- rewrite app_nil_r. destruct fuel; [done|]. simpl.
           by rewrite lookup_ge_None_2 by lia.
        -- rewrite (cons_middle _ visited rest'), app_assoc.
           replace (S (length visited)) with (length (visited ++ [stepped_over]))
             by (rewrite length_app; simpl; lia).
           simpl in Hfuel. rewrite IH by lia. by rewrite <- app_assoc.
Qed.

Lemma sceneCameras_kept object entries w :
  cameras object = Some entries →
  sceneCameras object w = (Normal (set_cameras (Some (kept object entries)) object), w).
Proof.
  intros Hentries. unfold sceneCameras. rewrite Hentries.
  by rewrite (resolveCameras_kept object _ [] entries).
Qed.

(** The case the specification gives: of [["uuid1", "uuid2"]] only the
    first resolves, and the list ends up holding that camera alone. *)
Example cameras_first_resolves :
  ∃ object w',
    parseObject (scene_with_camera "uuid1") fresh = (Normal object, w') ∧
    cameras object = Some [cameraObject 1] ∧
    oid <$> THREE.getObjectByProperty_uuid "uuid1" object = Some 1.
Proof. eexists _, _. split; [vm_compute; reflexivity|]. split; reflexivity. Qed.

(** C2.  Of [["uuid1", "uuid2"]] only the second resolves.  The first
    entry is removed, the second moves to index 0 and the loop goes on at
    index 1: the list ends up holding the string ["uuid2"], not the camera
    it names. *)
Theorem cameras_second_resolves :
  ∃ object w',
    parseObject (scene_with_camera "uuid2") fresh = (Normal object, w') ∧
    THREE.getObjectByProperty_uuid "uuid1" object = None ∧
    oid <$> THREE.getObjectByProperty_uuid "uuid2" object = Some 1 ∧
    cameras object = Some [cameraUUID "uuid2"].
Proof. eexists _, _. split; [vm_compute; reflexivity|]. repeat split; reflexivity. Qed.

(** ** Tree lookup *)

Lemma getObjectByProperty_uuid_eq value object :
  THREE.getObjectByProperty_uuid value object
  = if decide (uuid object = declared value) then Some object
    else first_of value (children object).
Proof.
  destruct object as [? ? ? ? ? ? ? ? ? ? ? ? ? ? ? ? ? ? ? ? kids ? ? ? ? ? ?]. simpl.
  case_decide; [done|]. induction kids as [|kid kids IH]; simpl; [done|].
  by rewrite IH.
Qed.

(** Which object a lookup finds depends on the UUIDs of the tree only. *)
Lemma lookup_same_root value o o' :
  oid o' = oid o → uuid o' = uuid o → children o' = children o →
  oid <$> THREE.getObjectByProperty_uuid value o'
  = oid <$> THREE.getObjectByProperty_uuid value o.
Proof.
  intros Hoid Huuid Hchildren. rewrite !getObjectByProperty_uuid_eq, Huuid, Hchildren.
  case_decide; simpl; congruence.
Qed.

(** ** LOD levels *)

Lemma registered_cons o level rest :
  registered o (level :: rest)
  = match THREE.getObjectByProperty_uuid (Level.object level) o with
    | Some child => mkLODLevel (oid child) (Level.distance level) :: registered o rest
    | None => registered o rest
    end.
Proof.
  unfold registered. simpl.
  by destruct (THREE.getObjectByProperty_uuid (Level.object level) o).
Qed.

Lemma registered_same_root o o' levels0 :
  oid o' = oid o → uuid o' = uuid o → children o' = children o →
  registered o' levels0 = registered o levels0.
Proof.
  intros Hoid Huuid Hchildren.
  induction levels0 as [|level rest IH]; [done|]. rewrite !registered_cons, IH.
  pose proof (lookup_same_root (Level.object level) o o' Hoid Huuid Hchildren) as Hsame.
  destruct (THREE.getObjectByProperty_uuid (Level.object level) o'),
           (THREE.getObjectByProperty_uuid (Level.object level) o);
    simpl in *; congruence.
Qed.

Lemma lodLevels_run levels0 :
  ∀ o w,
    kind o = Kind.LOD →
    foldM (λ object level,
             match THREE.getObjectByProperty_uuid (Level.object level) object with
             | Some child => addLevel child (Level.distance level) object
             | None => ret object
             end) o levels0 w
    = (Normal (set_levels (levels o ++ registered o levels0) o), w).
Proof.
  induction levels0 as [|level rest IH]; intros o w Hkind.
  - unfold ret, registered. simpl. rewrite app_nil_r. by destruct o.
  - rewrite registered_cons. cbn [foldM].
    destruct (THREE.getObjectByProperty_uuid (Level.object level) o) as [child|].
    + unfold addLevel. rewrite decide_True by done.
      unfold bind, ret. rewrite IH by done. simpl.
      rewrite (registered_same_root o _ rest) by done.
      by rewrite <- app_assoc.
    + unfold bind, ret. by rewrite IH.
Qed.

Lemma create_LOD data parseCamera w :
  Data.type data = "LOD" →
  create data parseCamera w
  = (Normal (THREE.constructed Kind.LOD (next_oid w)), allocate 1 w).
Proof.
  intros Htype. unfold create, try_catch, construct. rewrite Htype.
  change (select "LOD" switch) with (Some (constructs Kind.LOD)).
  unfold constructs. by rewrite new_run.
Qed.

(** C8.  For a LOD record with a [levels] array, the object registers
    exactly the levels whose UUID an object of its tree carries, in
    declared order, each with the object found and the declared distance.
    The loop over the levels completes on every LOD object and leaves the
    console untouched, whatever the levels resolve to. *)
Theorem lod_registers_resolved_levels data levels0 w object w' :
  Data.type data = "LOD" →
  Data.levels data = Some levels0 →
  parseObject data w = (Normal object, w') →
  kind object = Kind.LOD ∧
  levels object
  = omap (λ level,
            (λ child, mkLODLevel (oid child) (Level.distance level))
              <$> THREE.getObjectByProperty_uuid (Level.object level) object)
         levels0 ∧
  (∀ lod w0, kind lod = Kind.LOD → ∃ lod', lodLevels data lod w0 = (Normal lod', w0)).
Proof.
  intros Htype Hlevels. rewrite parseObject_eq. intros H.
  apply bind_Normal in H as (created & w0 & Hcreate & H).
  apply bind_Normal in H as (attributed & w1 & Happly & H).
  apply bind_Normal in H as (parent & w2 & Hchildren & H).
  apply finish_Normal in H as (o1 & w3 & Hskeletons & H).
  rewrite create_LOD in Hcreate by done. injection Hcreate as <- <-.
  apply applyAttributes_Normal in Happly as [-> [_ Hk1 Hl1 _ _ _ _ _ _ _ _ _]].
  apply attachChildren_same in Hchildren as [[_ Hk2 _ _ _ _ _ _ _ _ _] Hl2].
  destruct (applyMatrixAutoUpdate_same data parent) as ([_ Hk3 _ _ _ _ _ _ _ _ _] & Hl3 & _).
  apply applySkeletons_same in Hskeletons as [[_ Hk4 _ _ _ _ _ _ _ _ _] Hl4].
  destruct (discarded_same data o1) as ([_ Hk5 _ _ _ _ _ _ _ _ _] & Hl5 & _).
  set (lod := discarded data o1) in *.
  assert (kind lod = Kind.LOD) as Hkind by (simpl in *; congruence).
  assert (levels lod = []) as Hnone by (simpl in *; congruence).
  unfold postProcess in H. rewrite Htype in H. simpl in H.
  unfold lodLevels in H. rewrite Hlevels in H.
  rewrite lodLevels_run in H by done. injection H as <- <-.
  split; [done|]. split.
  - change (levels lod ++ registered lod levels0
            = registered (set_levels (levels lod ++ registered lod levels0) lod) levels0).
    rewrite Hnone. symmetry. by apply registered_same_root.
  - intros lod0 w4 Hlod. unfold lodLevels. rewrite Hlevels.
    rewrite lodLevels_run by done. eauto.
Qed.

Lemma lod_registers_resolved_levels_witness :
  ∃ object w',
    parseObject two_level_lod fresh = (Normal object, w') ∧
    levels object = [mkLODLevel 1 10%Z].
Proof.
  destruct (parseObject two_level_lod fresh) as [[object|e] w'] eqn:Hrun;
    [|by vm_compute in Hrun].
  exists object, w'. split; [done|].
  destruct (lod_registers_resolved_levels two_level_lod _ fresh _ _ eq_refl eq_refl Hrun)
    as (_ & Hlevels & _).
  rewrite Hlevels. vm_compute in Hrun. injection Hrun as <- <-. reflexivity.
Defined.

(** ** Skinned meshes after binding *)

Lemma parseSkeletons_nonempty json object w skeletons w1 :
  json ≠ [] →
  parseSkeletons (Some json) object w = (Normal skeletons, w1) →
  skeletons ≠ ∅.
Proof.
  unfold parseSkeletons. intros Hjson.
  generalize (∅ : gmap string Skeleton) at 1. intros acc H.
  assert (json ≠ [] ∨ acc ≠ ∅) as Hne by auto. clear Hjson.
  revert acc w H Hne. induction json as [|sp rest IH]; intros acc w H Hne; simpl in H.
  - run_inv H. by destruct Hne.
  - apply bind_Normal in H as (acc' & w2 & Hstep & H).
    apply bind_Normal in Hstep as (pair & w3 & _ & Hstep). run_inv Hstep.
    eapply IH; [exact H|]. right. apply insert_non_empty.
Qed.

Lemma bound_no_skeletonUUID skeletons n kids :
  no_skeletonUUID (set_children kids (bound skeletons n)).
Proof.
  unfold no_skeletonUUID, bound, isSkinnedMesh.
  destruct (bool_decide (kind n = Kind.SkinnedMesh)) eqn:Hskinned; simpl.
  - destruct (skeletonUUID n) as [wanted|] eqn:Hwanted; simpl; [|done].
    by destruct (skeletons !! wanted).
  - intros Hkind. simpl in Hkind. congruence.
Qed.

Lemma visit_all_bound_no_skeletonUUID skeletons object :
  Forall no_skeletonUUID (THREE.nodes (visit_all (bound skeletons) object)).
Proof.
  pose proof (nodes_visit_all (bound skeletons) object) as Hnodes.
  induction Hnodes as [|n n' l l' [kids ->] _ IH]; constructor; [|exact IH].
  apply bound_no_skeletonUUID.
Qed.

Lemma no_skeletonUUID_same_root o o' :
  kind o' = kind o → skeletonUUID o' = skeletonUUID o → children o' = children o →
  Forall no_skeletonUUID (THREE.nodes o) → Forall no_skeletonUUID (THREE.nodes o').
Proof.
  intros Hkind Huuid Hchildren. rewrite (nodes_eq o), (nodes_eq o'), Hchildren.
  intros [Hroot Hrest]%Forall_cons. constructor; [|exact Hrest].
  unfold no_skeletonUUID, isSkinnedMesh in *. by rewrite Hkind, Huuid.
Qed.






(** ** Records of unknown type *)

Lemma applyAttributes_total data o w :
  Data.shadow data = None →
  Forall parses (default [] (Data.animations data)) →
  ∃ o', applyAttributes data o w = (Normal o', w).
Proof.
  intros Hshadow Hall. unfold applyAttributes.
  rewrite (bind_step _ _ _ _ _ (applyAnimations_run data _ w Hall)).
  unfold applyShadow. rewrite Hshadow. unfold bind, ret. eauto.
Qed.

Lemma attachChildren_total data :
  (∀ child, child ∈ default [] (Data.children data) →
     ∀ w, ∃ built w', parseObject child w = (Normal built, w')) →
  ∀ o w, ∃ o' w', attachChildren data o w = (Normal o', w').
Proof.
  unfold attachChildren. destruct (Data.children data) as [children0|]; simpl;
    [|unfold ret; eauto].
  induction children0 as [|child rest IH]; intros Hchildren o w; simpl.
  - unfold ret. eauto.
  - destruct (Hchildren child (list_elem_of_here _ _) w) as (built & w1 & Hbuilt).
    unfold bind at 1. unfold bind at 1. rewrite Hbuilt. unfold ret at 1.
    apply IH. intros child' Hin. apply Hchildren. by right.
Qed.

Lemma bindSkeletons_total object skeletons w :
  ∃ object' w', bindSkeletons object skeletons w = (Normal object', w').
Proof.
  destruct (decide (skeletons = ∅)) as [->|Hne].
  - unfold bindSkeletons. rewrite map_size_empty. simpl. unfold ret. eauto.
  - rewrite bindSkeletons_run by done. eauto.
Qed.

Lemma applySkeletons_total data o w :
  Forall complete (default [] (Data.skeletons data)) →
  ∃ o' w', applySkeletons data o w = (Normal o', w').
Proof.
  unfold applySkeletons. destruct (Data.skeletons data) as [json|]; simpl;
    [|unfold ret; eauto].
  intros Hcomplete. rewrite (bind_step _ _ _ _ _ (parseSkeletons_run o json w Hcomplete)).
  apply bindSkeletons_total.
Qed.

Lemma finish_total data o w :
  Forall complete (default [] (Data.skeletons data)) →
  Forall parses (default [] (Data.animations data)) →
  (∀ o1 w1, postProcess data o1 w1 = (Normal o1, w1)) →
  ∃ o' w', finish data o w = (Normal o', w').
Proof.
  intros Hskeletons Hall Hpost. unfold finish.
  destruct (applySkeletons_total data (applyMatrixAutoUpdate data o) w Hskeletons)
    as (o1 & w1 & Hbind).
  rewrite (bind_step _ _ _ _ _ Hbind).
  rewrite (bind_step _ _ _ _ _ (reparseAnimations_run data o1 w1 Hall)).
  rewrite Hpost. eauto.
Qed.

Lemma known_labels :
  "Program" ∈ case_labels ∧ "Scene" ∈ case_labels ∧ "LOD" ∈ case_labels.
Proof.
  repeat split; unfold case_labels; simpl;
    repeat first [apply list_elem_of_here | apply list_elem_of_further].
Qed.

Lemma postProcess_unknown data o w :
  Data.type data ∉ case_labels → postProcess data o w = (Normal o, w).
Proof.
  intros Hunknown. destruct known_labels as (HProgram & HScene & HLOD).
  unfold postProcess. by rewrite !decide_False by congruence.
Qed.


Lemma FutureWidget_unknown : "FutureWidget" ∉ case_labels.
Proof. apply (bool_decide_unpack _). by vm_compute. Qed.



(** ** Console output and callbacks *)

Lemma quiet_ret {A} (a : A) : quiet (ret a).
Proof. intros w r w' [= <- <-]. exists []. by rewrite app_nil_r. Qed.

Lemma quiet_throw {A} e : quiet (@throw A e).
Proof. intros w r w' [= <- <-]. exists []. by rewrite app_nil_r. Qed.

Lemma quiet_bind {A B} (m : M A) (k : A → M B) :
  quiet m → (∀ a, quiet (k a)) → quiet (bind m k).
Proof.
  intros Hm Hk w r w'. unfold bind.
  destruct (m w) as [[a|e] w1] eqn:Hrun.
  - intros Hrest. destruct (Hm _ _ _ Hrun) as (es1 & E1 & H1).
    destruct (Hk _ _ _ _ Hrest) as (es2 & E2 & H2).
    exists (es1 ++ es2). rewrite E2, E1, app_assoc. split; [done|]. by apply Forall_app.
  - intros [= <- <-]. exact (Hm _ _ _ Hrun).
Qed.

Lemma quiet_try_catch {A} (m : M A) handler :
  quiet m → (∀ e, quiet (handler e)) → quiet (try_catch m handler).
Proof.
  intros Hm Hh w r w'. unfold try_catch.
  destruct (m w) as [[a|e] w1] eqn:Hrun.
  - intros [= <- <-]. exact (Hm _ _ _ Hrun).
  - intros Hrest. destruct (Hm _ _ _ Hrun) as (es1 & E1 & H1).
    destruct (Hh _ _ _ _ Hrest) as (es2 & E2 & H2).
    exists (es1 ++ es2). rewrite E2, E1, app_assoc. split; [done|]. by apply Forall_app.
Qed.

Lemma quiet_emit e : is_console e → quiet (emit e).
Proof. intros He w r w' [= <- <-]. exists [e]. split; [done|]. by constructor. Qed.

Lemma quiet_new k : quiet (THREE.new k).
Proof. intros w r w' [= <- <-]. exists []. by rewrite app_nil_r. Qed.

Lemma quiet_get_this : quiet get_this.
Proof. intros w r w' [= <- <-]. exists []. by rewrite app_nil_r. Qed.

Lemma quiet_update_this f : quiet (update_this f).
Proof. intros w r w' [= <- <-]. exists []. by rewrite app_nil_r. Qed.

Lemma quiet_foldM {A B} (body : B → A → M B) l :
  Forall (λ x, ∀ acc, quiet (body acc x)) l → ∀ acc, quiet (foldM body acc l).
Proof.
  induction 1 as [|x l Hx _ IH]; intros acc; simpl; [apply quiet_ret|].
  apply quiet_bind; auto.
Qed.

Lemma quiet_mapM {A B} (f : A → M B) l :
  Forall (λ x, quiet (f x)) l → quiet (mapM f l).
Proof.
  induction 1 as [|x l Hx _ IH]; simpl; [apply quiet_ret|].
  apply quiet_bind; [done|]. intros y. apply quiet_bind; [done|]. intros ys. apply quiet_ret.
Qed.

Lemma quiet_traverse callback :
  (∀ obj, quiet (callback obj)) → ∀ object, quiet (THREE.traverse callback object).
Proof.
  intros Hcb object. induction object as [object IH] using Object3D_tree_ind.
  rewrite traverse_eq. apply quiet_bind; [done|]. intros visited.
  apply quiet_bind; [by apply quiet_mapM|]. intros kids. apply quiet_ret.
Qed.

(** A computation that leaves the world as it is prints nothing. *)
Lemma quiet_of_world {A} (m : M A) : (∀ w r w', m w = (r, w') → w' = w) → quiet m.
Proof. intros Hm w r w' Hrun. apply Hm in Hrun as ->. exists []. by rewrite app_nil_r. Qed.

Lemma quiet_applyAttributes data object : quiet (applyAttributes data object).
Proof. apply quiet_of_world. intros w r w'. apply applyAttributes_world. Qed.

Lemma quiet_reparseAnimations data object : quiet (reparseAnimations data object).
Proof. apply quiet_of_world. intros w r w'. apply reparseAnimations_world. Qed.

Create HintDb quiet.
#[local] Hint Resolve quiet_ret quiet_throw quiet_new quiet_get_this quiet_update_this : quiet.
#[local] Hint Extern 1 (quiet (emit _)) => apply quiet_emit; exact I : quiet.
#[local] Hint Extern 2 (quiet (bind _ _)) => apply quiet_bind; [|intros ?] : quiet.
#[local] Hint Extern 2 (quiet (try_catch _ _)) => apply quiet_try_catch; [|intros ?] : quiet.
#[local] Hint Extern 3 (quiet (match ?x with _ => _ end)) => destruct x : quiet.
#[local] Hint Extern 3 (quiet (if ?x then _ else _)) => destruct x : quiet.

(** ** Records within records *)

Lemma Data_tree_ind (P : Data.t → Prop) :
  (∀ data,
     Forall P (default [] (Data.children data)) → Forall P (camera_roots data) → P data) →
  ∀ data, P data.
Proof.
  intros step. fix IH 1. intros data. apply step.
  - destruct data as [? ? ? ? ? ? ? ? ? ? ? ? ? ? ? ? ? ? ? ? kids ? ? ? ? ? ? ? ? ? ? ?].
    simpl. destruct kids as [kids|]; simpl; [|constructor].
    induction kids as [|kid kids IHkids]; constructor; [apply IH | exact IHkids].
  - destruct data as [? ? ? ? ? ? ? ? ? ? ? ? ? ? ? ? ? ? ? ? ? ? ? ? ? ? camera ? ? ? ? ?].
    unfold camera_roots. simpl. destruct camera as [[? ? ? ? ? ? ? ? ? [root|]]|]; simpl;
      repeat constructor. apply IH.
Qed.

Lemma quiet_parse_with (root : M Object3D) json :
  quiet root → quiet (parse_with root json None).
Proof.
  intros Hroot. unfold parse_with, parseResources, parseShape, parseGeometries,
    parseImages, parseVideos, parseAudio, parseFonts, parseTextures, parseMaterials,
    populate.
  repeat (apply quiet_bind; [auto with quiet | intros ?]).
  auto with quiet.
Qed.

Lemma quiet_parseObject_undefined : quiet parseObject_undefined.
Proof. unfold parseObject_undefined. auto with quiet. Qed.

Lemma quiet_arms :
  Forall (λ case : string * Arm,
            ∀ data parseCamera,
              (∀ run, parseCamera = Some run → quiet run) → quiet (case.2 data parseCamera))
         switch.
Proof.
  unfold switch.
  repeat constructor; simpl; intros data parseCamera Hcamera;
    unfold constructs, case_SpineAnimation, case_LensFlare, case_Scene, case_SkinnedMesh,
      case_InstancedMesh, case_Mesh, case_Sky, case_OrbitControls,
      case_PerspectiveCamera, case_OrthographicCamera, readViewport, case_LightProbe,
      getGeometry; auto 10 with quiet.
Qed.

Lemma quiet_construct data parseCamera :
  (∀ run, parseCamera = Some run → quiet run) → quiet (construct data parseCamera).
Proof.
  intros Hcamera. unfold construct.
  destruct (select (Data.type data) switch) as [arm|] eqn:Hselect; [|auto with quiet].
  pose proof quiet_arms as Harms. revert Hselect.
  induction Harms as [|[label arm0] rest Harm _ IH]; simpl; [done|].
  case_decide; [intros [= <-]; by apply Harm | exact IH].
Qed.

Lemma quiet_bindSkeletons object skeletons : quiet (bindSkeletons object skeletons).
Proof.
  unfold bindSkeletons. destruct (bool_decide _); [auto with quiet|].
  apply quiet_traverse. intros obj. unfold bindSkeleton. auto 10 with quiet.
Qed.

Lemma quiet_parseBones object inverses boneParams :
  ∀ j bones0 inverses0, quiet (parseBones object inverses boneParams j bones0 inverses0).
Proof.
  induction boneParams as [|u rest IH]; intros j bones0 inverses0; simpl;
    [auto with quiet|].
  apply quiet_bind; [auto with quiet | intros bone].
  apply quiet_bind; [auto 10 with quiet | intros inverse]. apply IH.
Qed.

Lemma quiet_parseSkeletons json object : quiet (parseSkeletons json object).
Proof.
  unfold parseSkeletons. destruct json as [json|]; [|auto with quiet].
  apply quiet_foldM. apply Forall_forall. intros sp _ acc.
  apply quiet_bind; [apply quiet_parseBones | auto with quiet].
Qed.

Lemma quiet_finish data object : quiet (finish data object).
Proof.
  unfold finish. apply quiet_bind.
  - unfold applySkeletons. destruct (Data.skeletons data); [|auto with quiet].
    apply quiet_bind; [apply quiet_parseSkeletons | intros ?; apply quiet_bindSkeletons].
  - intros o1. apply quiet_bind; [apply quiet_reparseAnimations | intros o2].
    unfold postProcess, copyResources, sceneCameras, lodLevels.
    repeat case_decide; auto with quiet.
    destruct (Data.levels data); [|auto with quiet].
    apply quiet_foldM. apply Forall_forall. intros level _ acc.
    unfold addLevel. auto with quiet.
Qed.

(** [parseObject] never invokes a callback. *)
Lemma quiet_parseObject data : quiet (parseObject data).
Proof.
  induction data as [data IHchildren IHcamera] using Data_tree_ind.
  rewrite parseObject_eq.
  apply quiet_bind; [|intros created; apply quiet_bind; [|intros attributed; apply quiet_bind]].
  - unfold create. apply quiet_try_catch; [|auto with quiet].
    apply quiet_construct. intros run. unfold parseDefaultCamera.
    unfold camera_roots in IHcamera.
    destruct (Data.defaultCamera data) as [json|]; [|done].
    intros [= <-]. unfold parse. apply quiet_parse_with.
    destruct (Json.object json) as [root|]; [|apply quiet_parseObject_undefined].
    by apply Forall_inv in IHcamera.
  - apply quiet_applyAttributes.
  - unfold attachChildren. destruct (Data.children data) as [kids|]; [|auto with quiet].
    apply quiet_foldM. simpl in IHchildren.
    eapply Forall_impl; [exact IHchildren|]. intros child Hchild acc. simpl.
    auto with quiet.
  - intros parent. apply quiet_finish.
Qed.

(** ** Completion of [parse] *)

Lemma resource_parsers (json : Json.t Data.t) :
  resource_parser (parseResources (Json.resources json)) ∧
  resource_parser (parseShape (Json.shapes json)) ∧
  resource_parser (parseGeometries (Json.geometries json)) ∧
  resource_parser (parseImages (Json.images json)) ∧
  resource_parser (parseVideos (Json.videos json)) ∧
  resource_parser (parseAudio (Json.audio json)) ∧
  resource_parser (parseFonts (Json.fonts json)) ∧
  resource_parser (parseTextures (Json.textures json)) ∧
  resource_parser (parseMaterials (Json.materials json)).
Proof.
  unfold parseResources, parseShape, parseGeometries, parseImages, parseVideos, parseAudio,
    parseFonts, parseTextures, parseMaterials.
  repeat split;
    match goal with |- context [match ?j with _ => _ end] => by destruct j end.
Qed.

Lemma parse_with_run (root : M Object3D) json onLoad w :
  parse_with root json onLoad w
  = (let* object := root in
     (if no_images (Json.images json) then
        match onLoad with
        | Some onLoad => emit (called onLoad object)
        | None => ret ()
        end
      else ret ());;
     ret object) (resources_parsed json w).
Proof.
  destruct (resource_parsers json) as (H1 & H2 & H3 & H4 & H5 & H6 & H7 & H8 & H9).
  unfold parse_with, resources_parsed.
  rewrite (bind_step _ _ _ _ _ (proj1 (H1 _))), (bind_step _ _ _ _ _ (proj1 (H2 _))),
    (bind_step _ _ _ _ _ (proj1 (H3 _))), (bind_step _ _ _ _ _ (proj1 (H4 _))),
    (bind_step _ _ _ _ _ (proj1 (H5 _))), (bind_step _ _ _ _ _ (proj1 (H6 _))),
    (bind_step _ _ _ _ _ (proj1 (H7 _))), (bind_step _ _ _ _ _ (proj1 (H8 _))),
    (bind_step _ _ _ _ _ (proj1 (H9 _))).
  reflexivity.
Qed.

Lemma trace_resources_parsed json w : trace (resources_parsed json w) = trace w.
Proof.
  destruct (resource_parsers json) as (H1 & H2 & H3 & H4 & H5 & H6 & H7 & H8 & H9).
  unfold resources_parsed.
  by rewrite (proj2 (H9 _)), (proj2 (H8 _)), (proj2 (H7 _)), (proj2 (H6 _)),
    (proj2 (H5 _)), (proj2 (H4 _)), (proj2 (H3 _)), (proj2 (H2 _)), (proj2 (H1 _)).
Qed.



(** A document that declares an image: [parse] returns the tree and calls
    nothing. *)
Example parse_defers_completion :
  ∃ object w',
    parse (Json.with_images (Arr [mkRawRecord "i" None "png"])
             (Json.document (Some (Data.record "Group" "root" "root"))))
          (Some "onLoad") fresh = (Normal object, w') ∧
    uuid object = declared "root" ∧ trace w' = [].
Proof. eexists _, _. split; [vm_compute; reflexivity|]. split; reflexivity. Qed.

(** ** Failure of a variant constructor *)

(** When the switch throws, [create] prints the error and hands a fresh
    [Container] to the attribute pass. *)
Lemma construction_failure_contained data parseCamera w e w1 :
  construct data parseCamera w = (Thrown e, w1) →
  create data parseCamera w
  = (Normal (THREE.constructed Kind.Container (next_oid w1)),
     allocate 1 (log [console_error (object_skiped (Data.uuid data))] w1)).
Proof.
  intros Hthrown. unfold create, try_catch. rewrite Hthrown.
  by rewrite (bind_step _ _ _ _ _ (emit_run _ _)), new_run.
Qed.

(** A mesh whose geometry is not in the container, next to a light: the
    mesh becomes a [Container] with the UUID of the record, the light is
    built, and the error is printed. *)
Example missing_geometry_is_contained :
  ∃ object w',
    parseObject (Data.with_children
                   [Data.with_geometry "nowhere" (Data.record "Mesh" "m" "cube");
                    Data.record "PointLight" "l" "lamp"]
                   (Data.record "Group" "g" "room")) fresh = (Normal object, w') ∧
    (λ n, (kind n, uuid n)) <$> THREE.nodes object
      = [(Kind.Container, declared "g"); (Kind.Container, declared "m");
         (Kind.PointLight, declared "l")] ∧
    trace w' = [console_error (object_skiped "m")].
Proof. eexists _, _. split; [vm_compute; reflexivity|]. split; reflexivity. Qed.

(** On a scene the containment is undone.  The construction of
    [corrupt_scene] throws, and [create] replaces the scene by a
    [Container] and prints the error.  The camera pass then runs because
    the record says ["Scene"], reads [cameras.length] on the [Container],
    and throws outside the [try]: [parseObject] does not return, and
    neither does the [parse] of a program that has the scene and a light
    as children. *)
Lemma corrupt_scene_aborts_the_load :
  (∃ e w1, construct corrupt_scene (parseDefaultCamera corrupt_scene) fresh = (Thrown e, w1)) ∧
  (∃ container w1,
     create corrupt_scene (parseDefaultCamera corrupt_scene) fresh = (Normal container, w1) ∧
     kind container = Kind.Container ∧
     trace w1 = [console_error (object_skiped "s")]) ∧
  (∃ w', parseObject corrupt_scene fresh = (Thrown (undefined_read "length"), w')) ∧
  (∃ w', parse program_with_corrupt_scene (Some "onLoad") fresh
         = (Thrown (undefined_read "length"), w')
         ∧ trace w' = [console_error (object_skiped "s")]).
Proof.
  split; [|split; [|split]].
  - eexists _, _. vm_compute. reflexivity.
  - eexists _, _. split; [vm_compute; reflexivity|]. split; reflexivity.
  - eexists. vm_compute. reflexivity.
  - eexists. split; [vm_compute; reflexivity|]. reflexivity.
Qed.


Lemma quiet_attachChildren data object : quiet (attachChildren data object).
Proof.
  unfold attachChildren. destruct (Data.children data) as [kids|]; [|auto with quiet].
  apply quiet_foldM. apply Forall_forall. intros child _ acc.
  apply quiet_bind; [apply quiet_parseObject | auto with quiet].
Qed.

Lemma postProcess_plain data o w :
  Data.type data ∉ ["Program"; "Scene"; "LOD"] → postProcess data o w = (Normal o, w).
Proof.
  intros Hplain. unfold postProcess.
  rewrite !decide_False; [done|..]; intros Htype; apply Hplain; rewrite Htype;
    repeat first [apply list_elem_of_here | apply list_elem_of_further].
Qed.

(** A light probe without [sh] coefficients: the constructor has run when
    [fromArray] throws on the missing array, and the probe becomes a
    [Container] with the UUID of the record. *)
Example probe_without_sh_is_contained :
  ∃ object w',
    parseObject probe_without_sh fresh = (Normal object, w') ∧
    kind object = Kind.Container ∧ uuid object = declared "p" ∧
    trace w' = [console_error (object_skiped "p")].
Proof. eexists _, _. split; [vm_compute; reflexivity|]. repeat split; reflexivity. Qed.

(** An orbit control with a [center] and without a [vector] is contained
    likewise. *)
Example controls_without_vector_are_contained :
  ∃ object w',
    parseObject (Data.with_center [0; 0; 0]%Z (Data.record "OrbitControls" "o" "orbit")) fresh
    = (Normal object, w') ∧
    kind object = Kind.Container ∧ trace w' = [console_error (object_skiped "o")].
Proof. eexists _, _. split; [vm_compute; reflexivity|]. split; reflexivity. Qed.

(** A scene whose [world] block has no [gravity]: the switch throws on
    [data.world.gravity.x], and the camera pass throws again on the
    [Container] that replaces the scene. *)
Example scene_without_gravity_aborts :
  (∃ w1, construct scene_without_gravity (parseDefaultCamera scene_without_gravity) fresh
         = (Thrown (undefined_read "x"), w1)) ∧
  (∃ w', parseObject scene_without_gravity fresh = (Thrown (undefined_read "length"), w')
         ∧ trace w' = [console_error (object_skiped "s")]).
Proof.
  split; eexists; [vm_compute; reflexivity|]. split; [vm_compute; reflexivity|]. reflexivity.
Qed.



(** ** A document without a root record *)



(** ** The resource containers *)

Lemma store_lookup loaded records :
  ∀ c u,
    store loaded records c !! u
    = match last_declared u records with
      | Some r => Some (loaded r)
      | None => c !! u
      end.
Proof.
  unfold store, last_declared.
  induction records as [|r rest IH]; intros c u; simpl; [done|].
  rewrite IH. rewrite filter_cons. case_decide as Hu.
  - rewrite last_cons. destruct (last (filter _ rest)); [done|].
    subst u. by rewrite lookup_insert_eq.
  - destruct (last (filter _ rest)); [done|]. by rewrite lookup_insert_ne.
Qed.

(** X2.  When one of the nine resource parsers returns on a section that
    is an array, its container maps a UUID to the instance that the
    sub-loader made from the last record of the array with that UUID, or
    to what it held before when no record of the array has it, and the
    other eight containers are unchanged. *)
Theorem resource_section_filed s items w w' :
  parser s (Some (Arr items)) w = (Normal (), w') →
  (∀ u, container s (this w') !! u
        = match last_declared u items with
          | Some r => Some (instance s r)
          | None => container s (this w) !! u
          end) ∧
  (∀ s', s' ≠ s → container s' (this w') = container s' (this w)).
Proof.
  intros Hrun.
  destruct s; injection Hrun as <-; simpl;
    (split; [intros u; apply store_lookup | intros s' Hs'; by destruct s']).
Qed.

Lemma resource_section_filed_witness :
  ∃ w',
    parser Store.geometries
      (Some (Arr [mkRawRecord "g" None "box"; mkRawRecord "g" (Some ["hip"]) "body"])) fresh
    = (Normal (), w') ∧
    ResourceContainer.geometries (this w') !! "g"
    = Some (Geometry (mkRawRecord "g" (Some ["hip"]) "body")) ∧
    ResourceContainer.materials (this w') = ∅.
Proof.
  destruct (parser Store.geometries
              (Some (Arr [mkRawRecord "g" None "box"; mkRawRecord "g" (Some ["hip"]) "body"]))
              fresh) as [[[]|e] w'] eqn:Hrun; [|by vm_compute in Hrun].
  exists w'. split; [done|].
  destruct (resource_section_filed Store.geometries _ fresh w' Hrun) as [Hfiled Hothers].
  split.
  - exact (Hfiled "g").
  - exact (Hothers Store.materials ltac:(discriminate)).
Defined.

Lemma resource_parsers_trace s json w :
  parser s json w = (Normal (), after (parser s json) w)
  ∧ trace (after (parser s json) w) = trace w.
Proof. by destruct json, s. Qed.

(** ** What a computation leaves of the world *)

Section Respects.
Context (R : World → World → Prop) `{!PreOrder R}.

Lemma respects_ret {A} (a : A) : respects R (ret a).
Proof. by intros w r w' [= <- <-]. Qed.

Lemma respects_throw {A} e : respects R (@throw A e).
Proof. by intros w r w' [= <- <-]. Qed.

Lemma respects_get_this : respects R get_this.
Proof. by intros w r w' [= <- <-]. Qed.

Lemma respects_bind {A B} (m : M A) (k : A → M B) :
  respects R m → (∀ a, respects R (k a)) → respects R (bind m k).
Proof.
  intros Hm Hk w r w'. unfold bind.
  destruct (m w) as [[a|e] w1] eqn:Hrun.
  - intros Hrest. etrans; [exact (Hm _ _ _ Hrun) | exact (Hk _ _ _ _ Hrest)].
  - intros [= <- <-]. exact (Hm _ _ _ Hrun).
Qed.

Lemma respects_try_catch {A} (m : M A) handler :
  respects R m → (∀ e, respects R (handler e)) → respects R (try_catch m handler).
Proof.
  intros Hm Hh w r w'. unfold try_catch.
  destruct (m w) as [[a|e] w1] eqn:Hrun.
  - intros [= <- <-]. exact (Hm _ _ _ Hrun).
  - intros Hrest. etrans; [exact (Hm _ _ _ Hrun) | exact (Hh _ _ _ _ Hrest)].
Qed.

Lemma respects_foldM {A B} (body : B → A → M B) l :
  Forall (λ x, ∀ acc, respects R (body acc x)) l → ∀ acc, respects R (foldM body acc l).
Proof.
  induction 1 as [|x l Hx _ IH]; intros acc; simpl; [apply respects_ret|].
  apply respects_bind; auto.
Qed.

Lemma respects_mapM {A B} (f : A → M B) l :
  Forall (λ x, respects R (f x)) l → respects R (mapM f l).
Proof.
  induction 1 as [|x l Hx _ IH]; simpl; [apply respects_ret|].
  apply respects_bind; [done|]. intros y.
  apply respects_bind; [done|]. intros ys. apply respects_ret.
Qed.

Lemma respects_traverse callback :
  (∀ obj, respects R (callback obj)) → ∀ object, respects R (THREE.traverse callback object).
Proof.
  intros Hcb object. induction object as [object IH] using Object3D_tree_ind.
  rewrite traverse_eq. apply respects_bind; [done|]. intros visited.
  apply respects_bind; [by apply respects_mapM|]. intros kids. apply respects_ret.
Qed.

Lemma respects_of_world {A} (m : M A) :
  (∀ w r w', m w = (r, w') → w' = w) → respects R m.
Proof. intros Hm w r w' Hrun. apply Hm in Hrun as ->. reflexivity. Qed.

Hypothesis respects_emit : ∀ e, respects R (emit e).
Hypothesis respects_new : ∀ k, respects R (THREE.new k).
Hypothesis respects_parser : ∀ s json, respects R (parser s json).

(** Takes a computation of the loader apart, down to the calls above. *)
Ltac respects_step :=
  lazymatch goal with
  | |- respects _ (ret _) => apply respects_ret
  | |- respects _ (throw _) => apply respects_throw
  | |- respects _ get_this => apply respects_get_this
  | |- respects _ (emit _) => apply respects_emit
  | |- respects _ (THREE.new _) => apply respects_new
  | |- respects _ (bind _ _) => apply respects_bind; [|intros ?]
  | |- respects _ (try_catch _ _) => apply respects_try_catch; [|intros ?]
  | |- respects _ (match ?x with _ => _ end) => destruct x
  | |- respects _ _ => assumption
  end.

Lemma respects_parse_with (root : M Object3D) json onLoad :
  respects R root → respects R (parse_with root json onLoad).
Proof.
  intros Hroot. unfold parse_with.
  apply respects_bind; [apply (respects_parser Store.resources) | intros _].
  apply respects_bind; [apply (respects_parser Store.shapes) | intros _].
  apply respects_bind; [apply (respects_parser Store.geometries) | intros _].
  apply respects_bind; [apply (respects_parser Store.images) | intros _].
  apply respects_bind; [apply (respects_parser Store.videos) | intros _].
  apply respects_bind; [apply (respects_parser Store.audio) | intros _].
  apply respects_bind; [apply (respects_parser Store.fonts) | intros _].
  apply respects_bind; [apply (respects_parser Store.textures) | intros _].
  apply respects_bind; [apply (respects_parser Store.materials) | intros _].
  repeat respects_step.
Qed.

Lemma respects_arms :
  Forall (λ case : string * Arm,
            ∀ data parseCamera,
              (∀ run, parseCamera = Some run → respects R run) →
              respects R (case.2 data parseCamera))
         switch.
Proof.
  unfold switch.
  repeat constructor; simpl; intros data parseCamera Hcamera;
    unfold constructs, case_SpineAnimation, case_LensFlare, case_Scene, case_SkinnedMesh,
      case_InstancedMesh, case_Mesh, case_Sky, case_OrbitControls,
      case_PerspectiveCamera, case_OrthographicCamera, readViewport, case_LightProbe,
      getGeometry;
    repeat respects_step; by apply Hcamera.
Qed.

Lemma respects_construct data parseCamera :
  (∀ run, parseCamera = Some run → respects R run) → respects R (construct data parseCamera).
Proof.
  intros Hcamera. unfold construct.
  destruct (select (Data.type data) switch) as [arm|] eqn:Hselect; [|apply respects_new].
  pose proof respects_arms as Harms. revert Hselect.
  induction Harms as [|[label arm0] rest Harm _ IH]; simpl; [done|].
  case_decide; [intros [= <-]; by apply Harm | exact IH].
Qed.

Lemma respects_parseBones object inverses boneParams :
  ∀ j bones0 inverses0, respects R (parseBones object inverses boneParams j bones0 inverses0).
Proof.
  induction boneParams as [|u rest IH]; intros j bones0 inverses0; simpl;
    [apply respects_ret|].
  apply respects_bind; [repeat respects_step | intros bone].
  apply respects_bind; [repeat respects_step | intros inverse]. apply IH.
Qed.

Lemma respects_applySkeletons data object : respects R (applySkeletons data object).
Proof.
  unfold applySkeletons. destruct (Data.skeletons data) as [json|]; [|apply respects_ret].
  apply respects_bind.
  - apply respects_foldM. apply Forall_forall. intros sp _ acc.
    apply respects_bind; [apply respects_parseBones | intros ?; apply respects_ret].
  - intros skeletons. unfold bindSkeletons. destruct (bool_decide _); [apply respects_ret|].
    apply respects_traverse. intros obj. unfold bindSkeleton. repeat respects_step.
Qed.

Lemma respects_finish data object : respects R (finish data object).
Proof.
  unfold finish. apply respects_bind; [apply respects_applySkeletons | intros o1].
  apply respects_bind;
    [apply respects_of_world; intros w r w'; apply reparseAnimations_world | intros o2].
  unfold postProcess, copyResources, sceneCameras, lodLevels.
  repeat respects_step.
  apply respects_foldM. apply Forall_forall. intros level _ acc.
  unfold addLevel. repeat respects_step.
Qed.

Lemma respects_parseObject data : respects R (parseObject data).
Proof.
  induction data as [data IHchildren IHcamera] using Data_tree_ind.
  rewrite parseObject_eq.
  apply respects_bind;
    [|intros created; apply respects_bind; [|intros attributed; apply respects_bind]].
  - unfold create. apply respects_try_catch; [|intros e; repeat respects_step].
    apply respects_construct. intros run. unfold parseDefaultCamera.
    unfold camera_roots in IHcamera.
    destruct (Data.defaultCamera data) as [json|]; [|done].
    intros [= <-]. unfold parse. apply respects_parse_with.
    destruct (Json.object json) as [root|].
    + by apply Forall_inv in IHcamera.
    + unfold parseObject_undefined. repeat respects_step.
  - apply respects_of_world. intros w r w'. apply applyAttributes_world.
  - unfold attachChildren. destruct (Data.children data) as [kids|]; [|apply respects_ret].
    apply respects_foldM. simpl in IHchildren.
    eapply Forall_impl; [exact IHchildren|]. intros child Hchild acc. simpl.
    repeat respects_step.
  - intros parent. apply respects_finish.
Qed.

Lemma respects_parse json onLoad : respects R (parse json onLoad).
Proof.
  unfold parse. apply respects_parse_with.
  destruct (Json.object json) as [root|]; [apply respects_parseObject|].
  unfold parseObject_undefined. repeat respects_step.
Qed.

End Respects.

(** ** Resources are never lost *)

Global Instance retains_preorder : PreOrder (λ w w', retains (this w) (this w')).
Proof.
  split.
  - intros w s u. done.
  - intros w1 w2 w3 H12 H23 s u Hu. apply H23, H12, Hu.
Qed.

Lemma parser_retains s json :
  respects (λ w w', retains (this w) (this w')) (parser s json).
Proof.
  intros w r w' Hrun s' u Hu.
  destruct json as [json|]; [|destruct s; by injection Hrun as <- <-].
  destruct s;
    cbv [parser parseResources parseShape parseGeometries parseImages parseVideos
         parseAudio parseFonts parseTextures parseMaterials populate update_this] in Hrun;
    injection Hrun as <- <-; destruct s'; simpl in *; try done;
    rewrite store_lookup; destruct (last_declared _ _); eauto.
Qed.

Lemma parse_retains_world json onLoad w r w' :
  parse json onLoad w = (r, w') → retains (this w) (this w').
Proof.
  refine (respects_parse _ _ _ parser_retains json onLoad w r w').
  - intros e w0 r0 w1 [= <- <-] s u Hu. exact Hu.
  - intros k w0 r0 w1 [= <- <-] s u Hu. exact Hu.
Qed.

(** X3.  [parse] never removes a resource: however it completes, every
    UUID filed in a container of the loader before the call is filed in
    that container after it. *)
Theorem parse_retains_resources json onLoad w :
  retains (this w) (this (after (parse json onLoad) w)).
Proof.
  unfold after. destruct (parse json onLoad w) as [r w'] eqn:Hrun. simpl.
  exact (parse_retains_world json onLoad w r w' Hrun).
Qed.

(** ** The containers when [parseObject] runs *)

Lemma container_after s' s json w :
  container s' (this (after (parser s json) w))
  = if decide (s' = s) then
      match json with
      | Some records => store (instance s) (visited s records) (container s (this w))
      | None => container s (this w)
      end
    else container s' (this w).
Proof. destruct json as [records|], s, s'; reflexivity. Qed.

(** The nine parsers in the order in which [parse] calls them. *)
Lemma resources_parsed_eq json w :
  resources_parsed json w
  = foldl (λ w s, after (parser s (section s json)) w) w
      [Store.resources; Store.shapes; Store.geometries; Store.images; Store.videos;
       Store.audio; Store.fonts; Store.textures; Store.materials].
Proof. reflexivity. Qed.

Lemma container_after_all json l :
  NoDup l →
  ∀ w s,
    container s (this (foldl (λ w s, after (parser s (section s json)) w) w l))
    = if decide (s ∈ l) then
        match section s json with
        | Some records => store (instance s) (visited s records) (container s (this w))
        | None => container s (this w)
        end
      else container s (this w).
Proof.
  induction 1 as [|x l Hx _ IH]; intros w s; cbn [foldl].
  - case_decide as Hin; [by apply elem_of_nil in Hin | done].
  - rewrite IH, (container_after s x (section x json) w).
    destruct (decide (s ∈ x :: l)) as [Hin|Hnot], (decide (s ∈ l)) as [Hin'|Hnot'],
      (decide (s = x)) as [->|Hne]; try done;
      first [ by destruct Hx
            | by apply elem_of_cons in Hin as [?|?]
            | destruct Hnot; by apply list_elem_of_further
            | destruct Hnot; apply list_elem_of_here ].
Qed.

(** Each container holds what it held before, overwritten by the records
    of its own section. *)
Lemma container_resources_parsed s json w :
  container s (this (resources_parsed json w))
  = match section s json with
    | Some records => store (instance s) (visited s records) (container s (this w))
    | None => container s (this w)
    end.
Proof.
  rewrite resources_parsed_eq, container_after_all.
  - case_decide as Hin; [done|]. destruct Hin.
    destruct s; repeat first [apply list_elem_of_here | apply list_elem_of_further].
  - apply (bool_decide_unpack _). by vm_compute.
Qed.

Lemma last_declared_is_Some record records :
  record ∈ records → is_Some (last_declared (raw_uuid record) records).
Proof.
  intros Hin. unfold last_declared. apply last_is_Some.
  intros Hnil. apply (not_elem_of_nil record). rewrite <- Hnil.
  by apply list_elem_of_filter.
Qed.

Lemma resources_parsed_declared s json records record w :
  section s json = Some records → record ∈ visited s records →
  is_Some (container s (this (resources_parsed json w)) !! raw_uuid record).
Proof.
  intros Hsection Hin. rewrite container_resources_parsed, Hsection, store_lookup.
  by destruct (last_declared_is_Some _ _ Hin) as [r ->].
Qed.

Lemma parseObject_retains data w r w' :
  parseObject data w = (r, w') → retains (this w) (this w').
Proof.
  refine (respects_parseObject _ _ _ parser_retains data w r w').
  - intros e w0 r0 w1 [= <- <-] s u Hu. exact Hu.
  - intros k w0 r0 w1 [= <- <-] s u Hu. exact Hu.
Qed.

(** ** A program takes the resources of the loader with it *)

Lemma parse_Normal json root onLoad w object w' :
  Json.object json = Some root →
  parse json onLoad w = (Normal object, w') →
  ∃ w1, parseObject root (resources_parsed json w) = (Normal object, w1)
        ∧ this w' = this w1 ∧ next_oid w' = next_oid w1.
Proof.
  intros Hroot. unfold parse. rewrite Hroot, parse_with_run. intros H.
  apply bind_Normal in H as (object0 & w1 & Hrun & H).
  apply bind_Normal in H as ([] & w2 & Hcall & H). run_inv H.
  exists w1. split; [done|].
  destruct (no_images (Json.images json)); [destruct onLoad|]; by injection Hcall as <-.
Qed.

(** X4.  When the root record is a program and [parse] returns, the
    program carries the containers of the loader as they are when [parse]
    returns, and every record visited in a section of the document is
    filed there under its UUID. *)
Theorem program_takes_resources json root onLoad w object w' :
  Json.object json = Some root →
  Data.type root = "Program" →
  parse json onLoad w = (Normal object, w') →
  resources object = Some (this w') ∧
  (∀ s records record,
     section s json = Some records → record ∈ visited s records →
     is_Some (container s (this w') !! raw_uuid record)).
Proof.
  intros Hroot Htype Hparse.
  destruct (parse_Normal _ _ _ _ _ _ Hroot Hparse) as (w1 & Hrun & Hthis & _).
  rewrite Hthis in *. split.
  - rewrite parseObject_eq in Hrun.
    apply bind_Normal in Hrun as (created & w0 & _ & H).
    apply bind_Normal in H as (attributed & w2 & _ & H).
    apply bind_Normal in H as (parent & w3 & _ & H).
    apply finish_Normal in H as (o1 & w4 & _ & H).
    unfold postProcess in H. rewrite Htype in H. simpl in H.
    unfold copyResources in H. case_decide; [|done]. run_inv H. reflexivity.
  - intros s records record Hsection Hin.
    eapply (parseObject_retains _ _ _ _ Hrun), resources_parsed_declared; eauto.
Qed.

Lemma program_takes_resources_witness :
  ∃ object w',
    parse program_with_geometry None fresh = (Normal object, w') ∧
    (c ← resources object; ResourceContainer.geometries c !! "g")
      = Some (Geometry (mkRawRecord "g" None "")).
Proof.
  destruct (parse program_with_geometry None fresh) as [[object|e] w'] eqn:Hrun;
    [|by vm_compute in Hrun].
  exists object, w'. split; [done|].
  destruct (program_takes_resources program_with_geometry _ None fresh object w'
              eq_refl eq_refl Hrun) as [-> _].
  vm_compute in Hrun. injection Hrun as <- <-. reflexivity.
Defined.

(** ** A mesh and the geometry it names *)

Lemma create_Mesh data camera w geometry :
  Data.type data = "Mesh" →
  (g ← Data.geometry data; ResourceContainer.geometries (this w) !! g) = Some geometry →
  create data camera w
  = (Normal (THREE.constructed
               match geometry_bones geometry with
               | Some (_ :: _) => Kind.SkinnedMesh
               | _ => Kind.Mesh
               end (next_oid w)), allocate 1 w).
Proof.
  intros Htype Hfound. unfold create, try_catch, construct. rewrite Htype.
  change (select "Mesh" switch) with (Some case_Mesh).
  unfold case_Mesh, getGeometry, get_this, bind, ret. cbv beta. rewrite Hfound.
  destruct (geometry_bones geometry) as [[|]|]; by rewrite new_run.
Qed.

(** X5.  A ["Mesh"] root record that names a geometry of the
    [geometries] array of its own document is built from the last
    declaration of that geometry: as a skinned mesh when the declaration
    has at least one bone, as a mesh otherwise.  The object carries the
    UUID of the record. *)
Theorem declared_geometry_builds_mesh json root onLoad w object w' items g record :
  Json.object json = Some root →
  Data.type root = "Mesh" →
  Data.geometry root = Some g →
  Json.geometries json = Some (Arr items) →
  last_declared g items = Some record →
  parse json onLoad w = (Normal object, w') →
  kind object = match raw_bones record with
                | Some (_ :: _) => Kind.SkinnedMesh
                | _ => Kind.Mesh
                end
  ∧ uuid object = declared (Data.uuid root).
Proof.
  intros Hroot Htype Hgeometry Hsection Hlast Hparse.
  destruct (parse_Normal _ _ _ _ _ _ Hroot Hparse) as (w1 & Hrun & _).
  pose proof (container_resources_parsed Store.geometries json w) as Hfiled.
  simpl in Hfiled. rewrite Hsection in Hfiled. simpl in Hfiled.
  assert ((g0 ← Data.geometry root;
           ResourceContainer.geometries (this (resources_parsed json w)) !! g0)
          = Some (Geometry record)) as Hfound.
  { rewrite Hgeometry. simpl. by rewrite Hfiled, store_lookup, Hlast. }
  pose proof (create_Mesh root (parseDefaultCamera root) _ _ Htype Hfound) as Hcreate.
  simpl in Hcreate.
  apply parseObject_passes in Hrun as (created & w0 & attributed & Hcreate' & Happly & Hsame).
  rewrite Hcreate in Hcreate'. injection Hcreate' as <- <-.
  destruct Happly, Hsame. simpl in *. split; congruence.
Qed.

Lemma declared_geometry_builds_mesh_witness :
  ∃ object w',
    parse mesh_document None fresh = (Normal object, w') ∧
    kind object = Kind.SkinnedMesh ∧ uuid object = declared "m".
Proof.
  destruct (parse mesh_document None fresh) as [[object|e] w'] eqn:Hrun;
    [|by vm_compute in Hrun].
  exists object, w'. split; [done|].
  exact (declared_geometry_builds_mesh mesh_document _ None fresh object w' _ "g" _
           eq_refl eq_refl eq_refl eq_refl eq_refl Hrun).
Defined.

(** ** The form of the object that [parseObject] returns *)

Lemma applyAttributes_form data o w o' w' :
  applyAttributes data o w = (Normal o', w') →
  w' = w ∧ o' = attributed data o ∧ (is_Some (Data.shadow data) → is_Some (shadow o)).
Proof.
  intros [_ H]%applyAttributes_animated. unfold applyShadow in H. unfold attributed.
  destruct (applyIdentity_frame data o) as (_ & _ & _ & _ & _ & _ & _ & _ & I9 & _).
  pose proof (animated_frame shadow data (applyIdentity data o) (λ _ _, eq_refl)) as A9.
  destruct (applyTransform_frame data (animated data (applyIdentity data o)))
    as (_ & _ & _ & _ & F5 & _).
  set (o1 := applyTransform data (animated data (applyIdentity data o))) in *.
  assert (shadow o1 = shadow o) as Hshadow by congruence.
  destruct (Data.shadow data) as [json|]; simpl in H |- *.
  - destruct (shadow o1) as [owned|] eqn:Howned; run_inv H.
    split; [done|]. split; [done|]. intros _. rewrite <- Hshadow. eauto.
  - run_inv H. split; [done|]. split; [done|]. by intros [? ?].
Qed.

Lemma bound_form skeletons o :
  ∃ u s, bound skeletons o = set_skeletonUUID u (set_skeleton s o).
Proof.
  unfold bound, THREE.bind_skeleton.
  destruct (isSkinnedMesh o); [destruct (skeletonUUID o) as [wanted|] eqn:Hwanted|].
  - destruct (skeletons !! wanted) as [sk|]; [by eexists _, _|].
    exists None, (skeleton o). by destruct o.
  - exists None, (skeleton o). destruct o. simpl in *. by subst.
  - exists (skeletonUUID o), (skeleton o). by destruct o.
Qed.

Lemma finish_form data o w o' w' :
  finish data o w = (Normal o', w') →
  ∃ r c l a kids u s,
    o' = set_resources r (set_cameras c (set_levels l (set_animations a
           (set_children kids (set_skeletonUUID u (set_skeleton s
              (applyMatrixAutoUpdate data o))))))).
Proof.
  intros H. apply finish_Normal in H as (o1 & w1 & Hbind & Hpost).
  apply postProcess_form in Hpost as (r & c & l & -> & _). exists r, c, l.
  revert Hbind. generalize (applyMatrixAutoUpdate data o). intros o0 Hbind.
  assert (∃ kids u s, o1 = set_children kids (set_skeletonUUID u (set_skeleton s o0)))
    as (kids & u & s & ->).
  { unfold applySkeletons in Hbind. destruct (Data.skeletons data) as [json|].
    - apply bind_Normal in Hbind as (skeletons & w2 & _ & Hbind).
      apply bindSkeletons_Normal in Hbind as [(_ & -> & _)|(_ & -> & _)].
      + exists (children o0), (skeletonUUID o0), (skeleton o0). by destruct o0.
      + rewrite visit_all_eq. destruct (bound_form skeletons o0) as (u & s & ->).
        by eexists _, u, s.
    - run_inv Hbind. exists (children o1), (skeletonUUID o1), (skeleton o1). by destruct o1. }
  unfold discarded. destruct (Data.animations data) as [array|]; simpl.
  - by eexists _, kids, u, s.
  - exists (animations o0), kids, u, s. by destruct o0.
Qed.

Lemma parseObject_form data w object w' :
  parseObject data w = (Normal object, w') →
  ∃ created w0 built r c l a kids u s,
    create data (parseDefaultCamera data) w = (Normal created, w0) ∧
    (is_Some (Data.shadow data) → is_Some (shadow created)) ∧
    object = set_resources r (set_cameras c (set_levels l (set_animations a
               (set_children kids (set_skeletonUUID u (set_skeleton s
                  (applyMatrixAutoUpdate data
                     (set_children built (attributed data created))))))))).
Proof.
  rewrite parseObject_eq. intros H.
  apply bind_Normal in H as (created & w0 & Hcreate & H).
  apply bind_Normal in H as (attributed0 & w1 & Happly & H).
  apply bind_Normal in H as (parent & w2 & Hchildren & H).
  apply applyAttributes_form in Happly as (-> & -> & Hshadow).
  apply attachChildren_form in Hchildren as (built & ->).
  apply finish_form in H as (r & c & l & a & kids & u & s & ->).
  by eexists created, w0, _, r, c, l, a, kids, u, s.
Qed.

(** Reads a property of [attributed data o] through the writes that
    leave it alone. *)
Ltac written p :=
  simpl;
  repeat (first [ rewrite (proj_when_defined p) by (intros; reflexivity)
                | rewrite (animated_frame p) by (intros; reflexivity) ];
          simpl).

Lemma attributed_editor data o :
  locked (attributed data o) = is_true (Data.locked data) || is_true (Data.hidden data) ∧
  folded (attributed data o) = is_true (Data.folded data).
Proof.
  unfold attributed, applyVisibility, applyTransform, applyIdentity.
  split; [written locked | written folded]; reflexivity.
Qed.

Lemma attributed_optional data o :
  frustumCulled (attributed data o) = default (frustumCulled o) (Data.frustumCulled data) ∧
  renderOrder (attributed data o) = default (renderOrder o) (Data.renderOrder data) ∧
  userData (attributed data o) = default (userData o) (Data.userData data) ∧
  layers (attributed data o) = default (layers o) (Data.layers data).
Proof.
  unfold attributed, applyVisibility, applyTransform, applyIdentity.
  repeat split.
  - destruct (Data.frustumCulled data); written frustumCulled; reflexivity.
  - destruct (Data.renderOrder data); written renderOrder; reflexivity.
  - destruct (Data.userData data); written userData; reflexivity.
  - destruct (Data.layers data); written layers; reflexivity.
Qed.

Lemma attributed_shadow data o :
  shadow (attributed data o)
  = match Data.shadow data with
    | Some json => Some (shadowFromJSON json)
    | None => shadow o
    end.
Proof.
  unfold attributed, applyVisibility, applyTransform, applyIdentity.
  destruct (Data.shadow data); written shadow; reflexivity.
Qed.

Lemma attributed_matrix data o :
  matrix (attributed data o)
  = match Data.matrix data with
    | Some m => matrixFromArray m
    | None => matrix o
    end
  ∧ matrixAutoUpdate (attributed data o) = matrixAutoUpdate o.
Proof.
  unfold attributed, applyVisibility, applyTransform, applyIdentity.
  split; [destruct (Data.matrix data); written matrix | written matrixAutoUpdate];
    reflexivity.
Qed.

Lemma attributed_root data o :
  uuid (attributed data o) = declared (Data.uuid data) ∧
  children (attributed data o) = children o.
Proof.
  unfold attributed, applyVisibility, applyTransform, applyIdentity.
  split; [written uuid | written children]; reflexivity.
Qed.

(** ** Editor flags and optional attributes *)

(** X6.  The object is locked exactly when the record has [locked] or
    [hidden] set to true, and folded exactly when it has [folded] set to
    true; an absent flag counts as false. *)
Theorem hidden_records_are_locked data w object w' :
  parseObject data w = (Normal object, w') →
  locked object = is_true (Data.locked data) || is_true (Data.hidden data) ∧
  folded object = is_true (Data.folded data).
Proof.
  intros (created & w0 & built & r & c & l & a & kids & u & s & _ & _ & ->)%parseObject_form.
  destruct (attributed_editor data created) as [Hlocked Hfolded].
  unfold applyMatrixAutoUpdate. by destruct (Data.matrixAutoUpdate data) as [[]|].
Qed.

Lemma hidden_records_are_locked_witness :
  ∃ object w',
    parseObject fixed_group fresh = (Normal object, w') ∧
    locked object = true ∧ folded object = false.
Proof.
  destruct (parseObject fixed_group fresh) as [[object|e] w'] eqn:Hrun;
    [|by vm_compute in Hrun].
  exists object, w'. split; [done|].
  exact (hidden_records_are_locked fixed_group fresh object w' Hrun).
Defined.

(** X7.  [frustumCulled], [renderOrder], [userData] and [layers] are
    written only when the record has them: the object carries the value of
    the record where there is one, and otherwise the value its constructor
    gave it. *)
Theorem optional_attributes_keep_defaults data w object w' :
  parseObject data w = (Normal object, w') →
  ∃ created w0,
    create data (parseDefaultCamera data) w = (Normal created, w0) ∧
    frustumCulled object = default (frustumCulled created) (Data.frustumCulled data) ∧
    renderOrder object = default (renderOrder created) (Data.renderOrder data) ∧
    userData object = default (userData created) (Data.userData data) ∧
    layers object = default (layers created) (Data.layers data).
Proof.
  intros (created & w0 & built & r & c & l & a & kids & u & s & Hcreate & _ & ->)%parseObject_form.
  exists created, w0. split; [exact Hcreate|].
  destruct (attributed_optional data created) as (H1 & H2 & H3 & H4).
  unfold applyMatrixAutoUpdate. by destruct (Data.matrixAutoUpdate data) as [[]|].
Qed.

Lemma optional_attributes_keep_defaults_witness :
  ∃ object w',
    parseObject fixed_group fresh = (Normal object, w') ∧
    renderOrder object = 5%Z ∧ frustumCulled object = true ∧ layers object = 1%Z.
Proof.
  destruct (parseObject fixed_group fresh) as [[object|e] w'] eqn:Hrun;
    [|by vm_compute in Hrun].
  exists object, w'. split; [done|].
  destruct (optional_attributes_keep_defaults fixed_group fresh object w' Hrun)
    as (created & w0 & Hcreate & Hculled & Horder & _ & Hlayers).
  vm_compute in Hcreate. injection Hcreate as <- <-.
  rewrite Hculled, Horder, Hlayers. repeat split; reflexivity.
Defined.

(** ** The shadow block *)

(** X8.  When [parseObject] returns on a record with a [shadow] block,
    the object it built owned a [shadow], and the shadow of the result is
    the one read from the block. *)
Theorem shadow_block_needs_an_owner data json w object w' :
  Data.shadow data = Some json →
  parseObject data w = (Normal object, w') →
  shadow object = Some (shadowFromJSON json) ∧
  ∃ created w0,
    create data (parseDefaultCamera data) w = (Normal created, w0) ∧ is_Some (shadow created).
Proof.
  intros Hblock.
  intros (created & w0 & built & r & c & l & a & kids & u & s & Hcreate & Howned & ->)%parseObject_form.
  split; [|exists created, w0; split; [exact Hcreate | apply Howned; rewrite Hblock; eauto]].
  pose proof (attributed_shadow data created) as Hshadow. rewrite Hblock in Hshadow.
  unfold applyMatrixAutoUpdate. by destruct (Data.matrixAutoUpdate data) as [[]|].
Qed.

Lemma shadow_block_needs_an_owner_witness :
  ∃ object w',
    parseObject lamp fresh = (Normal object, w') ∧
    kind object = Kind.SpotLight ∧ shadow object = Some (shadowFromJSON "{}").
Proof.
  destruct (parseObject lamp fresh) as [[object|e] w'] eqn:Hrun;
    [|by vm_compute in Hrun].
  exists object, w'. split; [done|].
  destruct (shadow_block_needs_an_owner lamp "{}" fresh object w' eq_refl Hrun)
    as [Hshadow _].
  split; [|exact Hshadow]. vm_compute in Hrun. injection Hrun as <- <-. reflexivity.
Defined.

(** ** The matrix of an object that is not to be updated *)

(** X9.  With [matrixAutoUpdate] false the matrix of the object is
    recomposed from its position, quaternion and scale, so the explicit
    arrays of the record reach the matrix.  Otherwise a [matrix] of the
    record stays as it was read, whatever the explicit arrays say. *)
Theorem static_matrix_is_recomposed data w object w' :
  parseObject data w = (Normal object, w') →
  match Data.matrixAutoUpdate data with
  | Some false =>
      matrixAutoUpdate object = false ∧
      matrix object = compose (position object) (quaternion object) (scale object)
  | Some true =>
      matrixAutoUpdate object = true ∧
      ∀ m, Data.matrix data = Some m → matrix object = matrixFromArray m
  | None => ∀ m, Data.matrix data = Some m → matrix object = matrixFromArray m
  end.
Proof.
  intros (created & w0 & built & r & c & l & a & kids & u & s & _ & _ & ->)%parseObject_form.
  destruct (attributed_matrix data created) as [Hmatrix _].
  unfold applyMatrixAutoUpdate. destruct (Data.matrixAutoUpdate data) as [[]|]; simpl.
  - split; [done|]. intros m Hm. by rewrite Hmatrix, Hm.
  - done.
  - intros m Hm. by rewrite Hmatrix, Hm.
Qed.

Lemma static_matrix_is_recomposed_witness :
  ∃ object w',
    parseObject fixed_group fresh = (Normal object, w') ∧
    matrix object
    = compose (fromArray [1; 2; 3]%Z)
        (decomposed [1; 0; 0; 0; 0; 1; 0; 0; 0; 0; 1; 0; 5; 6; 7; 1]%Z)
        (decomposed [1; 0; 0; 0; 0; 1; 0; 0; 0; 0; 1; 0; 5; 6; 7; 1]%Z).
Proof.
  destruct (parseObject fixed_group fresh) as [[object|e] w'] eqn:Hrun;
    [|by vm_compute in Hrun].
  exists object, w'. split; [done|].
  destruct (static_matrix_is_recomposed fixed_group fresh object w' Hrun) as [_ Hmatrix].
  rewrite Hmatrix. vm_compute in Hrun. injection Hrun as <- <-. reflexivity.
Defined.

(** ** The tree of objects follows the tree of records *)

Lemma records_eq data :
  records data = data :: match Data.children data with
                         | Some children => flat_map records children
                         | None => []
                         end.
Proof. destruct data. reflexivity. Qed.

Lemma fmap_flat_map {A B C} (f : B → C) (g : A → list B) l :
  f <$> flat_map g l = flat_map (λ x, f <$> g x) l.
Proof. induction l as [|x l IH]; [done|]. cbn [flat_map]. by rewrite fmap_app, IH. Qed.

Lemma uuids_eq o : uuids o = uuid o :: flat_map uuids (children o).
Proof. unfold uuids. rewrite nodes_eq, fmap_cons. f_equal. apply fmap_flat_map. Qed.

Lemma uuids_same_root o o' :
  uuid o' = uuid o → children o' = children o → uuids o' = uuids o.
Proof. intros Huuid Hchildren. by rewrite (uuids_eq o), (uuids_eq o'), Huuid, Hchildren. Qed.

Lemma uuids_visit_all g o :
  (∀ n, uuid (g n) = uuid n) → uuids (visit_all g o) = uuids o.
Proof.
  intros Hg. induction o as [o IH] using Object3D_tree_ind.
  rewrite visit_all_eq, (uuids_eq o), uuids_eq. simpl. rewrite Hg. f_equal.
  induction IH as [|c l Hc _ IHl]; simpl; [done|]. by rewrite Hc, IHl.
Qed.

Lemma bound_uuid skeletons n : uuid (bound skeletons n) = uuid n.
Proof. destruct (bound_form skeletons n) as (u & s & ->). reflexivity. Qed.

Lemma refreshed_uuid n : uuid (refreshed n) = uuid n.
Proof. unfold refreshed. by destruct (matrixAutoUpdate n). Qed.

Lemma applyMatrixAutoUpdate_uuids data o : uuids (applyMatrixAutoUpdate data o) = uuids o.
Proof.
  destruct (applyMatrixAutoUpdate_same data o) as ([_ _ Huuid _ _ _ _ _ _ _ _] & _).
  destruct (applyMatrixAutoUpdate_form data o) as (m & _ & [Hkids|Hkids]).
  - by apply uuids_same_root.
  - rewrite (uuids_eq o), uuids_eq, Huuid, Hkids. f_equal.
    generalize (children o). clear. intros l.
    induction l as [|c l IH]; cbn [map flat_map]; [done|].
    by rewrite IH, (uuids_visit_all refreshed c refreshed_uuid).
Qed.

Lemma finish_uuids data o w o' w' :
  finish data o w = (Normal o', w') → uuids o' = uuids o.
Proof.
  intros H. apply finish_Normal in H as (o1 & w1 & Hbind & Hpost).
  apply postProcess_same in Hpost as ([_ _ Huuid _ _ _ _ _ _ _ _] & _ & Hchildren & _).
  rewrite (uuids_same_root _ _ Huuid Hchildren).
  destruct (discarded_same data o1) as ([_ _ Huuid1 _ _ _ _ _ _ _ _] & _ & Hchildren1 & _).
  rewrite (uuids_same_root _ _ Huuid1 Hchildren1).
  rewrite <- (applyMatrixAutoUpdate_uuids data o).
  unfold applySkeletons in Hbind. destruct (Data.skeletons data) as [json|].
  - apply bind_Normal in Hbind as (skeletons & w2 & _ & Hbind).
    apply bindSkeletons_Normal in Hbind as [(_ & -> & _)|(_ & -> & _)]; [done|].
    apply uuids_visit_all, bound_uuid.
  - by run_inv Hbind.
Qed.

Lemma childless_new k : childless (THREE.new k).
Proof. by intros w o w' [= <- <-]. Qed.

Lemma childless_throw e : childless (throw e).
Proof. by intros w o w' H. Qed.

Lemma childless_ret o : children o = [] → childless (ret o).
Proof. by intros Ho w o' w' [= <- <-]. Qed.

Lemma childless_bind {A} (m : M A) k : (∀ a, childless (k a)) → childless (bind m k).
Proof. intros Hk w o w' (a & w1 & _ & H)%bind_Normal. exact (Hk _ _ _ _ H). Qed.

Lemma childless_bind_new kind k :
  (∀ n, childless (k (THREE.constructed kind n))) → childless (bind (THREE.new kind) k).
Proof.
  intros Hk w o w' (a & w1 & Hnew & H)%bind_Normal.
  injection Hnew as <- <-. exact (Hk _ _ _ _ H).
Qed.

Ltac childless_step :=
  first [ apply childless_new
        | apply childless_throw
        | apply childless_ret;
          repeat match goal with
                 | |- context [match ?x with _ => _ end] => destruct x
                 end;
          reflexivity
        | apply childless_bind_new; intros ?
        | apply childless_bind; intros ?
        | match goal with |- childless (match ?x with _ => _ end) => destruct x end ].

Lemma childless_arms :
  Forall (λ case : string * Arm, ∀ data parseCamera, childless (case.2 data parseCamera))
         switch.
Proof.
  unfold switch.
  repeat constructor; simpl; intros data parseCamera;
    unfold constructs, case_SpineAnimation, case_LensFlare, case_Scene, case_SkinnedMesh,
      case_InstancedMesh, case_Mesh, case_Sky, case_OrbitControls,
      case_PerspectiveCamera, case_OrthographicCamera, readViewport, case_LightProbe;
    repeat childless_step.
Qed.

Lemma create_childless data parseCamera : childless (create data parseCamera).
Proof.
  intros w o w'. unfold create, try_catch.
  destruct (construct data parseCamera w) as [[built|e] w1] eqn:Hconstruct.
  - intros [= <- <-]. revert Hconstruct. unfold construct.
    destruct (select (Data.type data) switch) as [arm|] eqn:Hselect; [|apply childless_new].
    pose proof childless_arms as Harms. revert Hselect.
    induction Harms as [|[label arm0] rest Harm _ IH]; simpl; [done|].
    case_decide; [intros [= <-]; apply Harm | exact IH].
  - apply childless_bind. intros _. apply childless_new.
Qed.

Lemma foldM_add_children_built (f : Data.t → M Object3D) children0 :
  ∀ object w object' w',
    foldM (λ object child, let* built := f child in ret (THREE.add built object))
          object children0 w = (Normal object', w') →
    ∃ built, object' = set_children (children object ++ built) object
             ∧ Forall2 (λ child b, ∃ w1 w2, f child w1 = (Normal b, w2)) children0 built.
Proof.
  induction children0 as [|child rest IH]; intros object w object' w' H; simpl in H.
  - run_inv H. exists []. rewrite app_nil_r, set_children_eta. split; [done | constructor].
  - apply bind_Normal in H as (parent & w1 & Hstep & H).
    apply bind_Normal in Hstep as (child' & w2 & Hbuilt & Hstep). run_inv Hstep.
    apply IH in H as (built & -> & Hrest).
    exists (child' :: built). unfold THREE.add. simpl.
    rewrite <- app_assoc. split; [done|]. constructor; eauto.
Qed.

Lemma parseObject_uuids data :
  ∀ w object w',
    parseObject data w = (Normal object, w') →
    uuids object = declared ∘ Data.uuid <$> records data.
Proof.
  induction data as [data IHchildren _] using Data_tree_ind.
  intros w object w'. rewrite parseObject_eq, records_eq. intros H.
  apply bind_Normal in H as (created & w0 & Hcreate & H).
  apply bind_Normal in H as (attributed0 & w1 & Happly & H).
  apply bind_Normal in H as (parent & w2 & Hchildren & H).
  apply create_childless in Hcreate.
  apply applyAttributes_form in Happly as (-> & -> & _).
  destruct (attributed_root data created) as [Huuid Hnone]. rewrite Hcreate in Hnone.
  rewrite (finish_uuids _ _ _ _ _ H). clear H.
  unfold attachChildren in Hchildren.
  destruct (Data.children data) as [kids|]; simpl in IHchildren.
  - apply foldM_add_children_built in Hchildren as (built & -> & Hbuilt).
    rewrite uuids_eq. simpl. rewrite Huuid, Hnone. simpl. f_equal.
    clear Hnone Huuid. induction Hbuilt as [|kid b kids built (w3 & w4 & Hb) _ IH]; [done|].
    apply Forall_cons in IHchildren as [Hkid Hkids].
    simpl. rewrite fmap_app, (Hkid _ _ _ Hb), IH by done. reflexivity.
  - run_inv Hchildren. rewrite uuids_eq, Huuid, Hnone. reflexivity.
Qed.

Lemma first_of_is_Some u l :
  is_Some (first_of u l) ↔ ∃ c, c ∈ l ∧ is_Some (THREE.getObjectByProperty_uuid u c).
Proof.
  induction l as [|c l IH]; simpl.
  - split; [by intros [? ?] | by intros (c & Hc%elem_of_nil & _)].
  - destruct (THREE.getObjectByProperty_uuid u c) as [found|] eqn:Hc.
    + split; [|eauto]. intros _. exists c. rewrite Hc. split; [left | eauto].
    + rewrite IH. split.
      * intros (c' & Hin & Hfound). exists c'. split; [by right | done].
      * intros (c' & [->|Hin]%elem_of_cons & Hfound); [|by eauto].
        rewrite Hc in Hfound. by destruct Hfound.
Qed.

Lemma elem_of_flat_map {A B} (g : A → list B) l y :
  y ∈ flat_map g l ↔ ∃ x, x ∈ l ∧ y ∈ g x.
Proof.
  induction l as [|x l IH]; cbn [flat_map].
  - split; [by intros ?%elem_of_nil | by intros (x & ?%elem_of_nil & _)].
  - rewrite elem_of_app, IH. split.
    + intros [Hy|(x' & Hx' & Hy)]; [exists x; split; [left | done] | exists x'; split; [by right | done]].
    + intros (x' & [->|Hx']%elem_of_cons & Hy); [by left | right; eauto].
Qed.

Lemma lookup_is_Some u o :
  is_Some (THREE.getObjectByProperty_uuid u o) ↔ declared u ∈ uuids o.
Proof.
  induction o as [o IH] using Object3D_tree_ind.
  rewrite getObjectByProperty_uuid_eq, uuids_eq, elem_of_cons.
  rewrite Forall_forall in IH.
  case_decide as Hroot.
  - split; [intros _; by left | eauto].
  - rewrite first_of_is_Some, elem_of_flat_map. split.
    + intros (c & Hin & Hfound). right. exists c. split; [done | by apply IH].
    + intros [Heq|(c & Hin & Hfound)]; [by destruct Hroot|].
      exists c. split; [done | by apply IH].
Qed.



(** ** A LOD record without levels *)

(** X11.  On a ["LOD"] record without a [levels] array [parseObject]
    never returns an object: whatever the rest of the record holds, it
    throws. *)
Theorem lod_needs_levels data w :
  Data.type data = "LOD" →
  Data.levels data = None →
  ∃ e w', parseObject data w = (Thrown e, w').
Proof.
  intros Htype Hlevels. rewrite parseObject_eq. unfold bind.
  destruct (create data (parseDefaultCamera data) w) as [[created|e] w0]; [|eauto].
  destruct (applyAttributes data created w0) as [[attributed0|e] w1]; [|eauto].
  destruct (attachChildren data attributed0 w1) as [[parent|e] w2]; [|eauto].
  unfold finish, bind.
  destruct (applySkeletons data (applyMatrixAutoUpdate data parent) w2) as [[o1|e] w3];
    [|eauto].
  destruct (reparseAnimations data o1 w3) as [[o2|e] w4]; [|eauto].
  unfold postProcess. rewrite Htype. simpl. unfold lodLevels. rewrite Hlevels. eauto.
Qed.

Lemma lod_needs_levels_witness :
  ∃ w', parseObject bare_lod fresh = (Thrown (undefined_read "length"), w').
Proof.
  destruct (lod_needs_levels bare_lod fresh eq_refl eq_refl) as (e & w' & Hrun).
  exists w'. rewrite Hrun. vm_compute in Hrun. by injection Hrun as <- <-.
Defined.

(** ** Scene cameras that all resolve *)

Lemma create_Scene data w created w0 :
  Data.type data = "Scene" →
  create data (parseDefaultCamera data) w = (Normal created, w0) →
  cameras created = None ∨
  cameras created = Some (cameraUUID <$> default [] (Data.cameras data)).
Proof.
  intros Htype. unfold create, try_catch, construct. rewrite Htype.
  change (select "Scene" switch) with (Some case_Scene).
  destruct (case_Scene data (parseDefaultCamera data) w) as [[built|e] w1] eqn:Hbuilt.
  - intros [= <- <-]. right. unfold case_Scene in Hbuilt.
    apply bind_Normal in Hbuilt as (scene & w2 & Hnew & H).
    apply bind_Normal in H as ([] & w3 & _ & H). injection Hnew as <- <-.
    destruct (Data.world data) as [world|];
      [destruct (PhysicsWorld.gravity world), (PhysicsWorld.solver world)|];
      try done; run_inv H; by destruct (Data.cameras data).
  - intros H. apply bind_Normal in H as ([] & w2 & _ & H). injection H as <- <-. by left.
Qed.

Lemma attributed_cameras data o : cameras (attributed data o) = cameras o.
Proof.
  unfold attributed, applyVisibility, applyTransform, applyIdentity.
  written cameras. reflexivity.
Qed.

Lemma kept_all_found o us :
  Forall (λ u, is_Some (THREE.getObjectByProperty_uuid u o)) us →
  Forall2 (λ u entry, ∃ camera, THREE.getObjectByProperty_uuid u o = Some camera
                                ∧ entry = cameraObject (oid camera))
          us (kept o (cameraUUID <$> us)).
Proof.
  induction 1 as [|u us [camera Hu] _ IH]; simpl; [constructor|].
  rewrite Hu. constructor; eauto.
Qed.

Lemma applySkeletons_form data o w o' w' :
  applySkeletons data o w = (Normal o', w') →
  ∃ kids u s, o' = set_children kids (set_skeletonUUID u (set_skeleton s o)).
Proof.
  unfold applySkeletons. intros Hbind. destruct (Data.skeletons data) as [json|].
  - apply bind_Normal in Hbind as (skeletons & w2 & _ & Hbind).
    apply bindSkeletons_Normal in Hbind as [(_ & -> & _)|(_ & -> & _)].
    + exists (children o), (skeletonUUID o), (skeleton o). by destruct o.
    + rewrite visit_all_eq. destruct (bound_form skeletons o) as (u & s & ->).
      by eexists _, u, s.
  - run_inv Hbind. exists (children o'), (skeletonUUID o'), (skeleton o'). by destruct o'.
Qed.

(** X12.  When every UUID of the [cameras] list of a scene record is the
    UUID of a record of the scene's tree, the [cameras] of the scene hold,
    in declared order, the objects that a lookup finds for these UUIDs. *)
Theorem scene_cameras_resolved data us w object w' :
  Data.type data = "Scene" →
  Data.cameras data = Some us →
  parseObject data w = (Normal object, w') →
  Forall (λ u, u ∈ Data.uuid <$> records data) us →
  ∃ entries,
    cameras object = Some entries ∧
    Forall2 (λ u entry, ∃ camera, THREE.getObjectByProperty_uuid u object = Some camera
                                  ∧ entry = cameraObject (oid camera))
            us entries.
Proof.
  intros Htype Hcameras Hrun Hall.
  pose proof (parseObject_uuids data w object w' Hrun) as Huuids.
  rewrite parseObject_eq in Hrun.
  apply bind_Normal in Hrun as (created & w0 & Hcreate & H).
  apply bind_Normal in H as (attributed0 & w1 & Happly & H).
  apply bind_Normal in H as (parent & w2 & Hchildren & H).
  apply (create_Scene _ _ _ _ Htype) in Hcreate. rewrite Hcameras in Hcreate.
  simpl in Hcreate.
  apply applyAttributes_form in Happly as (-> & -> & _).
  apply attachChildren_form in Hchildren as (built & ->).
  apply finish_Normal in H as (o1 & w3 & Hbind & Hpost).
  assert (cameras (discarded data o1) = cameras created) as Hkept.
  { apply applySkeletons_form in Hbind as (kids & u & s & ->).
    unfold discarded, applyMatrixAutoUpdate.
    destruct (Data.animations data), (Data.matrixAutoUpdate data) as [[]|]; simpl;
      apply attributed_cameras. }
  revert Hkept Hpost Huuids. generalize (discarded data o1). intros o3 Hkept Hpost Huuids.
  unfold postProcess in Hpost. rewrite Htype in Hpost. simpl in Hpost.
  destruct Hcreate as [Hnone|Hsome].
  - unfold sceneCameras in Hpost. by rewrite Hkept, Hnone in Hpost.
  - rewrite (sceneCameras_kept _ (cameraUUID <$> us)) in Hpost by congruence.
    injection Hpost as <- <-. eexists. split; [reflexivity|].
    rewrite (uuids_same_root o3 (set_cameras _ o3) eq_refl eq_refl) in Huuids.
    assert (Forall (λ u, is_Some (THREE.getObjectByProperty_uuid u o3)) us) as Hfound.
    { eapply Forall_impl; [exact Hall|]. intros u Hu. apply lookup_is_Some.
      rewrite Huuids, list_fmap_compose. by apply list_elem_of_fmap_2. }
    eapply Forall2_impl; [exact (kept_all_found o3 us Hfound)|].
    intros u entry (camera & Hu & ->).
    pose proof (lookup_same_root u o3
                  (set_cameras (Some (kept o3 (cameraUUID <$> us))) o3)
                  eq_refl eq_refl eq_refl) as Hsame.
    rewrite Hu in Hsame.
    destruct (THREE.getObjectByProperty_uuid u
                (set_cameras (Some (kept o3 (cameraUUID <$> us))) o3)) as [camera'|];
      [|done].
    injection Hsame as Hsame. exists camera'. by rewrite Hsame.
Qed.

Lemma scene_cameras_resolved_witness :
  ∃ object w',
    parseObject scene_with_two_cameras fresh = (Normal object, w') ∧
    cameras object = Some [cameraObject 1; cameraObject 2].
Proof.
  destruct (parseObject scene_with_two_cameras fresh) as [[object|e] w'] eqn:Hrun;
    [|by vm_compute in Hrun].
  exists object, w'. split; [done|].
  destruct (scene_cameras_resolved scene_with_two_cameras ["uuid1"; "uuid2"] fresh object w'
              eq_refl eq_refl Hrun
              ltac:(repeat constructor; apply (bool_decide_unpack _); by vm_compute))
    as (entries & Hentries & _).
  vm_compute in Hrun. injection Hrun as <- <-. reflexivity.
Defined.

(** ** Declarations that [parseSkeletons] can read *)

Lemma parseBones_Normal object invs boneParams :
  ∀ j bones0 inverses0 w result w',
    parseBones object invs boneParams j bones0 inverses0 w = (Normal result, w') →
    boneParams = [] ∨ ∃ arrays, invs = Some arrays ∧ (j + length boneParams ≤ length arrays)%nat.
Proof.
  induction boneParams as [|u rest IH]; intros j bones0 inverses0 w result w' H;
    [by left|right].
  simpl in H. apply bind_Normal in H as (bone & w1 & _ & H).
  apply bind_Normal in H as (inverse & w2 & Hinverse & H).
  destruct invs as [arrays|]; [|done]. exists arrays. split; [done|].
  destruct (arrays !! j) as [array|] eqn:Harray; [|done].
  apply lookup_lt_Some in Harray.
  apply IH in H as [->|(arrays' & [= <-] & Hlen)]; simpl; lia.
Qed.

Lemma parseBones_sufficient object sp w :
  sufficient sp →
  parseBones object (SkeletonParams.boneInverses sp) (SkeletonParams.bones sp) 0 [] [] w
  = (Normal (resolved object (next_oid w) (SkeletonParams.bones sp),
             take (length (SkeletonParams.bones sp))
               (default [] (SkeletonParams.boneInverses sp))),
     allocate (length (missing object (SkeletonParams.bones sp)))
       (log (console_warn ∘ bone_not_found <$> missing object (SkeletonParams.bones sp)) w)).
Proof.
  intros [Hnone|(arrays & Harrays & Hlen)].
  - rewrite Hnone. simpl. unfold ret. by rewrite log_nil, allocate_0.
  - rewrite Harrays, parseBones_run by (simpl; lia). simpl. by rewrite drop_0.
Qed.

Lemma parseSkeletons_sufficient object json :
  Forall sufficient json →
  ∀ skeletons w,
    foldM (λ (skeletons : gmap string Skeleton) skeletonParams,
             let uuid := SkeletonParams.uuid skeletonParams in
             let boneParams := SkeletonParams.bones skeletonParams in
             let boneInverseParams := SkeletonParams.boneInverses skeletonParams in
             let* built := parseBones object boneInverseParams boneParams 0 [] [] in
             ret (<[uuid := mkSkeleton built.1 built.2]> skeletons))
          skeletons json w
    = (Normal (built object (next_oid w) json skeletons),
       allocate (length (all_missing object json))
         (log (console_warn ∘ bone_not_found <$> all_missing object json) w)).
Proof.
  induction 1 as [|sp rest Hsp _ IH]; intros skeletons w; simpl.
  - unfold ret. by rewrite log_nil, allocate_0.
  - unfold bind at 1. unfold bind at 1. rewrite (parseBones_sufficient object sp w Hsp).
    unfold ret at 1. rewrite IH. simpl. f_equal.
    unfold all_missing. simpl. rewrite length_app, fmap_app.
    rewrite allocate_log, allocate_allocate, <- allocate_log, log_log. reflexivity.
Qed.

Lemma parseSkeletons_Normal object json :
  ∀ skeletons w result w',
    foldM (λ (skeletons : gmap string Skeleton) skeletonParams,
             let uuid := SkeletonParams.uuid skeletonParams in
             let boneParams := SkeletonParams.bones skeletonParams in
             let boneInverseParams := SkeletonParams.boneInverses skeletonParams in
             let* built := parseBones object boneInverseParams boneParams 0 [] [] in
             ret (<[uuid := mkSkeleton built.1 built.2]> skeletons))
          skeletons json w = (Normal result, w') →
    Forall sufficient json.
Proof.
  induction json as [|sp rest IH]; intros skeletons w result w' H; [constructor|].
  simpl in H. apply bind_Normal in H as (acc & w1 & Hstep & H).
  apply bind_Normal in Hstep as (pair & w2 & Hbones & _).
  constructor; [|by eapply IH].
  apply parseBones_Normal in Hbones as [Hnone|(arrays & Harrays & Hlen)]; [by left|].
  right. exists arrays. split; [done | simpl in Hlen; lia].
Qed.


(** ** A skeleton declared twice *)

Lemma all_missing_app object l1 l2 :
  all_missing object (l1 ++ l2) = all_missing object l1 ++ all_missing object l2.
Proof. unfold all_missing. apply flat_map_app. Qed.

Lemma all_missing_cons object sp l :
  all_missing object (sp :: l)
  = missing object (SkeletonParams.bones sp) ++ all_missing object l.
Proof. reflexivity. Qed.

Lemma built_app object l1 l2 :
  ∀ next skeletons,
    built object next (l1 ++ l2) skeletons
    = built object (next + length (all_missing object l1)) l2 (built object next l1 skeletons).
Proof.
  induction l1 as [|sp l1 IH]; intros next skeletons; simpl.
  - by rewrite Nat.add_0_r.
  - rewrite IH. unfold all_missing. simpl. rewrite length_app. by rewrite Nat.add_assoc.
Qed.

Lemma built_other object u l :
  Forall (λ sp, SkeletonParams.uuid sp ≠ u) l →
  ∀ next skeletons, built object next l skeletons !! u = skeletons !! u.
Proof.
  induction 1 as [|sp l Hsp _ IH]; intros next skeletons; simpl; [done|].
  by rewrite IH, lookup_insert_ne.
Qed.

(** X14.  When a skeleton UUID is declared more than once, the table
    holds the skeleton built from the last declaration: its bones follow
    the bone UUIDs of that declaration, and its inverse matrices are the
    first ones of that declaration, one per bone. *)
Theorem later_declaration_wins pre sp post object w skeletons w1 :
  Forall (λ later, SkeletonParams.uuid later ≠ SkeletonParams.uuid sp) post →
  parseSkeletons (Some (pre ++ sp :: post)) object w = (Normal skeletons, w1) →
  ∃ sk,
    skeletons !! SkeletonParams.uuid sp = Some sk ∧
    Forall2 (bone_of object (next_oid w) (next_oid w1)) (SkeletonParams.bones sp) (bones sk) ∧
    boneInverses sk
    = take (length (SkeletonParams.bones sp)) (default [] (SkeletonParams.boneInverses sp)).
Proof.
  intros Hpost. unfold parseSkeletons. intros H.
  pose proof (parseSkeletons_Normal _ _ _ _ _ _ H) as Hjson.
  rewrite (parseSkeletons_sufficient object _ Hjson) in H. injection H as <- <-.
  rewrite built_app. simpl. rewrite built_other by done. rewrite lookup_insert_eq.
  eexists. split; [reflexivity|]. split; [|reflexivity]. simpl.
  apply resolved_bone_of; [lia|].
  rewrite all_missing_app, all_missing_cons, !length_app. lia.
Qed.

Lemma later_declaration_wins_witness :
  ∃ skeletons w1,
    parseSkeletons (Some declared_twice) rig_tree (mkWorld 4 [] ResourceContainer.empty)
      = (Normal skeletons, w1) ∧
    skeletons !! "sk" = Some (mkSkeleton [1] [[2%Z]]).
Proof.
  destruct (parseSkeletons (Some declared_twice) rig_tree
              (mkWorld 4 [] ResourceContainer.empty)) as [[skeletons|e] w1] eqn:Hrun;
    [|by vm_compute in Hrun].
  exists skeletons, w1. split; [done|].
  destruct (later_declaration_wins
              [SkeletonParams.mk "sk" ["ghost"] (Some [[1%Z]])]
              (SkeletonParams.mk "sk" ["b1"] (Some [[2%Z]])) [] rig_tree _ _ _
              (Forall_nil_2 _) Hrun) as (sk & Hsk & _ & _).
  vm_compute in Hrun. injection Hrun as <- <-. reflexivity.
Defined.

(** ** Binding a second time *)

Lemma visit_all_fixed g o :
  Forall (λ n, g n = n) (THREE.nodes o) → visit_all g o = o.
Proof.
  induction o as [o IH] using Object3D_tree_ind.
  rewrite nodes_eq, visit_all_eq. intros [Hroot Hrest]%Forall_cons. rewrite Hroot.
  transitivity (set_children (children o) o); [|apply set_children_eta]. f_equal.
  induction IH as [|c l Hc _ IHl]; simpl in *; [done|].
  apply Forall_app in Hrest as [Hhere Hrest]. by rewrite Hc, IHl.
Qed.

Lemma bindSkeletons_unasked object skeletons w :
  Forall no_skeletonUUID (THREE.nodes object) →
  bindSkeletons object skeletons w = (Normal object, w).
Proof.
  intros Hnone. destruct (decide (skeletons = ∅)) as [->|Hne].
  - unfold bindSkeletons. by rewrite map_size_empty.
  - rewrite bindSkeletons_run by done. f_equal.
    + f_equal. apply visit_all_fixed. eapply Forall_impl; [exact Hnone|].
      intros n Hn. unfold bound, no_skeletonUUID in *.
      destruct (isSkinnedMesh n); [by rewrite Hn|done].
    + rewrite <- (log_nil w) at 2. f_equal.
      induction Hnone as [|n l Hn _ IH]; simpl; [done|]. rewrite IH.
      unfold unbound_warning, no_skeletonUUID in *.
      destruct (isSkinnedMesh n); [by rewrite Hn|done].
Qed.

(** X15.  After [bindSkeletons] has run with a table that is not empty,
    running it again on the result, with any table, changes nothing and
    prints nothing: a skinned mesh is bound, or warned about, once. *)
Theorem binding_happens_once object skeletons w object' w' :
  skeletons ≠ ∅ →
  bindSkeletons object skeletons w = (Normal object', w') →
  ∀ later, bindSkeletons object' later w' = (Normal object', w').
Proof.
  intros Hne. rewrite bindSkeletons_run by done. intros [= <- <-] later.
  apply bindSkeletons_unasked, visit_all_bound_no_skeletonUUID.
Qed.

Lemma binding_happens_once_witness :
  ∃ object' w',
    bindSkeletons rig_tree {[ "sk" := mkSkeleton [1] [[1%Z]] ]} fresh = (Normal object', w') ∧
    trace w' = [console_warn (skeleton_not_found "lost")] ∧
    bindSkeletons object' {[ "lost" := mkSkeleton [] [] ]} w' = (Normal object', w').
Proof.
  destruct (bindSkeletons rig_tree {[ "sk" := mkSkeleton [1] [[1%Z]] ]} fresh)
    as [[object'|e] w'] eqn:Hrun; [|by vm_compute in Hrun].
  exists object', w'. split; [done|]. split.
  - vm_compute in Hrun. by injection Hrun as <- <-.
  - exact (binding_happens_once rig_tree {[ "sk" := mkSkeleton [1] [[1%Z]] ]} fresh
             object' w' ltac:(apply map_non_empty_singleton) Hrun _).
Defined.

(** ** The base path that [load] derives from a URL *)

Lemma prefix_empty s : String.prefix "" s = true.
Proof. by destruct s. Qed.

Lemma prefix_one a c rest :
  String.prefix (String a "") (String c rest) = bool_decide (a = c).
Proof.
  cbn [String.prefix]. destruct (Ascii.ascii_dec a c) as [->|Hne].
  - by rewrite prefix_empty, bool_decide_eq_true_2.
  - by rewrite bool_decide_eq_false_2.
Qed.

Lemma lastIndexOf_cons c rest :
  lastIndexOf "/" (String c rest)
  = if (0 <=? lastIndexOf "/" rest)%Z then (lastIndexOf "/" rest + 1)%Z
    else if bool_decide (String c "" = "/") then 0%Z
    else (-1)%Z.
Proof.
  cbn [lastIndexOf]. rewrite prefix_one.
  destruct (0 <=? lastIndexOf "/" rest)%Z; [done|].
  repeat case_bool_decide; congruence.
Qed.

Lemma lastIndexOf_bounds s :
  (-1 ≤ lastIndexOf "/" s < Z.of_nat (String.length s))%Z.
Proof.
  induction s as [|c rest IH]; [simpl; lia|].
  rewrite lastIndexOf_cons. cbn [String.length].
  destruct (0 <=? lastIndexOf "/" rest)%Z eqn:Hfound; [lia|].
  case_bool_decide; lia.
Qed.

Lemma substring_prefix n s :
  (0 ≤ n ≤ Z.of_nat (String.length s))%Z →
  substring 0 n s = String.substring 0 (Z.to_nat n) s.
Proof.
  intros Hn. unfold substring. cbv zeta. f_equal; lia.
Qed.

Lemma append_nil b : "" +:+ b = b.
Proof. reflexivity. Qed.

Lemma append_cons c a b : String c a +:+ b = String c (a +:+ b).
Proof. reflexivity. Qed.

Lemma substring_none s : String.substring 0 0 s = "".
Proof. by destruct s. Qed.

Lemma append_slash_nonempty dir : dir +:+ "/" ≠ "".
Proof. destruct dir; [rewrite append_nil | rewrite append_cons]; discriminate. Qed.

(** The part of [s] up to and with the last ["/"], and what follows it. *)
Lemma last_slash s :
  ∃ file,
    s = String.substring 0 (Z.to_nat (lastIndexOf "/" s + 1)) s +:+ file ∧
    lastIndexOf "/" file = (-1)%Z ∧
    ((lastIndexOf "/" s = (-1)%Z ∧ file = s) ∨
     ∃ dir, String.substring 0 (Z.to_nat (lastIndexOf "/" s + 1)) s = dir +:+ "/").
Proof.
  induction s as [|c rest (file & Hsplit & Hfile & Hdir)].
  { exists "". split; [reflexivity|]. split; [reflexivity|]. by left. }
  pose proof (lastIndexOf_bounds rest) as Hbounds. rewrite lastIndexOf_cons.
  destruct (0 <=? lastIndexOf "/" rest)%Z eqn:Hfound.
  - apply Z.leb_le in Hfound.
    replace (Z.to_nat (lastIndexOf "/" rest + 1 + 1))
      with (S (Z.to_nat (lastIndexOf "/" rest + 1))) by lia.
    exists file. cbn [String.substring]. rewrite append_cons.
    split; [by rewrite <- Hsplit|]. split; [done|]. right.
    destruct Hdir as [[Hnone _]|(dir & ->)]; [lia|]. by exists (String c dir).
  - apply Z.leb_gt in Hfound.
    replace (lastIndexOf "/" rest) with (-1)%Z in * by lia.
    change (Z.to_nat (-1 + 1)) with 0%nat in *.
    rewrite substring_none, append_nil in Hsplit. subst file.
    case_bool_decide as Hc.
    + exists rest. change (Z.to_nat (0 + 1)) with 1%nat.
      cbn [String.substring]. rewrite substring_none, append_cons, append_nil.
      split; [done|]. split; [done|]. right. exists "". by rewrite append_nil.
    + exists (String c rest). rewrite substring_none, append_nil.
      split; [done|]. split; [|by left].
      rewrite lastIndexOf_cons, Hfile. simpl. by rewrite bool_decide_eq_false_2.
Qed.

Lemma lastIndexOf_occurrence a b : (0 ≤ lastIndexOf "/" (a +:+ "/" +:+ b))%Z.
Proof.
  induction a as [|c a IH].
  - rewrite append_nil, append_cons, append_nil, lastIndexOf_cons.
    pose proof (lastIndexOf_bounds b). destruct (0 <=? lastIndexOf "/" b)%Z; [lia|].
    by rewrite bool_decide_eq_true_2.
  - rewrite append_cons, lastIndexOf_cons.
    destruct (0 <=? lastIndexOf "/" (a +:+ "/" +:+ b))%Z eqn:Hfound; [lia|].
    apply Z.leb_gt in Hfound. lia.
Qed.

(** X16.  When no texture path is set, [load] sets it to the part of the
    URL up to and with its last ["/"]: the URL is the path followed by a
    file name without ["/"], and the path is empty, the URL then being the
    file name, or it ends with ["/"]. *)
Theorem load_derives_texturePath JSON_parse url onLoad onProgress onError self :
  texturePath self = "" →
  ∃ file,
    url = texturePath (load JSON_parse url onLoad onProgress onError self).1 +:+ file ∧
    (¬ ∃ a b, file = a +:+ "/" +:+ b) ∧
    ((texturePath (load JSON_parse url onLoad onProgress onError self).1 = "" ∧ file = url) ∨
     ∃ dir, texturePath (load JSON_parse url onLoad onProgress onError self).1 = dir +:+ "/").
Proof.
  intros Hunset. unfold load. rewrite decide_True by done. simpl.
  pose proof (lastIndexOf_bounds url) as Hbounds.
  rewrite substring_prefix by lia.
  destruct (last_slash url) as (file & Hsplit & Hfile & Hdir).
  exists file. split; [exact Hsplit|]. split.
  - intros (a & b & ->). pose proof (lastIndexOf_occurrence a b). lia.
  - destruct Hdir as [[Hnone ->]|Hdir]; [left|by right].
    rewrite Hnone. change (Z.to_nat (-1 + 1)) with 0%nat.
    by rewrite substring_none.
Qed.

Lemma load_derives_texturePath_witness :
  texturePath (load (λ _, throw (TypeError "SyntaxError")) "models/level1/scene.nsp"
                 None None None (create_loader None)).1
  = "models/level1/".
Proof.
  destruct (load_derives_texturePath (λ _, throw (TypeError "SyntaxError"))
              "models/level1/scene.nsp" None None None (create_loader None) eq_refl)
    as (file & _ & _ & _).
  reflexivity.
Defined.

(** ** The base path once it is set *)

(** X17.  A loader keeps the texture path it has after loading a URL
    with a ["/"] in it: a later [load] leaves the path alone. *)
Theorem first_directory_stays JSON_parse url1 url2 a b onLoad onProgress onError self :
  url1 = a +:+ "/" +:+ b →
  texturePath (load JSON_parse url2 onLoad onProgress onError
                 (load JSON_parse url1 onLoad onProgress onError self).1).1
  = texturePath (load JSON_parse url1 onLoad onProgress onError self).1.
Proof.
  intros ->. unfold load at 1. rewrite decide_False; [done|].
  unfold load. case_decide as Hunset; [|done]. simpl.
  pose proof (lastIndexOf_bounds (a +:+ "/" +:+ b)) as Hbounds.
  pose proof (lastIndexOf_occurrence a b) as Hfound.
  rewrite substring_prefix by lia.
  destruct (last_slash (a +:+ "/" +:+ b)) as (file & _ & _ & [[Hnone _]|(dir & ->)]);
    [lia|]. apply append_slash_nonempty.
Qed.

Lemma first_directory_stays_witness :
  texturePath (load (λ _, throw (TypeError "SyntaxError")) "other/b.nsp" None None None
                 (load (λ _, throw (TypeError "SyntaxError")) "models/a.nsp" None None None
                    (create_loader None)).1).1
  = "models/".
Proof.
  rewrite (first_directory_stays (λ _, throw (TypeError "SyntaxError"))
             "models/a.nsp" "other/b.nsp" "models" "a.nsp" None None None
             (create_loader None) eq_refl).
  reflexivity.
Defined.

(** ** A scene whose construction fails *)

Global Instance trace_grows_preorder : PreOrder trace_grows.
Proof.
  split.
  - intros w event Hin. exact Hin.
  - intros w1 w2 w3 H12 H23 event Hin. apply H23, H12, Hin.
Qed.

Lemma emit_trace_grows e : respects trace_grows (emit e).
Proof. intros w r w' [= <- <-] event Hin. simpl. apply elem_of_app. by left. Qed.

Lemma new_trace_grows k : respects trace_grows (THREE.new k).
Proof. by intros w r w' [= <- <-] event Hin. Qed.

Lemma parser_trace_grows s json : respects trace_grows (parser s json).
Proof.
  intros w r w' Hrun event Hin.
  destruct (resource_parsers_trace s json w) as [Hnormal Htrace].
  rewrite Hnormal in Hrun. injection Hrun as <- <-. by rewrite Htrace.
Qed.

Lemma attachChildren_trace_grows data object :
  respects trace_grows (attachChildren data object).
Proof.
  unfold attachChildren. destruct (Data.children data) as [kids|];
    [|apply respects_ret, _].
  apply respects_foldM; [apply _|]. apply Forall_forall. intros child _ acc.
  apply respects_bind; [apply _| |intros built; apply respects_ret, _].
  exact (respects_parseObject trace_grows emit_trace_grows new_trace_grows
           parser_trace_grows child).
Qed.

Lemma applyAttributes_trace_grows data object :
  respects trace_grows (applyAttributes data object).
Proof.
  intros w r w' Hrun event Hin. by apply applyAttributes_world in Hrun as ->.
Qed.

(** X18.  When the switch throws on a ["Scene"] record, [parseObject]
    prints the error and throws nevertheless: the [Container] that
    replaces the scene has no [cameras] for the camera pass to read. *)
Theorem scene_failure_is_not_contained data w e w1 :
  Data.type data = "Scene" →
  construct data (parseDefaultCamera data) w = (Thrown e, w1) →
  ∃ e' w', parseObject data w = (Thrown e', w')
           ∧ console_error (object_skiped (Data.uuid data)) ∈ trace w'.
Proof.
  intros Htype Hthrown.
  pose proof (construction_failure_contained _ _ _ _ _ Hthrown) as Hcreate.
  destruct (parseObject data w) as [[object|e'] w'] eqn:Hrun.
  - exfalso. rewrite parseObject_eq, (bind_step _ _ _ _ _ Hcreate) in Hrun.
    apply bind_Normal in Hrun as (attributed0 & w2 & Happly & H).
    apply bind_Normal in H as (parent & w3 & Hchildren & H).
    apply applyAttributes_form in Happly as (-> & -> & _).
    apply attachChildren_form in Hchildren as (built & ->).
    apply finish_Normal in H as (o1 & w4 & Hbind & Hpost).
    apply applySkeletons_form in Hbind as (kids & u & s & ->).
    unfold postProcess in Hpost. rewrite Htype in Hpost. simpl in Hpost.
    unfold sceneCameras, discarded, applyMatrixAutoUpdate in Hpost.
    destruct (Data.animations data), (Data.matrixAutoUpdate data) as [[]|];
      simpl in Hpost; by rewrite attributed_cameras in Hpost.
  - exists e', w'. split; [done|].
    rewrite parseObject_eq in Hrun. unfold bind at 1 in Hrun. rewrite Hcreate in Hrun.
    assert (respects trace_grows
              (let* object := applyAttributes data
                                (THREE.constructed Kind.Container (next_oid w1)) in
               let* object := attachChildren data object in
               finish data object)) as Hgrows.
    { apply respects_bind; [apply _ | apply applyAttributes_trace_grows | intros attributed0].
      apply respects_bind; [apply _ | apply attachChildren_trace_grows | intros parent].
      exact (respects_finish trace_grows emit_trace_grows new_trace_grows data parent). }
    apply (Hgrows _ _ _ Hrun). simpl. apply elem_of_app. right. apply list_elem_of_here.
Qed.

Lemma scene_failure_is_not_contained_witness :
  ∃ e' w', parseObject corrupt_scene fresh = (Thrown e', w')
           ∧ console_error (object_skiped "s") ∈ trace w'.
Proof.
  destruct (construct corrupt_scene (parseDefaultCamera corrupt_scene) fresh)
    as [[built|e] w1] eqn:Hconstruct; [by vm_compute in Hconstruct|].
  exact (scene_failure_is_not_contained corrupt_scene fresh e w1 eq_refl Hconstruct).
Defined.

(** ** The levels of a LOD, read off the document *)

Lemma lod_levels_registered data levels0 w object w' :
  Data.type data = "LOD" →
  Data.levels data = Some levels0 →
  parseObject data w = (Normal object, w') →
  levels object = registered object levels0.
Proof.
  intros Htype Hlevels. rewrite parseObject_eq. intros H.
  apply bind_Normal in H as (created & w0 & Hcreate & H).
  apply bind_Normal in H as (attributed0 & w1 & Happly & H).
  apply bind_Normal in H as (parent & w2 & Hchildren & H).
  apply finish_Normal in H as (o1 & w3 & Hskeletons & H).
  rewrite create_LOD in Hcreate by done. injection Hcreate as <- <-.
  apply applyAttributes_Normal in Happly as [-> [_ Hk1 Hl1 _ _ _ _ _ _ _ _ _]].
  apply attachChildren_same in Hchildren as [[_ Hk2 _ _ _ _ _ _ _ _ _] Hl2].
  destruct (applyMatrixAutoUpdate_same data parent) as ([_ Hk3 _ _ _ _ _ _ _ _ _] & Hl3 & _).
  apply applySkeletons_same in Hskeletons as [[_ Hk4 _ _ _ _ _ _ _ _ _] Hl4].
  destruct (discarded_same data o1) as ([_ Hk5 _ _ _ _ _ _ _ _ _] & Hl5 & _).
  set (lod := discarded data o1) in *.
  assert (kind lod = Kind.LOD) as Hkind by (simpl in *; congruence).
  assert (levels lod = []) as Hnone by (simpl in *; congruence).
  unfold postProcess in H. rewrite Htype in H. simpl in H.
  unfold lodLevels in H. rewrite Hlevels in H.
  rewrite lodLevels_run in H by done. injection H as <- <-.
  change (levels lod ++ registered lod levels0
          = registered (set_levels (levels lod ++ registered lod levels0) lod) levels0).
  rewrite Hnone. symmetry. by apply registered_same_root.
Qed.

Lemma registered_distances object (known : list string) levels0 :
  (∀ u, is_Some (THREE.getObjectByProperty_uuid u object) ↔ u ∈ known) →
  level_distance <$> registered object levels0
  = Level.distance <$> filter (λ level, Level.object level ∈ known) levels0.
Proof.
  intros Hknown. induction levels0 as [|level rest IH]; [done|].
  rewrite registered_cons, filter_cons.
  destruct (THREE.getObjectByProperty_uuid (Level.object level) object) as [child|] eqn:Hchild.
  - rewrite decide_True by (apply Hknown; rewrite Hchild; eauto).
    by rewrite !fmap_cons, IH.
  - rewrite decide_False; [done|]. intros [child Hfound]%Hknown. congruence.
Qed.

Lemma first_of_Some u l found :
  first_of u l = Some found →
  ∃ c, c ∈ l ∧ THREE.getObjectByProperty_uuid u c = Some found.
Proof.
  induction l as [|c l IH]; simpl; [done|].
  destruct (THREE.getObjectByProperty_uuid u c) as [found'|] eqn:Hc.
  - intros [= <-]. exists c. split; [left | done].
  - intros (c' & Hin & Hfound)%IH. exists c'. split; [by right | done].
Qed.

(** What a lookup finds is an object of the tree. *)
Lemma lookup_in_nodes u o found :
  THREE.getObjectByProperty_uuid u o = Some found → found ∈ THREE.nodes o.
Proof.
  revert found. induction o as [o IH] using Object3D_tree_ind. intros found.
  rewrite getObjectByProperty_uuid_eq, nodes_eq. rewrite Forall_forall in IH.
  case_decide; [intros [= <-]; left|].
  intros (c & Hin & Hfound)%first_of_Some. right.
  apply elem_of_flat_map. exists c. split; [done | by apply IH].
Qed.

Lemma registered_in_nodes object levels0 :
  Forall (λ level, level_object level ∈ oid <$> THREE.nodes object)
         (registered object levels0).
Proof.
  induction levels0 as [|level rest IH]; [constructor|]. rewrite registered_cons.
  destruct (THREE.getObjectByProperty_uuid (Level.object level) object) as [child|] eqn:Hchild;
    [|done].
  constructor; [|done]. simpl. apply list_elem_of_fmap_2. by eapply lookup_in_nodes.
Qed.



(** ** Every record gets an object of its own *)

Global Instance counter_grows_preorder : PreOrder counter_grows.
Proof. unfold counter_grows. split; [intros w; lia | intros w1 w2 w3; lia]. Qed.

Lemma emit_counter_grows e : respects counter_grows (emit e).
Proof. intros w r w' [= <- <-]. unfold counter_grows. simpl. lia. Qed.

Lemma new_counter_grows k : respects counter_grows (THREE.new k).
Proof. intros w r w' [= <- <-]. unfold counter_grows. simpl. lia. Qed.

Lemma parser_counter_grows s json : respects counter_grows (parser s json).
Proof.
  intros w r w' Hrun. unfold counter_grows.
  destruct json as [json|], s; injection Hrun as <- <-; simpl; lia.
Qed.

Lemma parseObject_counter_grows data : respects counter_grows (parseObject data).
Proof.
  exact (respects_parseObject counter_grows emit_counter_grows new_counter_grows
           parser_counter_grows data).
Qed.

Lemma newborn_new k : newborn (THREE.new k).
Proof. intros w o w' [= <- <-]. simpl. split; [done | lia]. Qed.

Lemma newborn_throw e : newborn (throw e).
Proof. by intros w o w' H. Qed.

Lemma newborn_bind {A} (m : M A) k :
  respects counter_grows m → (∀ a, newborn (k a)) → newborn (bind m k).
Proof.
  intros Hm Hk w o w' (a & w1 & Hrun & H)%bind_Normal.
  apply Hm in Hrun. apply Hk in H as [Hnone Hrange]. unfold counter_grows in Hrun.
  split; [done | lia].
Qed.

Lemma newborn_bind_new kind k :
  (∀ n, hands_on n (k (THREE.constructed kind n))) → newborn (bind (THREE.new kind) k).
Proof.
  intros Hk w o w' (a & w1 & Hnew & H)%bind_Normal.
  injection Hnew as <- <-. apply Hk in H as (Hnone & Hoid & Hgrows). simpl in *.
  split; [done | lia].
Qed.

Lemma hands_on_ret n o : children o = [] → oid o = n → hands_on n (ret o).
Proof. intros Hnone Hoid w o' w' [= <- <-]. split; [done|]. split; [done | lia]. Qed.

Lemma hands_on_throw n e : hands_on n (throw e).
Proof. by intros w o w' H. Qed.

Lemma hands_on_bind {A} n (m : M A) k :
  respects counter_grows m → (∀ a, hands_on n (k a)) → hands_on n (bind m k).
Proof.
  intros Hm Hk w o w' (a & w1 & Hrun & H)%bind_Normal.
  apply Hm in Hrun. apply Hk in H as (Hnone & Hoid & Hgrows). unfold counter_grows in Hrun.
  split; [done|]. split; [done | lia].
Qed.

Ltac newborn_step :=
  first [ apply newborn_new
        | apply newborn_throw
        | apply hands_on_throw
        | apply hands_on_ret;
          repeat match goal with
                 | |- context [match ?x with _ => _ end] => destruct x
                 end;
          reflexivity
        | apply respects_ret; apply _
        | apply respects_throw; apply _
        | apply respects_get_this; apply _
        | apply newborn_bind_new; intros ?
        | apply newborn_bind; [|intros ?]
        | apply hands_on_bind; [|intros ?]
        | apply respects_bind; [apply _| |intros ?]
        | match goal with
          | |- newborn (match ?x with _ => _ end) => destruct x
          | |- hands_on _ (match ?x with _ => _ end) => destruct x
          | |- respects _ (match ?x with _ => _ end) => destruct x
          end ].

Lemma newborn_arms :
  Forall (λ case : string * Arm,
            ∀ data parseCamera,
              (∀ run, parseCamera = Some run → respects counter_grows run) →
              newborn (case.2 data parseCamera))
         switch.
Proof.
  unfold switch.
  repeat (apply Forall_cons_2;
          [ simpl; intros data parseCamera Hcamera;
            unfold constructs, case_SpineAnimation, case_LensFlare, case_Scene,
              case_SkinnedMesh, case_InstancedMesh, case_Mesh, case_Sky,
              case_OrbitControls, case_PerspectiveCamera, case_OrthographicCamera,
              readViewport, case_LightProbe, getGeometry;
            repeat newborn_step; by apply Hcamera |]).
  apply Forall_nil_2.
Qed.

Lemma create_newborn data : newborn (create data (parseDefaultCamera data)).
Proof.
  assert (∀ run, parseDefaultCamera data = Some run → respects counter_grows run)
    as Hcamera.
  { intros run. unfold parseDefaultCamera. destruct (Data.defaultCamera data); [|done].
    intros [= <-].
    exact (respects_parse counter_grows emit_counter_grows new_counter_grows
             parser_counter_grows _ _). }
  assert (respects counter_grows (construct data (parseDefaultCamera data))) as Hgrows.
  { apply (respects_construct counter_grows);
      first [apply new_counter_grows | exact Hcamera]. }
  intros w o w'. unfold create, try_catch.
  destruct (construct data (parseDefaultCamera data) w) as [[built|e] w1] eqn:Hconstruct.
  - intros [= <- <-]. revert Hconstruct. unfold construct.
    destruct (select (Data.type data) switch) as [arm|] eqn:Hselect; [|apply newborn_new].
    pose proof newborn_arms as Harms. revert Hselect.
    induction Harms as [|[label arm0] rest Harm _ IH]; simpl; [done|].
    case_decide; [intros [= <-]; by apply Harm | exact IH].
  - intros H. apply Hgrows in Hconstruct. unfold counter_grows in Hconstruct.
    apply bind_Normal in H as ([] & w2 & Hemit & Hnew).
    injection Hemit as <-. injection Hnew as <- <-. simpl. split; [done | lia].
Qed.

Lemma oids_eq o : oids o = oid o :: flat_map oids (children o).
Proof. unfold oids. rewrite nodes_eq, fmap_cons. f_equal. apply fmap_flat_map. Qed.

Lemma oids_same_root o o' :
  oid o' = oid o → children o' = children o → oids o' = oids o.
Proof. intros Hoid Hchildren. by rewrite (oids_eq o), (oids_eq o'), Hoid, Hchildren. Qed.

Lemma oids_visit_all g o : (∀ n, oid (g n) = oid n) → oids (visit_all g o) = oids o.
Proof.
  intros Hg. induction o as [o IH] using Object3D_tree_ind.
  rewrite visit_all_eq, (oids_eq o), oids_eq. simpl. rewrite Hg. f_equal.
  induction IH as [|c l Hc _ IHl]; simpl; [done|]. by rewrite Hc, IHl.
Qed.

Lemma refreshed_oid n : oid (refreshed n) = oid n.
Proof. unfold refreshed. by destruct (matrixAutoUpdate n). Qed.

Lemma applyMatrixAutoUpdate_oids data o : oids (applyMatrixAutoUpdate data o) = oids o.
Proof.
  destruct (applyMatrixAutoUpdate_same data o) as ([Hoid _ _ _ _ _ _ _ _ _ _] & _).
  destruct (applyMatrixAutoUpdate_form data o) as (m & _ & [Hkids|Hkids]).
  - by apply oids_same_root.
  - rewrite (oids_eq o), oids_eq, Hoid, Hkids. f_equal.
    generalize (children o). clear. intros l.
    induction l as [|c l IH]; cbn [map flat_map]; [done|].
    by rewrite IH, (oids_visit_all refreshed c refreshed_oid).
Qed.

Lemma finish_oids data o w o' w' :
  finish data o w = (Normal o', w') → oids o' = oids o ∧ counter_grows w w'.
Proof.
  intros H. split.
  - revert H. intros H. apply finish_Normal in H as (o1 & w1 & Hbind & Hpost).
    apply postProcess_same in Hpost as ([Hoid _ _ _ _ _ _ _ _ _ _] & _ & Hchildren & _).
    rewrite (oids_same_root _ _ Hoid Hchildren).
    destruct (discarded_same data o1) as ([Hoid1 _ _ _ _ _ _ _ _ _ _] & _ & Hchildren1 & _).
    rewrite (oids_same_root _ _ Hoid1 Hchildren1).
    rewrite <- (applyMatrixAutoUpdate_oids data o).
    unfold applySkeletons in Hbind. destruct (Data.skeletons data) as [json|].
    + apply bind_Normal in Hbind as (skeletons & w2 & _ & Hbind).
      apply bindSkeletons_Normal in Hbind as [(_ & -> & _)|(_ & -> & _)]; [done|].
      apply oids_visit_all. intros n. destruct (bound_form skeletons n) as (u & s & ->).
      reflexivity.
    + by run_inv Hbind.
  - exact (respects_finish counter_grows emit_counter_grows new_counter_grows data o _ _ _ H).
Qed.

Lemma children_allocated (f : Data.t → M Object3D) kids :
  Forall (λ kid, ∀ w o w', f kid w = (Normal o, w') →
                   allocated_within (next_oid w) (next_oid w') (oids o)) kids →
  ∀ object w object' w',
    foldM (λ object child, let* built := f child in ret (THREE.add built object))
          object kids w = (Normal object', w') →
    ∃ built, object' = set_children (children object ++ built) object
             ∧ allocated_within (next_oid w) (next_oid w') (flat_map oids built)
             ∧ counter_grows w w'.
Proof.
  unfold allocated_within, counter_grows.
  induction 1 as [|kid kids Hkid _ IH]; intros object w object' w' H; simpl in H.
  - run_inv H. exists []. rewrite app_nil_r, set_children_eta. simpl.
    split; [done|]. split; [|lia]. split; constructor.
  - apply bind_Normal in H as (parent & w1 & Hstep & H).
    apply bind_Normal in Hstep as (child' & w2 & Hbuilt & Hstep). run_inv Hstep.
    apply Hkid in Hbuilt as [Hdistinct Hrange].
    apply IH in H as (built & -> & [Hdistinct' Hrange'] & Hgrows).
    assert (next_oid w ≤ next_oid w1)%nat as Hfirst.
    { destruct (oids child') as [|i ids] eqn:Hids; [by rewrite oids_eq in Hids|].
      apply Forall_cons in Hrange as [? _]. lia. }
    exists (child' :: built). unfold THREE.add. simpl.
    rewrite <- app_assoc. split; [done|]. split; [|lia]. split.
    + apply NoDup_app. split; [done|]. split; [|done].
      intros i Hi Hi'. rewrite Forall_forall in Hrange, Hrange'.
      apply Hrange in Hi. apply Hrange' in Hi'. lia.
    + apply Forall_app. split.
      * eapply Forall_impl; [exact Hrange|]. intros i Hi. simpl in Hi. lia.
      * eapply Forall_impl; [exact Hrange'|]. intros i Hi. simpl in Hi. lia.
Qed.

Lemma attributed_oid data o : oid (attributed data o) = oid o.
Proof.
  unfold attributed, applyVisibility, applyTransform, applyIdentity.
  written oid. reflexivity.
Qed.

Lemma parseObject_allocated data :
  ∀ w object w',
    parseObject data w = (Normal object, w') →
    allocated_within (next_oid w) (next_oid w') (oids object).
Proof.
  induction data as [data IHchildren _] using Data_tree_ind.
  intros w object w'. rewrite parseObject_eq. intros H.
  apply bind_Normal in H as (created & w0 & Hcreate & H).
  apply bind_Normal in H as (attributed0 & w1 & Happly & H).
  apply bind_Normal in H as (parent & w2 & Hchildren & H).
  apply create_newborn in Hcreate as [Hnone Hroot].
  apply applyAttributes_form in Happly as (-> & -> & _).
  apply finish_oids in H as [-> Hgrows]. unfold counter_grows in Hgrows.
  assert (∃ built, oids parent = oid created :: flat_map oids built
                   ∧ allocated_within (next_oid w0) (next_oid w2) (flat_map oids built)
                   ∧ (next_oid w0 ≤ next_oid w2)%nat)
    as (built & -> & [Hdistinct Hrange] & Hlater).
  { unfold attachChildren in Hchildren.
    destruct (Data.children data) as [kids|]; simpl in IHchildren.
    - apply (children_allocated parseObject kids IHchildren) in Hchildren
        as (built & -> & Hbuilt & Hlater).
      exists built. rewrite oids_eq. simpl.
      rewrite (proj2 (attributed_root data created)), Hnone, attributed_oid. by simpl.
    - run_inv Hchildren. exists []. rewrite oids_eq.
      rewrite (proj2 (attributed_root data created)), Hnone, attributed_oid. simpl.
      split; [done|]. split; [|lia]. split; constructor. }
  split.
  - constructor; [|done]. intros Hin. rewrite Forall_forall in Hrange.
    apply Hrange in Hin. lia.
  - constructor; [lia|]. eapply Forall_impl; [exact Hrange|]. intros i Hi. simpl in Hi. lia.
Qed.


